(** * usdc_checker: batched non-zero balance filter

    A shallow embedding of [usdc_checker.py].  The script reads a list of
    addresses, validates them, asks a token contract for every balance
    through an aggregator contract (one aggregated call per batch, each
    RPC call retried with exponential backoff), decodes the packed
    results and reports the addresses whose balance is non-zero.

    Layout: Python primitives the script relies on (slices, [range],
    [zip], [int.from_bytes], [str] of an int, the [decimal] module at its
    default context), then the functions of the script in source order,
    then the theorems. *)

From Stdlib Require Import Ascii String.
From Stdlib Require Import NArith ZArith List Lia Bool QArith Qpower.
Import ListNotations.

Local Open Scope string_scope.
Local Open Scope list_scope.
Local Open Scope Z_scope.

(** ** Exceptions *)

(** The exceptions that can travel through the script.  All of them are
    subclasses of [Exception], so [except Exception] catches each. *)
Inductive exn : Type :=
| RpcError (msg : string)      (* whatever an RPC call raises *)
| ValueError
| TypeError
| DecimalOverflow
| DecimalDivisionByZero
| InvalidAddress               (* the ABI encoder refusing an address *)
| OSError (msg : string).

Inductive result (A : Type) : Type :=
| Ok (a : A)
| Raise (e : exn).
Arguments Ok {A} a.
Arguments Raise {A} e.

(** ** Python primitives *)

Module Py.

Section Sequences.
Context {A : Type}.

(** Index normalisation of a slice bound, as [PySlice_AdjustIndices]
    does it for step 1: a negative bound counts from the end, and the
    result is clamped to [0, len]. *)
Definition adjust_index (len i : Z) : Z :=
  if i <? 0 then Z.max (i + len) 0 else Z.min i len.

(** [l[lo:hi]]; [None] is an omitted bound. *)
Definition slice (l : list A) (lo hi : option Z) : list A :=
  let len := Z.of_nat (length l) in
  let lo' := match lo with Some i => adjust_index len i | None => 0 end in
  let hi' := match hi with Some i => adjust_index len i | None => len end in
  firstn (Z.to_nat (hi' - lo')) (skipn (Z.to_nat lo') l).

(** [zip(xs, ys)]: positional pairing, stops at the shorter input. *)
Fixpoint zip {B : Type} (xs : list A) (ys : list B) : list (A * B) :=
  match xs, ys with
  | x :: xs', y :: ys' => (x, y) :: zip xs' ys'
  | _, _ => []
  end.
End Sequences.

(** Number of items of [range(start, stop, step)]. *)
Definition range_length (start stop step : Z) : Z :=
  if 0 <? step then
    if start <? stop then (stop - start - 1) / step + 1 else 0
  else
    if stop <? start then (start - stop - 1) / (- step) + 1 else 0.

(** [range(start, stop, step)] as the list of its items; a zero step is a
    [ValueError], rendered as [None]. *)
Definition range (start stop step : Z) : option (list Z) :=
  if step =? 0 then None
  else Some (map (fun k => start + Z.of_nat k * step)
                 (seq 0 (Z.to_nat (range_length start stop step)))).


Definition bytes : Type := list Byte.byte.

(** [int.from_bytes(bs, byteorder="big")]: base-256 digits, most
    significant first; the empty string is 0. *)
Definition int_from_bytes_big (bs : bytes) : Z :=
  fold_left (fun acc b => acc * 256 + Z.of_N (Byte.to_N b)) bs 0.

(** [str(n)] for an [int]: decimal digits, no leading zero, ["-"] in
    front of a negative number.  [digits_aux] produces the digits least
    significant first onto an accumulator; a number below [2 ^ fuel] has
    at most [fuel] digits. *)
Definition digit_char (d : Z) : ascii := ascii_of_nat (48 + Z.to_nat d).

Fixpoint digits_aux (fuel : nat) (n : Z) (acc : string) : string :=
  match fuel with
  | O => acc
  | S fuel' =>
      let acc' := String (digit_char (n mod 10)) acc in
      if n / 10 =? 0 then acc' else digits_aux fuel' (n / 10) acc'
  end.

Definition str_nat (n : Z) : string :=
  digits_aux (S (Z.to_nat (Z.log2 n))) n EmptyString.

Definition str_int (n : Z) : string :=
  if n <? 0 then ("-" ++ str_nat (- n))%string else str_nat n.

(** Characters are code points below 256; the case mappings touch the
    letters [A-Z] and [a-z] only, the sole cased characters an address
    can hold. *)
Definition is_digit (c : ascii) : bool :=
  let n := nat_of_ascii c in ((48 <=? n) && (n <=? 57))%nat.
Definition is_upper (c : ascii) : bool :=
  let n := nat_of_ascii c in ((65 <=? n) && (n <=? 90))%nat.
Definition is_lower (c : ascii) : bool :=
  let n := nat_of_ascii c in ((97 <=? n) && (n <=? 122))%nat.
Definition lower_char (c : ascii) : ascii :=
  if is_upper c then ascii_of_nat (nat_of_ascii c + 32) else c.
Definition upper_char (c : ascii) : ascii :=
  if is_lower c then ascii_of_nat (nat_of_ascii c - 32) else c.

Fixpoint string_map (f : ascii -> ascii) (s : string) : string :=
  match s with
  | EmptyString => EmptyString
  | String c s' => String (f c) (string_map f s')
  end.
Fixpoint string_forallb (f : ascii -> bool) (s : string) : bool :=
  match s with
  | EmptyString => true
  | String c s' => f c && string_forallb f s'
  end.
Fixpoint string_existsb (f : ascii -> bool) (s : string) : bool :=
  match s with
  | EmptyString => false
  | String c s' => f c || string_existsb f s'
  end.

(** [s.lower()] *)
Definition lower (s : string) : string := string_map lower_char s.

(** [s.startswith(p)] *)
Definition startswith (s p : string) : bool := String.prefix p s.

(** Characters [str.strip()] removes. *)
Definition is_space (c : ascii) : bool :=
  let n := nat_of_ascii c in
  (((9 <=? n) && (n <=? 13)) || ((28 <=? n) && (n <=? 32))
   || (n =? 133) || (n =? 160))%nat.

Fixpoint lstrip (s : string) : string :=
  match s with
  | EmptyString => EmptyString
  | String c s' => if is_space c then lstrip s' else s
  end.
(** Drops the trailing white space: a character stays when something
    that is not white space follows it or it is none itself. *)
Fixpoint rstrip (s : string) : string :=
  match s with
  | EmptyString => EmptyString
  | String c s' =>
      match rstrip s' with
      | EmptyString => if is_space c then EmptyString else String c EmptyString
      | r => String c r
      end
  end.
(** [s.strip()] *)
Definition strip (s : string) : string := rstrip (lstrip s).

(** [s.split(sep)[0]] for a one-character separator: the text before
    its first occurrence, all of [s] when there is none. *)
Fixpoint split_first (sep : ascii) (s : string) : string :=
  match s with
  | EmptyString => EmptyString
  | String c s' =>
      if Ascii.eqb c sep then EmptyString else String c (split_first sep s')
  end.

(** [sep.join(parts)] *)
Fixpoint join (sep : string) (parts : list string) : string :=
  match parts with
  | [] => EmptyString
  | [x] => x
  | x :: rest => (x ++ sep ++ join sep rest)%string
  end.

(** [c * k] for a string [c] of one character. *)
Fixpoint repeat_char (c : ascii) (k : nat) : string :=
  match k with
  | O => EmptyString
  | S k' => String c (repeat_char c k')
  end.

(** What [print(t)] writes for each [t] of [texts]: the text and a line
    feed. *)
Definition newline : ascii := ascii_of_nat 10.

Definition print_text (texts : list string) : string :=
  String.concat EmptyString
    (map (fun t => (t ++ String newline EmptyString)%string) texts).

(** The lines of a text: what stands between line feeds; [line] is the
    part of the current line read so far.  A last line without a line
    feed counts when it is not empty. *)
Fixpoint lines_from (text : string) (line : string) : list string :=
  match text with
  | EmptyString =>
      match line with
      | EmptyString => []
      | _ => [line]
      end
  | String c text' =>
      if Ascii.eqb c newline then line :: lines_from text' EmptyString
      else lines_from text' (line ++ String c EmptyString)%string
  end.

Definition lines_of (text : string) : list string :=
  lines_from text EmptyString.

End Py.

(** ** The [decimal] module at its default context

    [Decimal(raw) / (Decimal(10) ** decimals)] and [str] of the quotient,
    as the standard library computes them under the default context:
    precision 28, rounding [ROUND_HALF_EVEN], [Emax = 999999],
    [Emin = -999999], [Overflow] and [DivisionByZero] trapped (raised),
    the other signals only flagged.  Every decimal of the script is
    finite and non-negative, so a number is a coefficient (the integer
    written by the digit string [_int]) and an exponent; digit-string
    operations of the library ([len], slicing off leading digits, testing
    the dropped digits) are written as the arithmetic they perform. *)
Module Dec.

Record t : Type := mk { coeff : Z; exp : Z }.

Definition prec : Z := 28.
Definition Emax : Z := 999999.
Definition Emin : Z := -999999.
Definition Etiny : Z := Emin - prec + 1.
Definition Etop : Z := Emax - prec + 1.

(** [len(self._int)] *)
Definition ndigits (c : Z) : Z := Z.of_nat (String.length (Py.str_nat c)).

(** [Decimal(n)] for a non-negative [int]: exact. *)
Definition of_int (n : Z) : t := mk n 0.

(** [_round_half_even]: [kept] are the digits that stay, [rest] the
    [drop >= 1] digits that go.  Returns 1 to round up, 0 when nothing
    is lost, -1 to truncate. *)
Definition round_half_even (digits kept rest drop : Z) : Z :=
  let half := 5 * 10 ^ (drop - 1) in
  if (rest =? half) && ((digits =? 0) || Z.even kept) then -1
  else if half <=? rest then 1
  else if rest =? 0 then 0
  else -1.

(** [Decimal._fix]: round to the context's precision and check the
    exponent range. *)
Definition fix_ (d : t) : result t :=
  if coeff d =? 0 then
    Ok (mk 0 (Z.min (Z.max (exp d) Etiny) Emax))
  else
    let exp_min := ndigits (coeff d) + exp d - prec in
    if Etop <? exp_min then Raise DecimalOverflow
    else
      let exp_min := if exp_min <? Etiny then Etiny else exp_min in
      if exp d <? exp_min then
        let digits := ndigits (coeff d) + exp d - exp_min in
        let c := if digits <? 0 then 1 else coeff d in
        let digits := if digits <? 0 then 0 else digits in
        let drop := ndigits c - digits in
        let kept := c / 10 ^ drop in
        let rest := c mod 10 ^ drop in
        let changed := round_half_even digits kept rest drop in
        let '(kept, exp_min) :=
          if 0 <? changed then
            if prec <? ndigits (kept + 1)
            then ((kept + 1) / 10, exp_min + 1)
            else (kept + 1, exp_min)
          else (kept, exp_min) in
        if Etop <? exp_min then Raise DecimalOverflow
        else Ok (mk kept exp_min)
      else Ok d.

(** [Decimal(10) ** decimals] for an [int] [decimals >= 0].  Zero gives
    the constant one; an exponent of seven digits or more is caught by
    the coarse overflow test; otherwise the exact power
    [1 followed by min(decimals, prec) zeros], with the remaining factor
    in the exponent, goes through [_fix]. *)
Definition ten_pow (decimals : N) : result t :=
  let d := Z.of_N decimals in
  if d =? 0 then Ok (mk 1 0)
  else if 6 <=? ndigits d - 1 then fix_ (mk 1 (Emax + 1))
  else
    let zeros := Z.min d prec in
    fix_ (mk (10 ^ zeros) (d - zeros)).

(** [while exp < ideal_exp and coeff % 10 == 0: coeff //= 10; exp += 1],
    with [room = ideal_exp - exp], which shrinks by one each round. *)
Fixpoint strip_zeros (room : nat) (c e : Z) : Z * Z :=
  match room with
  | O => (c, e)
  | S room' =>
      if c mod 10 =? 0 then strip_zeros room' (c / 10) (e + 1) else (c, e)
  end.

(** [Decimal.__truediv__] *)
Definition div (a b : t) : result t :=
  if coeff b =? 0 then Raise DecimalDivisionByZero
  else if coeff a =? 0 then fix_ (mk 0 (exp a - exp b))
  else
    let shift := ndigits (coeff b) - ndigits (coeff a) + prec + 1 in
    let e := exp a - exp b - shift in
    let '(q, r) :=
      if 0 <=? shift
      then Z.div_eucl (coeff a * 10 ^ shift) (coeff b)
      else Z.div_eucl (coeff a) (coeff b * 10 ^ (- shift)) in
    if r =? 0 then
      let ideal_exp := exp a - exp b in
      let '(q', e') := strip_zeros (Z.to_nat (ideal_exp - e)) q e in
      fix_ (mk q' e')
    else
      fix_ (mk (if q mod 5 =? 0 then q + 1 else q) e).

(** ["%+d" % n] *)
Definition format_signed (n : Z) : string :=
  if n <? 0 then Py.str_int n else ("+" ++ Py.str_int n)%string.

(** [Decimal.__str__]: plain notation when the exponent is at most 0 and
    more than -6 digits stand left of the point, scientific notation with
    one digit before the point otherwise. *)
Definition str (d : t) : string :=
  let int_ := Py.str_nat (coeff d) in
  let len := Z.of_nat (String.length int_) in
  let leftdigits := exp d + len in
  let dotplace :=
    if (exp d <=? 0) && (-6 <? leftdigits) then leftdigits else 1 in
  let intpart :=
    if dotplace <=? 0 then "0"
    else if len <=? dotplace
         then (int_ ++ Py.repeat_char "0" (Z.to_nat (dotplace - len)))%string
         else substring 0 (Z.to_nat dotplace) int_ in
  let fracpart :=
    if dotplace <=? 0
    then ("." ++ Py.repeat_char "0" (Z.to_nat (- dotplace)) ++ int_)%string
    else if len <=? dotplace then EmptyString
         else ("." ++ substring (Z.to_nat dotplace)
                                (Z.to_nat (len - dotplace)) int_)%string in
  let exp_part :=
    if leftdigits =? dotplace then EmptyString
    else ("E" ++ format_signed (leftdigits - dotplace))%string in
  (intpart ++ fracpart ++ exp_part)%string.

(** The number a decimal denotes. *)
Definition value (d : t) : Q := (inject_Z (coeff d) * Qpower 10 (exp d))%Q.

(** Reading a numeral: [Decimal(s)] for a string made of digits, an
    optional fraction after a point and an optional exponent after an
    [E], which is how the display string of a record is to be read.  The
    digits of the integer and fraction parts make the coefficient, and
    every digit of the fraction lowers the exponent by one. *)
Fixpoint digits_value (s : string) (acc : Z) : option Z :=
  match s with
  | EmptyString => Some acc
  | String c s' =>
      if Py.is_digit c
      then digits_value s' (acc * 10 + (Z.of_nat (nat_of_ascii c) - 48))
      else None
  end.

(** Cuts [s] at the first [c]: what stands before it and, if [c] occurs,
    what stands after it. *)
Fixpoint split_at (c : ascii) (s : string) : string * option string :=
  match s with
  | EmptyString => (EmptyString, None)
  | String a s' =>
      if Ascii.eqb a c then (EmptyString, Some s')
      else let '(before, after) := split_at c s' in (String a before, after)
  end.

Definition read_signed (s : string) : option Z :=
  match s with
  | String sign digits =>
      if Ascii.eqb sign "+" then digits_value digits 0
      else if Ascii.eqb sign "-"
           then option_map Z.opp (digits_value digits 0)
           else None
  | EmptyString => None
  end.

Definition of_string (s : string) : option t :=
  let '(mantissa, exponent) := split_at "E" s in
  let '(intpart, fraction) := split_at "." mantissa in
  let fracpart := match fraction with Some f => f | None => EmptyString end in
  match digits_value (intpart ++ fracpart)%string 0,
        match exponent with
        | None => Some 0
        | Some e => read_signed e
        end
  with
  | Some c, Some e => Some (mk c (e - Z.of_nat (String.length fracpart)))
  | _, _ => None
  end.

End Dec.

(** ** chunked *)

Section Chunked.
Context {A : Type}.

(** [def chunked(lst, n): for i in range(0, len(lst), n): yield lst[i : i + n]]
    The generator is rendered as the list of the slices it yields, in
    the order it yields them. *)
Definition chunked (lst : list A) (n : Z) : option (list (list A)) :=
  match Py.range 0 (Z.of_nat (length lst)) n with
  | None => None
  | Some starts =>
      Some (map (fun i => Py.slice lst (Some i) (Some (i + n))) starts)
  end.

(** The slices taken at multiples of [n], written on [nat]: the shape
    the proofs about [chunked] work with. *)
Definition pieces (l : list A) (n count : nat) : list (list A) :=
  map (fun k => firstn n (skipn (k * n) l)) (seq 0 count).
End Chunked.

(** ** The effects of a run *)

(** The only effect of the fetch phase that the script itself produces is
    [time.sleep]: a computation threads the log of the delays slept so
    far and ends in a value or in a raised exception.

    Delays are rationals.  [time.sleep] refuses a negative delay with a
    [ValueError], which [sleep] renders.  The limits of the float and
    timestamp ranges are not rendered: [base_delay * (2 ** i)] raises
    [OverflowError] once [2 ** i] no longer converts to a float
    ([i >= 1024]), and so does [time.sleep] for a delay beyond the
    platform's timestamp range (some 2^33 seconds, either way).
    [within_sleep_range] below names the runs that stay clear of both,
    the six attempts from 0.4 seconds of the script among them. *)
Definition M (A : Type) : Type := list Q -> result A * list Q.

Definition ret {A} (a : A) : M A := fun log => (Ok a, log).
Definition raise {A} (e : exn) : M A := fun log => (Raise e, log).
Definition bind {A B} (m : M A) (k : A -> M B) : M B :=
  fun log =>
    match m log with
    | (Ok a, log') => k a log'
    | (Raise e, log') => (Raise e, log')
    end.
(** [try: m except Exception: h] *)
Definition try_except {A} (m : M A) (h : exn -> M A) : M A :=
  fun log =>
    match m log with
    | (Ok a, log') => (Ok a, log')
    | (Raise e, log') => h e log'
    end.
Definition sleep (d : Q) : M unit :=
  fun log =>
    if Qle_bool 0 d then (Ok tt, log ++ [d]) else (Raise ValueError, log).
Definition lift {A} (r : result A) : M A := fun log => (r, log).

Declare Scope M_scope.
Delimit Scope M_scope with M.
Notation "x <- m ;; k" := (bind m (fun x => k))
  (at level 61, m at next level, right associativity) : M_scope.
Notation "m ;; k" := (bind m (fun _ => k))
  (at level 61, right associativity) : M_scope.

(** ** rpc_retry *)

(** The float literal [0.4]: the double nearest to 4/10.  Multiplying it
    by [2 ** i] is exact in binary floating point for the few [i] a
    retry loop reaches, so the delays are these rationals. *)
Definition default_base_delay : Q := 3602879701896397 # 9007199254740992.
Definition default_retries : nat := 6.

Section RpcRetry.
Context {A : Type}.

(** [fn] is a thunk whose outcome may differ from call to call: it is
    given by the outcome of its [i]-th invocation, counted from 0.

    [for i in range(retries): try: return fn()
       except Exception as e: last_err = e; time.sleep(base_delay * (2 ** i))]
    [i] is the attempt about to be made and [todo] the attempts left. *)
Fixpoint retry_loop (fn : nat -> result A) (base_delay : Q)
         (i todo : nat) (last_err : option exn) : M A :=
  match todo with
  | O =>
      (* [raise last_err]; raising [None] is a [TypeError] *)
      match last_err with
      | Some e => raise e
      | None => raise TypeError
      end
  | S todo' =>
      match fn i with
      | Ok a => ret a
      | Raise e =>
          bind (sleep (base_delay * inject_Z (2 ^ Z.of_nat i))%Q)
               (fun _ => retry_loop fn base_delay (S i) todo' (Some e))
      end
  end.

Definition rpc_retry (fn : nat -> result A)
           (retries : nat) (base_delay : Q) : M A :=
  retry_loop fn base_delay 0 retries None.
End RpcRetry.

(** The delays of [k] consecutive failed attempts, the first of them
    attempt [i]: [base_delay * 2 ** i], [base_delay * 2 ** (i + 1)], ... *)
Fixpoint backoff_delays (base_delay : Q) (i k : nat) : list Q :=
  match k with
  | O => []
  | S k' => (base_delay * inject_Z (2 ^ Z.of_nat i))%Q
            :: backoff_delays base_delay (S i) k'
  end.

(** The runs of a retry loop whose delays stay inside the range of
    [float] and of [time.sleep]: fewer than 1024 doublings, and no delay
    beyond 2^32 seconds either way. *)
Definition within_sleep_range (base_delay : Q) (retries : nat) : Prop :=
  (retries <= 1000)%nat
  /\ (- inject_Z (2 ^ 32) <= base_delay * inject_Z (2 ^ Z.of_nat retries))%Q
  /\ (base_delay * inject_Z (2 ^ Z.of_nat retries) <= inject_Z (2 ^ 32))%Q.


(** ** The [csv] module: [csv.writer(f).writerow(row)]

    The default dialect: fields joined by a comma, a field that holds a
    comma, a quote, a carriage return or a line feed is put in quotes
    with every quote inside it doubled, and the row ends in CR LF. *)
Module Csv.

Definition quote_char : ascii := ascii_of_nat 34.
Definition cr : ascii := ascii_of_nat 13.
Definition lf : ascii := ascii_of_nat 10.
Definition lineterminator : string := String cr (String lf EmptyString).

Definition is_special (c : ascii) : bool :=
  Ascii.eqb c "," || Ascii.eqb c quote_char || Ascii.eqb c cr || Ascii.eqb c lf.

Fixpoint double_quotes (s : string) : string :=
  match s with
  | EmptyString => EmptyString
  | String c s' =>
      if Ascii.eqb c quote_char
      then String c (String c (double_quotes s'))
      else String c (double_quotes s')
  end.

Definition field (s : string) : string :=
  if Py.string_existsb is_special s
  then (String quote_char (double_quotes s) ++ String quote_char EmptyString)%string
  else s.

(** The text one [writerow] appends to the file (a row of the script
    never is a single empty field, the one case with a rule of its own). *)
Definition writerow (row : list string) : string :=
  (Py.join "," (map field row) ++ lineterminator)%string.

End Csv.

(** ** The script *)

(** A balance record, the tuple [(addr, raw, str(human), symbol)]. *)
Record balance : Type := mk_balance {
  bal_addr : string;
  bal_raw : Z;
  bal_human : string;
  bal_symbol : string
}.

(** One aggregator sub-call [(target, allowFailure, callData)] and one
    sub-call result [(success, returnData)]. *)
Definition call : Type := string * bool * string.
Definition call_result : Type := bool * Py.bytes.

(** The RPC endpoint as the script sees it.  Each call the script
    retries is a thunk given by the outcome of its [i]-th invocation;
    the aggregate call is made once per batch, with the sub-calls of that
    batch.  [decimals()] returns a [uint8]. *)
Record rpc_env : Type := mk_rpc_env {
  decimals_call : nat -> result N;
  symbol_call : nat -> result string;
  aggregate3_call : nat -> list call -> nat -> result (list call_result)
}.

(** [argparse]'s namespace. *)
Record args : Type := mk_args {
  addresses_file : string;
  rpc : string;
  chunk : Z;
  out : string
}.

(** What [main] touches outside the process. *)
Record world : Type := mk_world {
  is_connected : bool;
  (* [open(path, "r")] and the lines read from it *)
  open_read : string -> result (list string);
  (* [open(path, "w")] *)
  open_write : string -> result unit;
  endpoint : rpc_env
}.

(** How the process ends: [sys.exit(code)], falling off the end of
    [main], or an exception nobody catches. *)
Inductive exit_status : Type :=
| Exited (code : Z)
| Completed
| Uncaught (e : exn).

Definition exit_code (s : exit_status) : Z :=
  match s with
  | Exited code => code
  | Completed => 0
  | Uncaught _ => 1
  end.

(** What a run leaves behind: the texts handed to [print] for standard
    output and for standard error (one entry per call of [print], in
    order), the files written, how it ended and the delays slept.  The
    characters that reach the stream, and its lines, are [stdout_text]
    and [Py.lines_of] below. *)
Record run : Type := mk_run {
  stdout : list string;
  stderr : list string;
  files : list (string * string);
  status : exit_status;
  slept : list Q
}.

(** The characters written to standard output. *)
Definition stdout_text (r : run) : string := Py.print_text (stdout r).

Section Script.

(** Modelled from the spec: [Web3.is_address] and
    [Web3.to_checksum_address] belong to the web3 library, which is not
    under src/.  The spec has a valid address be a "fixed-length
    hex-encoded byte string, optionally checksum-cased", valid "in any
    letter case", an invalid one having the "wrong length" or "non-hex
    characters", and the canonical form be "mixed-case checksummed" and
    "deterministic from the raw bytes".  So [is_address] accepts 40
    hexadecimal digits with an optional [0x] whatever the case of the
    letters, and the checksum form is the library's scheme (EIP-55): the
    lower-case digits with the letters raised where the digest of the
    lower-case text has a hexadecimal digit above 7.  The digest itself
    (Keccak-256) stays a parameter: [keccak_digit text i] is its [i]-th
    hexadecimal digit. *)
Variable keccak_digit : string -> nat -> Z.

(** [usdc.functions.balanceOf(addr)._encode_transaction_data()]: the
    ABI encoder of the web3 library.  The payload it produces for an
    address it accepts is opaque here; the addresses it accepts are the
    checksum addresses, any other one being refused with
    [InvalidAddress] (see [balanceOf_encode]). *)
Variable balanceOf_calldata : string -> string.

Definition is_hex_digit (c : ascii) : bool :=
  let n := nat_of_ascii c in
  (Py.is_digit c || ((97 <=? n) && (n <=? 102)) || ((65 <=? n) && (n <=? 70)))%nat.

(** A digit or one of [a-f]: the characters of a normalized address. *)
Definition is_lower_hex_digit (c : ascii) : bool :=
  let n := nat_of_ascii c in
  (Py.is_digit c || ((97 <=? n) && (n <=? 102)))%nat.

Definition is_0x_prefixed (s : string) : bool :=
  Py.startswith s "0x" || Py.startswith s "0X".

Definition remove_0x_prefix (s : string) : string :=
  if is_0x_prefixed s then substring 2 (String.length s - 2) s else s.

Definition add_0x_prefix (s : string) : string :=
  if is_0x_prefixed s then s else ("0x" ++ s)%string.

Definition hex40 (s : string) : bool :=
  (String.length s =? 40)%nat && Py.string_forallb is_hex_digit s.

(** Full match of [(0x)?[0-9a-f]{40}], ignoring case. *)
Definition is_hex_address (s : string) : bool :=
  hex40 s || (is_0x_prefixed s && hex40 (substring 2 (String.length s - 2) s)).

(** Lower case with the [0x] in front; [ValueError] for anything that
    is not an address. *)
Definition to_normalized_address (value : string) : result string :=
  let hex_address := Py.lower (add_0x_prefix (Py.lower value)) in
  if is_hex_address hex_address then Ok hex_address else Raise ValueError.

(** Raises the letters picked by the digest; [i] is the position of the
    first character of [s] in the unprefixed address. *)
Fixpoint checksum_case (text : string) (i : nat) (s : string) : string :=
  match s with
  | EmptyString => EmptyString
  | String c s' =>
      String (if 7 <? keccak_digit text i then Py.upper_char c else c)
             (checksum_case text (S i) s')
  end.

Definition to_checksum_address (value : string) : result string :=
  match to_normalized_address value with
  | Raise e => Raise e
  | Ok norm_address =>
      let text := remove_0x_prefix norm_address in
      Ok (add_0x_prefix (checksum_case text 0 text))
  end.

Definition is_checksum_address (value : string) : bool :=
  is_hex_address value &&
  match to_checksum_address value with
  | Ok c => String.eqb value c
  | Raise _ => false
  end.

(** Valid: a hex address, in any letter case. *)
Definition is_address (value : string) : bool := is_hex_address value.

(** The encoder's check of its argument and the payload. *)
Definition balanceOf_encode (addr : string) : result string :=
  if is_checksum_address addr then Ok (balanceOf_calldata addr)
  else Raise InvalidAddress.

(** The module-level constants: literals passed through
    [Web3.to_checksum_address] at import time. *)
Definition checksum_literal (lit : string) : string :=
  match to_checksum_address lit with
  | Ok c => c
  | Raise _ => lit
  end.
Definition USDC_BASE : string :=
  checksum_literal "0x833589fCD6eDb6E08f4c7C32D4f71b54bdA02913".
Definition MULTICALL3_BASE : string :=
  checksum_literal "0xcA11bde05977b3631167028862bE2a173976CA11".

(** *** load_addresses *)

(** The loop body over the lines of the file; [addrs] is the list
    built so far. *)
Fixpoint load_lines (lines : list string) (addrs : list string) : list string :=
  match lines with
  | [] => addrs
  | line :: rest =>
      let line := Py.strip line in
      if String.eqb line EmptyString || Py.startswith line "#"
      then load_lines rest addrs
      else
        let addr := Py.strip (Py.split_first "," line) in
        load_lines rest (addrs ++ [addr])
  end.

Definition load_addresses (w : world) (path : string) : result (list string) :=
  match open_read w path with
  | Raise e => Raise e
  | Ok lines => Ok (load_lines lines [])
  end.

(** *** to_checksum_addresses *)

(** The loop of [to_checksum_addresses] with its two accumulators. *)
Fixpoint checksum_loop (addrs ok bad : list string)
  : result (list string * list string) :=
  match addrs with
  | [] => Ok (ok, bad)
  | a :: rest =>
      if is_address a then
        match to_checksum_address a with
        | Ok c => checksum_loop rest (ok ++ [c]) bad
        | Raise e => Raise e
        end
      else checksum_loop rest ok (bad ++ [a])
  end.

Definition to_checksum_addresses (addrs : list string)
  : result (list string * list string) :=
  checksum_loop addrs [] [].

(** *** get_usdc_nonzero_multicall *)

(** [for addr in batch:
       calldata = usdc.functions.balanceOf(addr)._encode_transaction_data()
       calls.append((USDC_BASE, True, calldata))]
    [calls] is the list built so far; an address the encoder refuses
    ends the loop with its exception. *)
Fixpoint build_calls_from (batch : list string) (calls : list call)
  : result (list call) :=
  match batch with
  | [] => Ok calls
  | addr :: rest =>
      match balanceOf_encode addr with
      | Raise e => Raise e
      | Ok calldata =>
          build_calls_from rest (calls ++ [(USDC_BASE, true, calldata)])
      end
  end.

Definition build_calls (batch : list string) : result (list call) :=
  build_calls_from batch [].

(** [human = Decimal(raw) / (Decimal(10) ** decimals)] *)
Definition human_decimal (raw : Z) (decimals : N) : result Dec.t :=
  match Dec.ten_pow decimals with
  | Raise e => Raise e
  | Ok p => Dec.div (Dec.of_int raw) p
  end.

(** [str(human)] *)
Definition human_amount (raw : Z) (decimals : N) : result string :=
  match human_decimal raw decimals with
  | Raise e => Raise e
  | Ok h => Ok (Dec.str h)
  end.

(** The body of the decode loop for one [(addr, (success, ret))]: the
    record it appends, if any. *)
Definition decode_pair (decimals : N) (symbol : string)
           (addr : string) (r : call_result) : result (option balance) :=
  let '(success, ret) := r in
  if negb success || (match ret with [] => true | _ => false end) then Ok None
  else
    let raw := Py.int_from_bytes_big (Py.slice ret (Some (-32)) None) in
    if 0 <? raw then
      match human_amount raw decimals with
      | Raise e => Raise e
      | Ok human => Ok (Some (mk_balance addr raw human symbol))
      end
    else Ok None.

(** [for addr, (success, ret) in zip(batch, results): ...] *)
Fixpoint decode_loop (decimals : N) (symbol : string)
         (pairs : list (string * call_result)) (nonzero : list balance)
  : result (list balance) :=
  match pairs with
  | [] => Ok nonzero
  | (addr, r) :: rest =>
      match decode_pair decimals symbol addr r with
      | Raise e => Raise e
      | Ok None => decode_loop decimals symbol rest nonzero
      | Ok (Some b) => decode_loop decimals symbol rest (nonzero ++ [b])
      end
  end.

(** [for batch in chunked(addresses, chunk_size): ...]; [idx] counts
    the batches already sent. *)
Fixpoint batch_loop (env : rpc_env) (decimals : N) (symbol : string)
         (idx : nat) (batches : list (list string)) (nonzero : list balance)
  : M (list balance) :=
  match batches with
  | [] => ret nonzero
  | batch :: rest =>
      (calls <- lift (build_calls batch) ;;
       results <- rpc_retry (aggregate3_call env idx calls)
                            default_retries default_base_delay ;;
       nonzero' <- lift (decode_loop decimals symbol
                                     (Py.zip batch results) nonzero) ;;
       batch_loop env decimals symbol (S idx) rest nonzero')%M
  end.

(** The loop over all batches, entered once [decimals] and [symbol] are
    known; a chunk size of zero makes [range] raise on entry. *)
Definition scan_batches (env : rpc_env) (decimals : N) (symbol : string)
           (addresses : list string) (chunk_size : Z) : M (list balance) :=
  (batches <- lift (match chunked addresses chunk_size with
                    | Some bs => Ok bs
                    | None => Raise ValueError
                    end) ;;
   batch_loop env decimals symbol 0 batches [])%M.

Definition get_usdc_nonzero_multicall (env : rpc_env)
           (addresses : list string) (chunk_size : Z) : M (list balance) :=
  (decimals <- rpc_retry (decimals_call env)
                         default_retries default_base_delay ;;
   symbol <- try_except
               (rpc_retry (symbol_call env) default_retries default_base_delay)
               (fun _ => ret "USDC") ;;
   scan_batches env decimals symbol addresses chunk_size)%M.

(** *** main *)

Definition report_line (b : balance) : string :=
  (bal_addr b ++ "," ++ bal_human b ++ " " ++ bal_symbol b)%string.

Definition csv_header : list string :=
  ["address"; "usdc_raw"; "usdc"; "symbol"].

Definition csv_row (b : balance) : list string :=
  [bal_addr b; Py.str_int (bal_raw b); bal_human b; bal_symbol b].

Definition csv_text (nonzero : list balance) : string :=
  (Csv.writerow csv_header
     ++ String.concat EmptyString (map (fun b => Csv.writerow (csv_row b)) nonzero))%string.

Definition warning (bad : list string) : list string :=
  match bad with
  | [] => []
  | _ => [("Warning: skipped " ++ Py.str_int (Z.of_nat (length bad))
             ++ " invalid address(es).")%string]
  end.

Definition main (a : args) (w : world) : run :=
  if negb (is_connected w) then
    mk_run [] [("ERROR: Could not connect to RPC: " ++ rpc a)%string] []
           (Exited 2) []
  else
    match load_addresses w (addresses_file a) with
    | Raise e => mk_run [] [] [] (Uncaught e) []
    | Ok raw_addrs =>
        match to_checksum_addresses raw_addrs with
        | Raise e => mk_run [] [] [] (Uncaught e) []
        | Ok (addrs, bad) =>
            let err := warning bad in
            match get_usdc_nonzero_multicall (endpoint w) addrs (chunk a) [] with
            | (Raise e, log) => mk_run [] err [] (Uncaught e) log
            | (Ok nonzero, log) =>
                let printed := map report_line nonzero in
                if String.eqb (out a) EmptyString then
                  mk_run printed err [] Completed log
                else
                  match open_write w (out a) with
                  | Raise e => mk_run printed err [] (Uncaught e) log
                  | Ok _ =>
                      mk_run printed err [(out a, csv_text nonzero)]
                             Completed log
                  end
            end
        end
    end.

(** A run gets past the fetch phase when the endpoint answers the
    connectivity probe, the address file opens, the checksum pass
    returns and the fetch returns [nonzero]. *)
Definition fetched (a : args) (w : world) (nonzero : list balance) : Prop :=
  is_connected w = true /\
  exists raw_addrs addrs bad log,
    load_addresses w (addresses_file a) = Ok raw_addrs
    /\ to_checksum_addresses raw_addrs = Ok (addrs, bad)
    /\ get_usdc_nonzero_multicall (endpoint w) addrs (chunk a) [] =
       (Ok nonzero, log).

End Script.

(** ** Sample inputs

    A small world to run the definitions on: a stand-in for the digest
    (the real one is Keccak-256) and for the ABI encoder, a token with six
    decimals whose symbol cannot be fetched, and an aggregator that
    reports the same balance for every sub-call. *)
Module Sample.

Definition digest (text : string) (i : nat) : Z :=
  if Nat.even i then 9 else 3.

Definition calldata (addr : string) : string := ("70a08231:" ++ addr)%string.

(** [n.to_bytes(k, "big")] *)
Fixpoint to_bytes_big (k : nat) (n : Z) : Py.bytes :=
  match k with
  | O => []
  | S k' =>
      to_bytes_big k' (n / 256)
        ++ [match Byte.of_N (Z.to_N (n mod 256)) with
            | Some b => b
            | None => Byte.x00
            end]
  end.

Definition uint256 (n : Z) : Py.bytes := to_bytes_big 32 n.

Definition env (balance_raw : Z) : rpc_env :=
  mk_rpc_env
    (fun _ => Ok 6%N)
    (fun _ => Raise (RpcError "execution reverted"))
    (fun _ calls _ => Ok (map (fun _ => (true, uint256 balance_raw)) calls)).

Definition address_a : string := "0x52908400098527886e0f7030069857d2e4169ee7".

(** The same address in its checksum form under [digest], and in a
    mixed case that is not the checksum's. *)
Definition address_c : string := "0x52908400098527886e0f7030069857D2E4169eE7".
Definition address_m : string := "0x52908400098527886E0F7030069857d2e4169ee7".

Definition the_world (balance_raw : Z) (lines : list string) : world :=
  mk_world true (fun _ => Ok lines) (fun _ => Ok tt) (env balance_raw).

Definition the_args (out : string) : args :=
  mk_args "addresses.txt" "http://localhost:8545" 250 out.

End Sample.

(** ** Notions the theorems are stated with *)

(** The sub-calls the fetch is to send for a batch: one per address and
    in the order of the batch, each to the token contract, each allowed
    to fail, each carrying the payload of [balanceOf] for its address. *)
Definition sub_calls (keccak_digit : string -> nat -> Z)
           (balanceOf_calldata : string -> string)
           (batch : list string) : list call :=
  map (fun addr => (USDC_BASE keccak_digit, true, balanceOf_calldata addr))
      batch.

(** The records one pair of an address and a sub-call result is to
    give: one record when the sub-call succeeded, returned some bytes
    and the integer held by their last 32 bytes is positive, none
    otherwise. *)
Definition emitted (decimals : N) (symbol : string)
           (p : string * call_result) : list balance :=
  let '(addr, (success, ret)) := p in
  let raw := Py.int_from_bytes_big (skipn (length ret - 32) ret) in
  match ret with
  | [] => []
  | _ :: _ =>
      if success && (0 <? raw) then
        match human_amount raw decimals with
        | Ok human => [mk_balance addr raw human symbol]
        | Raise _ => []
        end
      else []
  end.

(** The aggregator answers every aggregate call at its first attempt,
    [answer idx calls] being its answer to the sub-calls [calls] of
    batch number [idx]. *)
Definition answers_at_once (env : rpc_env)
           (answer : nat -> list call -> list call_result) : Prop :=
  forall idx calls, aggregate3_call env idx calls 0%nat = Ok (answer idx calls).

(** The pairs of all batches when the aggregator's answer to the
    sub-calls [calls] of batch number [idx] is [answer idx calls]: each
    batch against the answer to its own sub-calls, position by position
    up to the shorter of the two, the batches in order. *)
Fixpoint answered_pairs (keccak_digit : string -> nat -> Z)
         (balanceOf_calldata : string -> string)
         (answer : nat -> list call -> list call_result)
         (idx : nat) (batches : list (list string))
  : list (string * call_result) :=
  match batches with
  | [] => []
  | batch :: rest =>
      combine batch
              (answer idx (sub_calls keccak_digit balanceOf_calldata batch))
        ++ answered_pairs keccak_digit balanceOf_calldata answer (S idx) rest
  end.

(** Whether a line of the address file contributes an entry, and the
    entry it contributes. *)
Definition kept_line (line : string) : bool :=
  negb (String.eqb (Py.strip line) EmptyString
        || Py.startswith (Py.strip line) "#").

Definition line_entry (line : string) : string :=
  Py.strip (Py.split_first "," (Py.strip line)).

(** Whether a character occurs in a string. *)
Definition occurs (c : ascii) (s : string) : bool :=
  Py.string_existsb (Ascii.eqb c) s.

(** The number of line feeds in a text. *)
Fixpoint line_feeds (s : string) : nat :=
  match s with
  | EmptyString => 0
  | String c s' => (if Ascii.eqb c Py.newline then 1 else 0) + line_feeds s'
  end.

(** The time slept in all: the sum of the delays. *)
Definition total_delay (ds : list Q) : Q := fold_right Qplus 0%Q ds.

(** [xs] is [ys] with some items left out, the order kept. *)
Inductive subseq {A : Type} : list A -> list A -> Prop :=
| subseq_nil : subseq [] []
| subseq_skip (y : A) (xs ys : list A) : subseq xs ys -> subseq xs (y :: ys)
| subseq_take (x : A) (xs ys : list A) : subseq xs ys -> subseq (x :: xs) (x :: ys).

(** Reading a line of the report back: the address is what stands before
    the first comma, the amount what stands between it and the next
    space, the symbol all that follows. *)
Definition parse_report_line (line : string)
  : option (string * string * string) :=
  match Dec.split_at "," line with
  | (addr, Some rest) =>
      match Dec.split_at " " rest with
      | (human, Some symbol) => Some (addr, human, symbol)
      | (_, None) => None
      end
  | (_, None) => None
  end.

(** The characters a display string of a decimal is made of. *)
Definition is_numeral_char (c : ascii) : bool :=
  Py.is_digit c || Ascii.eqb c "." || Ascii.eqb c "E"
  || Ascii.eqb c "+" || Ascii.eqb c "-".

(** Reading a CSV text of the default dialect back into rows of fields:
    fields end at a comma, rows at CR LF; a field that opens with a quote
    runs to the next quote that is not doubled, a doubled quote standing
    for one.  Text that is cut off inside a row, or has something other
    than a separator after a closing quote, is refused. *)
Module CsvReader.

Inductive state : Type :=
| RowStart      (* nothing of the row read yet *)
| FieldStart    (* just after a comma *)
| Unquoted      (* inside a field without quotes *)
| Quoted        (* inside a field in quotes *)
| QuoteSeen     (* a quote inside a field in quotes: doubled, or the end *)
| AfterCR.      (* the row has ended with CR, LF is due *)

Definition snoc (s : string) (c : ascii) : string :=
  (s ++ String c EmptyString)%string.

Fixpoint scan (text : string) (st : state) (field : string)
         (row : list string) (rows : list (list string))
  : option (list (list string)) :=
  match text with
  | EmptyString =>
      match st with
      | RowStart => Some rows
      | _ => None
      end
  | String c text' =>
      match st with
      | RowStart | FieldStart | Unquoted =>
          if Ascii.eqb c "," then
            scan text' FieldStart EmptyString (row ++ [field]) rows
          else if Ascii.eqb c Csv.cr then
            match st with
            | RowStart => None
            | _ => scan text' AfterCR EmptyString [] (rows ++ [row ++ [field]])
            end
          else if Ascii.eqb c Csv.quote_char then
            match st with
            | Unquoted => None
            | _ => scan text' Quoted EmptyString row rows
            end
          else if Ascii.eqb c Csv.lf then None
          else scan text' Unquoted (snoc field c) row rows
      | Quoted =>
          if Ascii.eqb c Csv.quote_char
          then scan text' QuoteSeen field row rows
          else scan text' Quoted (snoc field c) row rows
      | QuoteSeen =>
          if Ascii.eqb c Csv.quote_char
          then scan text' Quoted (snoc field c) row rows
          else if Ascii.eqb c "," then
            scan text' FieldStart EmptyString (row ++ [field]) rows
          else if Ascii.eqb c Csv.cr then
            scan text' AfterCR EmptyString [] (rows ++ [row ++ [field]])
          else None
      | AfterCR =>
          if Ascii.eqb c Csv.lf
          then scan text' RowStart EmptyString [] rows
          else None
      end
  end.

Definition read (text : string) : option (list (list string)) :=
  scan text RowStart EmptyString [] [].

End CsvReader.

(** ** Theorems *)

Section ChunkedFacts.
Context {A : Type}.
Implicit Types (l : list A) (n k : nat).

Lemma slice_in_range l (i j : Z) :
  0 <= i -> i <= j ->
  Py.slice l (Some i) (Some j) =
  firstn (Z.to_nat j - Z.to_nat i) (skipn (Z.to_nat i) l).
Proof.
  intros Hi Hij. unfold Py.slice, Py.adjust_index.
  destruct (Z.ltb_spec i 0); [lia|].
  destruct (Z.ltb_spec j 0); [lia|].
  set (len := Z.of_nat (length l)).
  destruct (Z.le_gt_cases i len) as [Hil|Hil].
  - rewrite (Z.min_l i len) by lia.
    destruct (Z.le_gt_cases j len) as [Hjl|Hjl].
    + rewrite (Z.min_l j len) by lia. f_equal. lia.
    + rewrite (Z.min_r j len) by lia.
      rewrite !firstn_all2; trivial; rewrite length_skipn; lia.
  - rewrite (Z.min_r i len), (Z.min_r j len) by lia.
    rewrite !skipn_all2 by lia. now rewrite !firstn_nil.
Qed.

Lemma pieces_succ l n count :
  pieces l n (S count) = firstn n l :: pieces (skipn n l) n count.
Proof.
  unfold pieces. cbn [seq map]. f_equal.
  rewrite <- seq_shift, map_map. apply map_ext. intros k.
  now rewrite skipn_skipn, Nat.add_comm.
Qed.

Lemma concat_pieces n count : forall l,
  (length l <= count * n)%nat -> concat (pieces l n count) = l.
Proof.
  induction count as [|count IH]; intros l Hlen.
  - destruct l; [reflexivity | simpl in Hlen; lia].
  - rewrite pieces_succ. cbn [concat].
    rewrite IH by (rewrite length_skipn; lia).
    apply firstn_skipn.
Qed.

Lemma chunked_pieces l (n : Z) :
  0 < n ->
  chunked l n =
  Some (pieces l (Z.to_nat n)
          (Z.to_nat (Py.range_length 0 (Z.of_nat (length l)) n))).
Proof.
  intros Hn. unfold chunked, Py.range.
  destruct (Z.eqb_spec n 0); [lia|]. f_equal.
  unfold pieces. rewrite map_map. apply map_ext. intros k.
  rewrite slice_in_range by nia. f_equal; [nia|]. f_equal. nia.
Qed.

Lemma range_length_bounds (len n : Z) :
  0 <= len -> 0 < n ->
  let count := Py.range_length 0 len n in
  0 <= count /\ len <= count * n /\ (0 < len -> (count - 1) * n < len) /\
  (len = 0 -> count = 0).
Proof.
  intros Hlen Hn. unfold Py.range_length.
  destruct (Z.ltb_spec 0 n); [|lia].
  destruct (Z.ltb_spec 0 len).
  - rewrite Z.sub_0_r.
    pose proof (Z.div_mod (len - 1) n ltac:(lia)) as Hdm.
    pose proof (Z.mod_pos_bound (len - 1) n Hn) as Hm.
    pose proof (Z.div_pos (len - 1) n ltac:(lia) Hn) as Hq.
    cbv zeta. nia.
  - cbv zeta. lia.
Qed.

Lemma nth_error_Some_bound (X : Type) (xs : list X) k x :
  nth_error xs k = Some x -> (k < length xs)%nat.
Proof. intros H. apply nth_error_Some. congruence. Qed.

Lemma nth_error_pieces l n count k c :
  nth_error (pieces l n count) k = Some c ->
  (k < count)%nat /\ c = firstn n (skipn (k * n) l).
Proof.
  unfold pieces. intros H.
  assert (Hk : (k < count)%nat).
  { apply nth_error_Some_bound in H. now rewrite length_map, length_seq in H. }
  split; [exact Hk|].
  rewrite nth_error_map, nth_error_seq in H.
  destruct (Nat.ltb_spec k count); [|lia].
  cbn in H. now injection H as <-.
Qed.

(** C2. For a positive chunk size [n], [chunked] yields the contiguous
    slices [l[k*n : k*n+n]] in increasing [k]; their concatenation is
    the input; every group but the last has exactly [n] items and the
    last has between 1 and [n]; 600 items with [n = 250] make three
    groups of 250, 250 and 100 items. *)
Theorem chunked_contiguous_groups l (z : Z) (Hz : 0 < z) :
  exists chunks : list (list A),
    chunked l z = Some chunks
    /\ concat chunks = l
    /\ (forall k c, nth_error chunks k = Some c ->
          c = firstn (Z.to_nat z) (skipn (k * Z.to_nat z) l)
          /\ (0 < length c)%nat
          /\ Z.of_nat (length c) <= z
          /\ ((S k < length chunks)%nat -> Z.of_nat (length c) = z))
    /\ (length l = 600%nat -> z = 250 ->
          map (@length A) chunks = [250; 250; 100]%nat).
Proof.
  rewrite chunked_pieces by exact Hz.
  set (n := Z.to_nat z).
  set (count := Z.to_nat (Py.range_length 0 (Z.of_nat (length l)) z)).
  destruct (range_length_bounds (Z.of_nat (length l)) z ltac:(lia) Hz)
    as (Hc0 & Hup & Hlow & Hnil).
  assert (Hup' : (length l <= count * n)%nat) by (subst count n; nia).
  assert (Hlow' : (0 < count -> (count - 1) * n < length l)%nat).
  { subst count n. intros Hpos.
    destruct (Z.eq_dec (Z.of_nat (length l)) 0) as [E|E].
    - specialize (Hnil E). lia.
    - specialize (Hlow ltac:(lia)). nia. }
  exists (pieces l n count). split; [reflexivity|].
  split; [now apply concat_pieces|]. split.
  - intros k c Hk. apply nth_error_pieces in Hk as [Hk ->].
    split; [reflexivity|].
    unfold pieces. rewrite length_map, length_seq, length_firstn, length_skipn.
    assert ((k * n <= (count - 1) * n)%nat) by nia.
    split; [nia|]. split; [nia|].
    intros Hlast. assert ((S k * n <= (count - 1) * n)%nat) by nia. nia.
  - intros Hlen ->. subst count n. rewrite Hlen.
    change (Z.to_nat (Py.range_length 0 (Z.of_nat 600) 250)) with 3%nat.
    unfold pieces. cbn [seq map].
    rewrite !length_firstn, !length_skipn, Hlen. reflexivity.
Qed.

End ChunkedFacts.

(** The theorem at a three-item list cut every two items. *)
Lemma chunked_contiguous_groups_witness :
  0 < 2 /\
  exists chunks : list (list nat),
    chunked [1; 2; 3]%nat 2 = Some chunks /\ concat chunks = [1; 2; 3]%nat.
Proof.
  split; [lia|].
  destruct (chunked_contiguous_groups [1; 2; 3]%nat 2 ltac:(lia))
    as (chunks & H1 & H2 & _).
  exists chunks. split; assumption.
Defined.

(** *** rpc_retry *)

Section RpcRetryFacts.
Context {A : Type}.
Variable fn : nat -> result A.
Variable base_delay : Q.

(** A delay that is not negative is slept and logged; a negative one
    raises. *)
Lemma sleep_backoff (Hnn : (0 <= base_delay)%Q) (i : nat) (log : list Q) :
  sleep (base_delay * inject_Z (2 ^ Z.of_nat i))%Q log =
  (Ok tt, log ++ [(base_delay * inject_Z (2 ^ Z.of_nat i))%Q]).
Proof.
  unfold sleep.
  assert (H : Qle_bool 0 (base_delay * inject_Z (2 ^ Z.of_nat i)) = true).
  { apply Qle_bool_iff. apply Qmult_le_0_compat; [exact Hnn|].
    change 0%Q with (inject_Z 0). rewrite <- Zle_Qle.
    apply Z.pow_nonneg. lia. }
  now rewrite H.
Qed.

Lemma sleep_negative (Hneg : (base_delay < 0)%Q) (i : nat) (log : list Q) :
  sleep (base_delay * inject_Z (2 ^ Z.of_nat i))%Q log = (Raise ValueError, log).
Proof.
  unfold sleep.
  destruct (Qle_bool 0 (base_delay * inject_Z (2 ^ Z.of_nat i))) eqn:E;
    [|reflexivity].
  exfalso. apply Qle_bool_iff in E.
  assert (Hp : (0 < inject_Z (2 ^ Z.of_nat i))%Q).
  { change 0%Q with (inject_Z 0). rewrite <- Zlt_Qlt.
    apply Z.pow_pos_nonneg; lia. }
  assert (Hlt : (base_delay * inject_Z (2 ^ Z.of_nat i) < 0 * inject_Z (2 ^ Z.of_nat i))%Q).
  { apply Qmult_lt_compat_r; assumption. }
  rewrite Qmult_0_l in Hlt.
  exact (Qlt_irrefl 0 (Qle_lt_trans _ _ _ E Hlt)).
Qed.

(** The delays slept after the failed attempts [i, i + 1, ..., i + k - 1]. *)
Lemma retry_loop_succeeds (Hnn : (0 <= base_delay)%Q) k :
  forall i todo last_err log a,
  (forall j, (i <= j < i + k)%nat -> exists e, fn j = Raise e) ->
  fn (i + k)%nat = Ok a ->
  (k < todo)%nat ->
  retry_loop fn base_delay i todo last_err log =
  (Ok a, log ++ backoff_delays base_delay i k).
Proof.
  induction k as [|k IH]; intros i todo last_err log a Hfail Hok Hlt.
  - destruct todo as [|todo]; [lia|]. cbn [retry_loop backoff_delays].
    rewrite Nat.add_0_r in Hok. rewrite Hok. unfold ret.
    now rewrite app_nil_r.
  - destruct todo as [|todo]; [lia|]. cbn [retry_loop backoff_delays].
    destruct (Hfail i ltac:(lia)) as [e He]. rewrite He.
    unfold bind. rewrite (sleep_backoff Hnn).
    rewrite (IH (S i) todo (Some e) _ a).
    + now rewrite <- app_assoc.
    + intros j Hj. apply Hfail. lia.
    + now rewrite Nat.add_succ_comm.
    + lia.
Qed.

Lemma retry_loop_exhausted (Hnn : (0 <= base_delay)%Q) todo :
  forall i last_err log (errs : nat -> exn),
  (forall j, (i <= j < i + todo)%nat -> fn j = Raise (errs j)) ->
  retry_loop fn base_delay i todo last_err log =
  (Raise (match todo with
          | O => match last_err with Some e => e | None => TypeError end
          | S t => errs (i + t)%nat
          end),
   log ++ backoff_delays base_delay i todo).
Proof.
  induction todo as [|todo IH]; intros i last_err log errs Hfail.
  - cbn. destruct last_err; unfold raise; now rewrite app_nil_r.
  - cbn [retry_loop backoff_delays]. rewrite (Hfail i) by lia.
    unfold bind. rewrite (sleep_backoff Hnn).
    rewrite (IH (S i) (Some (errs i)) _ errs) by (intros; apply Hfail; lia).
    rewrite <- app_assoc. cbn [app]. f_equal.
    destruct todo; [now rewrite Nat.add_0_r|].
    do 2 f_equal. lia.
Qed.


End RpcRetryFacts.


(** *** The fetch phase *)

Lemma default_base_delay_nonneg : (0 <= default_base_delay)%Q.
Proof. discriminate. Qed.

Section FetchFacts.
(** The two library parameters of the script: the digest behind the
    checksum and the ABI encoder. *)
Variable kd : string -> nat -> Z.
Variable cd : string -> string.

(** One turn of the loop over the batches that ends well: the
    sub-calls were built, the aggregate call answered, the answer was
    decoded and the loop went on. *)
Lemma batch_loop_step env decimals symbol idx batch rest nonzero log out log' :
  batch_loop kd cd env decimals symbol idx (batch :: rest) nonzero log
    = (Ok out, log') ->
  exists calls results log1 nonzero',
    build_calls kd cd batch = Ok calls
    /\ rpc_retry (aggregate3_call env idx calls)
                 default_retries default_base_delay log = (Ok results, log1)
    /\ decode_loop decimals symbol (Py.zip batch results) nonzero = Ok nonzero'
    /\ batch_loop kd cd env decimals symbol (S idx) rest nonzero' log1
       = (Ok out, log').
Proof.
  intros H. cbn [batch_loop] in H. unfold bind at 1 in H. unfold lift at 1 in H.
  destruct (build_calls kd cd batch) as [calls|e]; [|discriminate].
  unfold bind at 1 in H.
  destruct (rpc_retry _ _ _ log) as [[results|e] log1] eqn:Er; [|discriminate].
  unfold bind at 1 in H. unfold lift in H.
  destruct (decode_loop _ _ _ _) as [nonzero'|e] eqn:E; [|discriminate].
  exists calls, results, log1, nonzero'. repeat split; trivial.
Qed.

Lemma decode_pair_symbol decimals symbol addr r b :
  decode_pair decimals symbol addr r = Ok (Some b) -> bal_symbol b = symbol.
Proof.
  unfold decode_pair. destruct r as [success ret].
  destruct (negb success || _); [discriminate|].
  destruct (0 <? _); [|discriminate].
  destruct (human_amount _ _); [|discriminate].
  intros [= <-]. reflexivity.
Qed.

Lemma decode_loop_symbol decimals symbol pairs : forall nonzero out,
  decode_loop decimals symbol pairs nonzero = Ok out ->
  Forall (fun b => bal_symbol b = symbol) nonzero ->
  Forall (fun b => bal_symbol b = symbol) out.
Proof.
  induction pairs as [|[addr r] pairs IH]; intros nonzero out H Hall.
  - cbn in H. now injection H as <-.
  - cbn [decode_loop] in H.
    destruct (decode_pair decimals symbol addr r) as [[b|]|] eqn:E;
      [| |discriminate].
    + apply (IH _ _ H). apply Forall_app. split; [exact Hall|].
      constructor; [|constructor]. eapply decode_pair_symbol, E.
    + now apply (IH _ _ H).
Qed.

Lemma batch_loop_symbol env decimals symbol batches :
  forall idx nonzero log out log',
  batch_loop kd cd env decimals symbol idx batches nonzero log = (Ok out, log') ->
  Forall (fun b => bal_symbol b = symbol) nonzero ->
  Forall (fun b => bal_symbol b = symbol) out.
Proof.
  induction batches as [|batch batches IH]; intros idx nonzero log out log' H Hall.
  - cbn in H. now injection H as <- _.
  - apply batch_loop_step in H as (calls & results & log1 & nonzero' & _ & _ & E & H).
    apply (IH _ _ _ _ _ H). eapply decode_loop_symbol; eassumption.
Qed.

(** C5. When every attempt of the decimals fetch fails, the error of the
    last attempt leaves [get_usdc_nonzero_multicall]: there is no
    fallback.  When the decimals fetch succeeds and every attempt of the
    symbol fetch fails, the run goes on through the batches with the
    symbol ["USDC"], which every record it returns then carries. *)
Theorem symbol_falls_back_decimals_do_not
  (env : rpc_env) (addresses : list string) (chunk_size : Z)
  (errs : nat -> exn) (log : list Q) :
  ((forall j, (j < default_retries)%nat -> decimals_call env j = Raise (errs j)) ->
   get_usdc_nonzero_multicall kd cd env addresses chunk_size log =
   (Raise (errs 5%nat), log ++ backoff_delays default_base_delay 0 6))
  /\ (forall (k : nat) (decimals : N),
        (forall j, (j < k)%nat -> exists e, decimals_call env j = Raise e) ->
        decimals_call env k = Ok decimals ->
        (k < default_retries)%nat ->
        (forall j, (j < default_retries)%nat -> symbol_call env j = Raise (errs j)) ->
        let log' := (log ++ backoff_delays default_base_delay 0 k)
                      ++ backoff_delays default_base_delay 0 6 in
        get_usdc_nonzero_multicall kd cd env addresses chunk_size log =
        scan_batches kd cd env decimals "USDC" addresses chunk_size log'
        /\ (forall out log'',
              get_usdc_nonzero_multicall kd cd env addresses chunk_size log
                = (Ok out, log'') ->
              Forall (fun b => bal_symbol b = "USDC") out)).
Proof.
  split.
  - intros Hfail. unfold get_usdc_nonzero_multicall, bind at 1, rpc_retry.
    rewrite (retry_loop_exhausted _ _ default_base_delay_nonneg default_retries 0 None log errs)
      by (intros; apply Hfail; unfold default_retries in *; lia).
    reflexivity.
  - intros k decimals Hfail Hok Hk Hsym log'.
    assert (E : get_usdc_nonzero_multicall kd cd env addresses chunk_size log =
                scan_batches kd cd env decimals "USDC" addresses chunk_size log').
    { unfold get_usdc_nonzero_multicall, bind at 1, rpc_retry.
      rewrite (retry_loop_succeeds _ _ default_base_delay_nonneg k 0 default_retries None log decimals);
        trivial; [|intros; apply Hfail; lia].
      unfold bind at 1, try_except, rpc_retry.
      rewrite (retry_loop_exhausted _ _ default_base_delay_nonneg default_retries 0 None _ errs)
        by (intros; apply Hsym; unfold default_retries in *; lia).
      reflexivity. }
    split; [exact E|].
    intros out log'' Hrun. rewrite E in Hrun.
    unfold scan_batches, bind, lift in Hrun.
    destruct (chunked addresses chunk_size) as [bs|]; [|discriminate].
    eapply batch_loop_symbol; [exact Hrun|constructor].
Qed.

End FetchFacts.

(** *** main *)

Section MainFacts.
Variable kd : string -> nat -> Z.
Variable cd : string -> string.

Lemma main_after_fetch a w nonzero :
  fetched kd cd a w nonzero ->
  stdout (main kd cd a w) = map report_line nonzero
  /\ (out a = EmptyString ->
      files (main kd cd a w) = [] /\ status (main kd cd a w) = Completed)
  /\ (out a <> EmptyString -> forall u, open_write w (out a) = Ok u ->
      files (main kd cd a w) = [(out a, csv_text nonzero)]
      /\ status (main kd cd a w) = Completed).
Proof.
  intros (Hc & raw_addrs & addrs & bad & log & Hl & Hk & Hg).
  unfold main. rewrite Hc, Hl, Hk, Hg. cbn [negb].
  destruct (String.eqb_spec (out a) EmptyString) as [E|E].
  - repeat split; trivial; intros; congruence.
  - destruct (open_write w (out a)) as [u|e] eqn:Ew.
    + repeat split; trivial; intros; congruence.
    + repeat split; trivial; intros; congruence.
Qed.

(** C9. [main] ends with exit code 2 exactly when the endpoint does not
    answer the connectivity probe, having printed the error to standard
    error and nothing else; a run that gets through the fetch phase and
    writes its CSV, if one is asked for, ends with exit code 0, whatever
    the list of non-zero balances, the empty one included. *)
Theorem main_exit_codes (a : args) (w : world) :
  (exit_code (status (main kd cd a w)) = 2 <-> is_connected w = false)
  /\ (is_connected w = false ->
      status (main kd cd a w) = Exited 2
      /\ stderr (main kd cd a w) =
         [("ERROR: Could not connect to RPC: " ++ rpc a)%string]
      /\ stdout (main kd cd a w) = []
      /\ files (main kd cd a w) = [])
  /\ (forall nonzero,
        fetched kd cd a w nonzero ->
        (out a = EmptyString \/ exists u, open_write w (out a) = Ok u) ->
        status (main kd cd a w) = Completed
        /\ exit_code (status (main kd cd a w)) = 0)
  /\ (fetched kd cd a w [] ->
      (out a = EmptyString \/ exists u, open_write w (out a) = Ok u) ->
      exit_code (status (main kd cd a w)) = 0
      /\ stdout (main kd cd a w) = []).
Proof.
  assert (Hdown : is_connected w = false ->
                  main kd cd a w =
                  mk_run [] [("ERROR: Could not connect to RPC: " ++ rpc a)%string]
                         [] (Exited 2) []).
  { intros H. unfold main. now rewrite H. }
  assert (Hdone : forall nonzero, fetched kd cd a w nonzero ->
            (out a = EmptyString \/ exists u, open_write w (out a) = Ok u) ->
            status (main kd cd a w) = Completed).
  { intros nonzero Hf Hout.
    destruct (main_after_fetch a w nonzero Hf) as (_ & H1 & H2).
    destruct (String.eqb_spec (out a) EmptyString) as [E|E]; [now apply H1|].
    destruct Hout as [|[u Hu]]; [contradiction|]. now apply (H2 E u). }
  split; [|split; [|split]].
  - split.
    + intros H. destruct (is_connected w) eqn:Hc; [|reflexivity].
      exfalso. revert H. unfold main. rewrite Hc. cbn [negb].
      destruct (load_addresses _ _); [|cbn; lia].
      destruct (to_checksum_addresses _ _) as [[addrs bad]|]; [|cbn; lia].
      destruct (get_usdc_nonzero_multicall _ _ _ _ _ _) as [[nonzero|e] log];
        [|cbn; lia].
      destruct (String.eqb _ _); [cbn; lia|].
      destruct (open_write _ _); cbn; lia.
    + intros H. rewrite (Hdown H). reflexivity.
  - intros H. rewrite (Hdown H). repeat split.
  - intros nonzero Hf Hout. rewrite (Hdone nonzero Hf Hout). split; reflexivity.
  - intros Hf Hout. rewrite (Hdone [] Hf Hout). split; [reflexivity|].
    now destruct (main_after_fetch a w [] Hf) as (-> & _).
Qed.

Lemma csv_header_row :
  Csv.writerow csv_header =
  ("address,usdc_raw,usdc,symbol" ++ Csv.lineterminator)%string.
Proof. reflexivity. Qed.

End MainFacts.

Lemma sample_run_fetched :
  fetched Sample.digest Sample.calldata
          (Sample.the_args "out.csv")
          (Sample.the_world 1500000 [Sample.address_a])
          [mk_balance "0x52908400098527886e0f7030069857D2E4169eE7"
                      1500000 "1.5" "USDC"].
Proof.
  split; [reflexivity|].
  exists [Sample.address_a],
         ["0x52908400098527886e0f7030069857D2E4169eE7"], [],
         (backoff_delays default_base_delay 0 6).
  repeat split; vm_compute; reflexivity.
Defined.

(** *** Digits and the decimal arithmetic *)

Lemma digits_aux_length fuel : forall n acc,
  0 <= n < 2 ^ Z.of_nat fuel -> (0 < fuel)%nat ->
  exists d : nat,
    String.length (Py.digits_aux fuel n acc) = (d + String.length acc)%nat
    /\ (1 <= d)%nat
    /\ n < 10 ^ Z.of_nat d
    /\ (0 < n -> 10 ^ (Z.of_nat d - 1) <= n).
Proof.
  induction fuel as [|fuel IH]; intros n acc Hn Hfuel; [lia|].
  cbn [Py.digits_aux].
  destruct (Z.eqb_spec (n / 10) 0) as [Hq|Hq].
  - exists 1%nat. cbn [String.length].
    change (10 ^ Z.of_nat 1) with 10. change (10 ^ (Z.of_nat 1 - 1)) with 1.
    assert (n < 10).
    { destruct (Z.lt_ge_cases n 10) as [|Hge]; [assumption|].
      assert (1 <= n / 10) by (apply Z.div_le_lower_bound; lia). lia. }
    repeat split; lia.
  - assert (Hq0 : 0 < n / 10).
    { assert (0 <= n / 10) by (apply Z.div_pos; lia). lia. }
    assert (Hn10 : 10 <= n).
    { destruct (Z.lt_ge_cases n 10) as [Hlt|]; [|assumption].
      rewrite Z.div_small in Hq by lia. congruence. }
    assert (Hfuel' : (0 < fuel)%nat).
    { destruct fuel; [|lia]. cbn in Hn. lia. }
    assert (Hhalf : n / 10 < 2 ^ Z.of_nat fuel).
    { rewrite Nat2Z.inj_succ, Z.pow_succ_r in Hn by lia.
      apply Z.div_lt_upper_bound; lia. }
    destruct (IH (n / 10) (String (Py.digit_char (n mod 10)) acc)
                 ltac:(lia) Hfuel') as (d & Hlen & Hd & Hup & Hlow).
    exists (S d). rewrite Hlen. cbn [String.length].
    split; [lia|]. split; [lia|].
    pose proof (Z.div_mod n 10 ltac:(lia)) as Hdm.
    pose proof (Z.mod_pos_bound n 10 ltac:(lia)) as Hm.
    rewrite Nat2Z.inj_succ, Z.pow_succ_r by lia.
    split; [lia|]. intros _.
    replace (Z.succ (Z.of_nat d) - 1) with (Z.succ (Z.of_nat d - 1)) by lia.
    rewrite Z.pow_succ_r by lia. specialize (Hlow Hq0). lia.
Qed.

Lemma ndigits_spec n :
  0 <= n ->
  1 <= Dec.ndigits n
  /\ n < 10 ^ Dec.ndigits n
  /\ (0 < n -> 10 ^ (Dec.ndigits n - 1) <= n).
Proof.
  intros Hn. unfold Dec.ndigits, Py.str_nat.
  destruct (digits_aux_length (S (Z.to_nat (Z.log2 n))) n EmptyString)
    as (d & Hlen & Hd & Hup & Hlow); [|lia|].
  - split; [lia|]. rewrite Nat2Z.inj_succ, Z2Nat.id by apply Z.log2_nonneg.
    destruct (Z.eq_dec n 0) as [->|]; [cbn; lia|].
    apply Z.log2_spec. lia.
  - rewrite Hlen. cbn [String.length]. rewrite Nat.add_0_r.
    repeat split; try lia; assumption.
Qed.

(** A number between [10 ^ (k - 1)] and [10 ^ k] is written with [k]
    digits. *)
Lemma ndigits_unique n k :
  1 <= k -> 10 ^ (k - 1) <= n < 10 ^ k -> Dec.ndigits n = k.
Proof.
  intros Hk [Hlo Hhi].
  assert (Hn : 0 < n) by (pose proof (Z.pow_pos_nonneg 10 (k - 1)); lia).
  destruct (ndigits_spec n ltac:(lia)) as (H1 & Hup & Hlow).
  specialize (Hlow Hn).
  destruct (Z.lt_trichotomy (Dec.ndigits n) k) as [Hlt|[Heq|Hgt]]; trivial.
  - assert (10 ^ Dec.ndigits n <= 10 ^ (k - 1))
      by (apply Z.pow_le_mono_r; lia). lia.
  - assert (10 ^ k <= 10 ^ (Dec.ndigits n - 1))
      by (apply Z.pow_le_mono_r; lia). lia.
Qed.

Lemma ndigits_le n k :
  0 <= n < 10 ^ k -> 1 <= k -> Dec.ndigits n <= k.
Proof.
  intros [Hn Hlt] Hk.
  destruct (ndigits_spec n Hn) as (H1 & Hup & Hlow).
  destruct (Z.eq_dec n 0) as [->|Hne]; [cbn; lia|].
  specialize (Hlow ltac:(lia)).
  destruct (Z.le_gt_cases (Dec.ndigits n) k) as [|Hgt]; trivial.
  assert (10 ^ k <= 10 ^ (Dec.ndigits n - 1))
    by (apply Z.pow_le_mono_r; lia). lia.
Qed.

Lemma ndigits_pow10 k : 0 <= k -> Dec.ndigits (10 ^ k) = k + 1.
Proof.
  intros Hk. apply ndigits_unique; [lia|].
  replace (k + 1 - 1) with k by lia. split; [lia|].
  apply Z.pow_lt_mono_r; lia.
Qed.

(** [Decimal(10) ** decimals] over the [uint8] range: the power is exact,
    written with at most 28 digits. *)
Lemma ten_pow_uint8 (decimals : N) :
  (decimals <= 255)%N ->
  Dec.ten_pow decimals =
  Ok (Dec.mk (10 ^ Z.min (Z.of_N decimals) 27)
             (Z.of_N decimals - Z.min (Z.of_N decimals) 27)).
Proof.
  intros Hd.
  assert (Hall : forallb
            (fun d : nat =>
               match Dec.ten_pow (N.of_nat d) with
               | Ok r =>
                   (Dec.coeff r =? 10 ^ Z.min (Z.of_nat d) 27)
                   && (Dec.exp r =? Z.of_nat d - Z.min (Z.of_nat d) 27)
               | Raise _ => false
               end) (seq 0 256) = true) by (vm_compute; reflexivity).
  rewrite forallb_forall in Hall.
  specialize (Hall (N.to_nat decimals)).
  rewrite N2Nat.id, N_nat_Z in Hall.
  specialize (Hall ltac:(apply in_seq; lia)).
  destruct (Dec.ten_pow decimals) as [[c e]|]; [|discriminate].
  apply andb_prop in Hall as [Hc He]. cbn in Hc, He.
  apply Z.eqb_eq in Hc, He. now subst.
Qed.

(** [_fix] raises only far outside the numbers of the script. *)
Lemma fix_total c e :
  0 <= c < 10 ^ 200 -> e <= 1000 -> exists d, Dec.fix_ (Dec.mk c e) = Ok d.
Proof.
  intros Hc He. unfold Dec.fix_. cbn [Dec.coeff Dec.exp].
  destruct (c =? 0); [eexists; reflexivity|].
  pose proof (ndigits_le c 200 Hc ltac:(lia)) as Hnd.
  unfold Dec.Etop, Dec.Etiny, Dec.Emax, Dec.Emin, Dec.prec.
  destruct (Z.ltb_spec (999999 - 28 + 1) (Dec.ndigits c + e - 28)); [lia|].
  set (exp_min := if Dec.ndigits c + e - 28 <? -999999 - 28 + 1
                  then -999999 - 28 + 1 else Dec.ndigits c + e - 28).
  assert (Hem : exp_min <= 1172).
  { subst exp_min. destruct (Dec.ndigits c + e - 28 <? _); lia. }
  destruct (e <? exp_min); [|eexists; reflexivity].
  match goal with
  | |- context [if 0 <? ?ch then _ else _] => destruct (0 <? ch)
  end.
  - match goal with
    | |- context [if 28 <? ?x then _ else _] => destruct (28 <? x)
    end.
    + destruct (Z.ltb_spec (999999 - 28 + 1) (exp_min + 1)); [lia|].
      eexists; reflexivity.
    + destruct (Z.ltb_spec (999999 - 28 + 1) exp_min); [lia|].
      eexists; reflexivity.
  - destruct (Z.ltb_spec (999999 - 28 + 1) exp_min); [lia|].
    eexists; reflexivity.
Qed.

(** [_fix] leaves alone a number that fits the precision. *)
Lemma fix_fits c e :
  0 < c < 10 ^ 28 -> -1000 <= e <= 1000 ->
  Dec.fix_ (Dec.mk c e) = Ok (Dec.mk c e).
Proof.
  intros Hc He. unfold Dec.fix_. cbn [Dec.coeff Dec.exp].
  destruct (Z.eqb_spec c 0); [lia|].
  pose proof (ndigits_le c 28 ltac:(lia) ltac:(lia)) as Hnd.
  pose proof (ndigits_spec c ltac:(lia)) as (Hnd1 & _).
  unfold Dec.Etop, Dec.Etiny, Dec.Emax, Dec.Emin, Dec.prec.
  destruct (Z.ltb_spec (999999 - 28 + 1) (Dec.ndigits c + e - 28)); [lia|].
  destruct (Z.ltb_spec (Dec.ndigits c + e - 28) (-999999 - 28 + 1)); [lia|].
  destruct (Z.ltb_spec e (Dec.ndigits c + e - 28)); [lia|].
  reflexivity.
Qed.

Lemma strip_zeros_spec room : forall c e,
  0 < c ->
  let c' := fst (Dec.strip_zeros room c e) in
  let e' := snd (Dec.strip_zeros room c e) in
  0 < c' /\ e <= e' <= e + Z.of_nat room /\ c = c' * 10 ^ (e' - e)
  /\ (e' = e + Z.of_nat room \/ c' mod 10 <> 0).
Proof.
  induction room as [|room IH]; intros c e Hc; cbn [Dec.strip_zeros].
  - cbn. rewrite Z.sub_diag. cbn. repeat split; try lia.
  - destruct (Z.eqb_spec (c mod 10) 0) as [Hm|Hm].
    + pose proof (Z.div_mod c 10 ltac:(lia)) as Hdm.
      assert (Hq : 0 < c / 10) by lia.
      destruct (IH (c / 10) (e + 1) Hq) as (H1 & H2 & H3 & H4).
      cbv zeta. split; [exact H1|]. split; [lia|]. split.
      * replace (snd (Dec.strip_zeros room (c / 10) (e + 1)) - e)
          with (Z.succ (snd (Dec.strip_zeros room (c / 10) (e + 1)) - (e + 1)))
          by lia.
        rewrite Z.pow_succ_r by lia. lia.
      * destruct H4 as [H4|H4]; [left; lia|right; exact H4].
    + cbn. rewrite Z.sub_diag. cbn. repeat split; lia.
Qed.


Lemma strip_zeros_bounds room : forall c e,
  0 <= c ->
  0 <= fst (Dec.strip_zeros room c e) <= c
  /\ e <= snd (Dec.strip_zeros room c e) <= e + Z.of_nat room.
Proof.
  induction room as [|room IH]; intros c e Hc; cbn [Dec.strip_zeros].
  - cbn. lia.
  - destruct (c mod 10 =? 0); [|cbn; lia].
    assert (Hq : 0 <= c / 10) by (apply Z.div_pos; lia).
    assert (c / 10 <= c) by (apply Z.div_le_upper_bound; lia).
    destruct (IH (c / 10) (e + 1) Hq). lia.
Qed.

Lemma div_eucl_eq a b : Z.div_eucl a b = (a / b, a mod b).
Proof. unfold Z.div, Z.modulo. now destruct (Z.div_eucl a b). Qed.

Lemma pow2_256_lt_pow10_78 : 2 ^ 256 < 10 ^ 78.
Proof. reflexivity. Qed.

(** The quotient of a 256-bit amount by a power of ten of the [uint8]
    range never leaves the exponent range: the division returns. *)
Lemma div_total R m e2 :
  0 < R < 2 ^ 256 -> 0 <= m <= 27 -> 0 <= e2 <= 255 ->
  exists h, Dec.div (Dec.of_int R) (Dec.mk (10 ^ m) e2) = Ok h.
Proof.
  intros HR Hm He2. unfold Dec.div, Dec.of_int. cbn [Dec.coeff Dec.exp].
  assert (Hc2 : 0 < 10 ^ m) by (apply Z.pow_pos_nonneg; lia).
  destruct (Z.eqb_spec (10 ^ m) 0); [lia|].
  destruct (Z.eqb_spec R 0); [lia|].
  rewrite ndigits_pow10 by lia.
  pose proof pow2_256_lt_pow10_78 as H278.
  pose proof (ndigits_le R 78 ltac:(lia) ltac:(lia)) as HndR.
  pose proof (ndigits_spec R ltac:(lia)) as (HndR1 & _).
  unfold Dec.prec.
  set (shift := m + 1 - Dec.ndigits R + 28 + 1).
  assert (Hshift : -48 <= shift <= 57) by (subst shift; lia).
  rewrite !div_eucl_eq.
  assert (Hq : exists q r,
             (if 0 <=? shift
              then ((R * 10 ^ shift) / 10 ^ m, (R * 10 ^ shift) mod 10 ^ m)
              else (R / (10 ^ m * 10 ^ (- shift)),
                    R mod (10 ^ m * 10 ^ (- shift)))) = (q, r)
             /\ 0 <= q < 10 ^ 199).
  { assert (E1 : 10 ^ 78 * 10 ^ 57 < 10 ^ 199) by (vm_compute; reflexivity).
    assert (E2 : 10 ^ 78 < 10 ^ 199) by (vm_compute; reflexivity).
    assert (E3 : 0 < 10 ^ 199) by (vm_compute; reflexivity).
    assert (E4 : 0 < 10 ^ 78) by (vm_compute; reflexivity).
    assert (E5 : 0 < 10 ^ 57) by (vm_compute; reflexivity).
    remember (10 ^ 199) as B. remember (10 ^ 78) as B78.
    remember (10 ^ 57) as B57. remember (10 ^ m) as C.
    destruct (Z.leb_spec 0 shift).
    - eexists _, _. split; [reflexivity|].
      assert (0 < 10 ^ shift) by (apply Z.pow_pos_nonneg; lia).
      assert (10 ^ shift <= B57)
        by (subst B57; apply Z.pow_le_mono_r; lia).
      remember (10 ^ shift) as S.
      split; [apply Z.div_pos; nia|].
      apply Z.div_lt_upper_bound; [lia|].
      assert (R * S <= B78 * B57) by (apply Z.mul_le_mono_nonneg; lia).
      assert (1 * B <= C * B) by (apply Z.mul_le_mono_nonneg_r; lia).
      lia.
    - eexists _, _. split; [reflexivity|].
      assert (0 < 10 ^ (- shift)) by (apply Z.pow_pos_nonneg; lia).
      remember (10 ^ (- shift)) as S.
      assert (0 < C * S) by (apply Z.mul_pos_pos; lia).
      split; [apply Z.div_pos; lia|].
      apply Z.div_lt_upper_bound; [lia|].
      assert (1 * B <= C * S * B) by (apply Z.mul_le_mono_nonneg_r; lia).
      lia. }
  destruct Hq as (q & r & -> & Hqb).
  assert (H200 : 10 ^ 199 + 1 < 10 ^ 200) by reflexivity.
  destruct (r =? 0).
  - pose proof (strip_zeros_bounds (Z.to_nat (0 - e2 - (0 - e2 - shift)))
                  q (0 - e2 - shift) ltac:(lia)) as [Hc He].
    destruct (Dec.strip_zeros _ q (0 - e2 - shift)) as [q' e'].
    cbn [fst snd] in Hc, He. apply fix_total; lia.
  - apply fix_total; [|lia]. destruct (q mod 5 =? 0); lia.
Qed.

(** An amount of at most 28 digits divided by a power of ten of the
    [uint8] range: the quotient is exact. *)
Lemma div_exact R m e2 :
  0 < R < 10 ^ 28 -> 0 <= m <= 27 -> 0 <= e2 <= 255 ->
  exists c e,
    Dec.div (Dec.of_int R) (Dec.mk (10 ^ m) e2) = Ok (Dec.mk c e)
    /\ 0 < c /\ - (m + e2) <= e <= 0 /\ R = c * 10 ^ (e + m + e2).
Proof.
  intros HR Hm He2. unfold Dec.div, Dec.of_int. cbn [Dec.coeff Dec.exp].
  assert (Hc2 : 0 < 10 ^ m) by (apply Z.pow_pos_nonneg; lia).
  destruct (Z.eqb_spec (10 ^ m) 0); [lia|].
  destruct (Z.eqb_spec R 0); [lia|].
  rewrite ndigits_pow10 by lia.
  pose proof (ndigits_le R 28 ltac:(lia) ltac:(lia)) as HndR.
  pose proof (ndigits_spec R ltac:(lia)) as (HndR1 & _).
  unfold Dec.prec.
  set (shift := m + 1 - Dec.ndigits R + 28 + 1).
  assert (Hshift : m + 2 <= shift <= 57) by (subst shift; lia).
  destruct (Z.leb_spec 0 shift); [|lia].
  rewrite div_eucl_eq.
  set (s := shift - m).
  assert (Hsplit : R * 10 ^ shift = R * 10 ^ s * 10 ^ m).
  { rewrite <- Z.mul_assoc, <- Z.pow_add_r by (subst s; lia).
    do 2 f_equal. subst s. lia. }
  rewrite Hsplit, Z.div_mul, Z.mod_mul by lia. cbn [Z.eqb].
  assert (Hs : 0 < 10 ^ s) by (apply Z.pow_pos_nonneg; subst s; lia).
  replace (Z.to_nat (0 - e2 - (0 - e2 - shift))) with (Z.to_nat shift) by lia.
  pose proof (strip_zeros_spec (Z.to_nat shift) (R * 10 ^ s) (0 - e2 - shift)
                ltac:(nia)) as Hstrip.
  destruct (Dec.strip_zeros (Z.to_nat shift) (R * 10 ^ s) (0 - e2 - shift))
    as [c' e'].
  cbn [fst snd] in Hstrip. destruct Hstrip as (Hc' & He' & Heq & Hstop).
  rewrite Z2Nat.id in He', Hstop by lia.
  set (t := e' - (0 - e2 - shift)) in *.
  assert (Ht : s <= t).
  { destruct Hstop as [Hfull|Hmod]; [subst t s; lia|].
    destruct (Z.le_gt_cases s t) as [|Hlt]; [assumption|].
    exfalso. apply Hmod.
    assert (Hc : c' = R * 10 ^ (s - t - 1) * 10).
    { apply (Z.mul_reg_r _ _ (10 ^ t));
        [pose proof (Z.pow_pos_nonneg 10 t); subst t; lia|].
      rewrite <- Heq.
      replace s with ((s - t - 1) + 1 + t) at 1 by lia.
      rewrite !Z.pow_add_r by (subst t; lia). lia. }
    rewrite Hc. apply Z.mod_mul. lia. }
  assert (HR' : R = c' * 10 ^ (t - s)).
  { apply (Z.mul_reg_r _ _ (10 ^ s)); [lia|].
    rewrite Heq. replace t with ((t - s) + s) at 1 by lia.
    rewrite Z.pow_add_r by (subst s; lia). lia. }
  assert (Hpow : 0 < 10 ^ (t - s)) by (apply Z.pow_pos_nonneg; lia).
  assert (Hle : c' <= R) by nia.
  exists c', e'. split.
  - apply fix_fits; lia.
  - split; [exact Hc'|]. split; [subst t s; lia|].
    replace (e' + m + e2) with (t - s) by (subst t s; lia). exact HR'.
Qed.

(** *** Reading a display string back *)

Lemma substring_whole (t : string) : substring 0 (String.length t) t = t.
Proof. induction t as [|c t IH]; cbn; [reflexivity|now rewrite IH]. Qed.

Lemma digit_char_spec k :
  0 <= k <= 9 ->
  Py.is_digit (Py.digit_char k) = true
  /\ Z.of_nat (nat_of_ascii (Py.digit_char k)) - 48 = k.
Proof.
  intros Hk.
  assert (H : k = 0 \/ k = 1 \/ k = 2 \/ k = 3 \/ k = 4 \/ k = 5 \/ k = 6
              \/ k = 7 \/ k = 8 \/ k = 9) by lia.
  repeat (destruct H as [->|H]; [split; reflexivity|]).
  subst k. split; reflexivity.
Qed.

Lemma digits_aux_read fuel : forall n acc,
  0 <= n < 2 ^ Z.of_nat fuel -> (0 < fuel)%nat ->
  Dec.digits_value (Py.digits_aux fuel n acc) 0 = Dec.digits_value acc n.
Proof.
  induction fuel as [|fuel IH]; intros n acc Hn Hfuel; [lia|].
  cbn [Py.digits_aux].
  pose proof (Z.div_mod n 10 ltac:(lia)) as Hdm.
  pose proof (Z.mod_pos_bound n 10 ltac:(lia)) as Hm.
  destruct (digit_char_spec (n mod 10) ltac:(lia)) as [Hd Hv].
  destruct (Z.eqb_spec (n / 10) 0) as [Hq|Hq].
  - cbn [Dec.digits_value]. rewrite Hd, Hv. f_equal. lia.
  - assert (Hq0 : 0 < n / 10).
    { assert (0 <= n / 10) by (apply Z.div_pos; lia). lia. }
    assert (Hfuel' : (0 < fuel)%nat).
    { destruct fuel; [|lia]. cbn in Hn. lia. }
    assert (Hhalf : n / 10 < 2 ^ Z.of_nat fuel).
    { rewrite Nat2Z.inj_succ, Z.pow_succ_r in Hn by lia.
      apply Z.div_lt_upper_bound; lia. }
    rewrite IH by lia. cbn [Dec.digits_value]. rewrite Hd, Hv. f_equal. lia.
Qed.

Lemma digits_aux_digits fuel : forall n acc,
  0 <= n ->
  Py.string_forallb Py.is_digit (Py.digits_aux fuel n acc) =
  Py.string_forallb Py.is_digit acc.
Proof.
  induction fuel as [|fuel IH]; intros n acc Hn; [reflexivity|].
  cbn [Py.digits_aux].
  pose proof (Z.mod_pos_bound n 10 ltac:(lia)) as Hm.
  destruct (digit_char_spec (n mod 10) ltac:(lia)) as [Hd _].
  destruct (n / 10 =? 0).
  - cbn [Py.string_forallb]. now rewrite Hd.
  - rewrite IH by (apply Z.div_pos; lia).
    cbn [Py.string_forallb]. now rewrite Hd.
Qed.

Lemma str_nat_read n :
  0 <= n -> Dec.digits_value (Py.str_nat n) 0 = Some n.
Proof.
  intros Hn. unfold Py.str_nat. rewrite digits_aux_read; [reflexivity| |lia].
  split; [lia|]. rewrite Nat2Z.inj_succ, Z2Nat.id by apply Z.log2_nonneg.
  destruct (Z.eq_dec n 0) as [->|]; [cbn; lia|].
  apply Z.log2_spec. lia.
Qed.

Lemma str_nat_digits n :
  0 <= n -> Py.string_forallb Py.is_digit (Py.str_nat n) = true.
Proof. intros Hn. unfold Py.str_nat. now rewrite digits_aux_digits. Qed.

Lemma append_assoc_s (a b c : string) :
  ((a ++ b) ++ c)%string = (a ++ (b ++ c))%string.
Proof. induction a as [|x a IH]; cbn; [reflexivity|now rewrite IH]. Qed.

Lemma append_nil_r (a : string) : (a ++ EmptyString)%string = a.
Proof. induction a as [|x a IH]; cbn; [reflexivity|now rewrite IH]. Qed.

Lemma append_length (a b : string) :
  String.length (a ++ b) = (String.length a + String.length b)%nat.
Proof. induction a as [|x a IH]; cbn; [reflexivity|now rewrite IH]. Qed.

Lemma forallb_append f (a b : string) :
  Py.string_forallb f (a ++ b) =
  Py.string_forallb f a && Py.string_forallb f b.
Proof.
  induction a as [|x a IH]; cbn; [reflexivity|].
  now rewrite IH, andb_assoc.
Qed.

Lemma digits_value_append (a b : string) : forall acc,
  Dec.digits_value (a ++ b) acc =
  match Dec.digits_value a acc with
  | Some acc' => Dec.digits_value b acc'
  | None => None
  end.
Proof.
  induction a as [|x a IH]; intros acc; cbn; [reflexivity|].
  destruct (Py.is_digit x); [apply IH|reflexivity].
Qed.

Lemma repeat_zero_read k : Dec.digits_value (Py.repeat_char "0" k) 0 = Some 0.
Proof. induction k as [|k IH]; cbn; [reflexivity|exact IH]. Qed.

Lemma repeat_zero_digits k :
  Py.string_forallb Py.is_digit (Py.repeat_char "0" k) = true.
Proof. induction k as [|k IH]; cbn; [reflexivity|exact IH]. Qed.

Lemma repeat_char_length c k : String.length (Py.repeat_char c k) = k.
Proof. induction k as [|k IH]; cbn; [reflexivity|now rewrite IH]. Qed.

Lemma split_at_absent c s :
  Py.string_forallb (fun a => negb (Ascii.eqb a c)) s = true ->
  Dec.split_at c s = (s, None).
Proof.
  induction s as [|a s IH]; cbn; [reflexivity|].
  intros H. apply andb_prop in H as [Ha Hs].
  destruct (Ascii.eqb a c); [discriminate|]. now rewrite IH.
Qed.

Lemma split_at_first c pre post :
  Py.string_forallb (fun a => negb (Ascii.eqb a c)) pre = true ->
  Dec.split_at c (pre ++ String c post) = (pre, Some post).
Proof.
  induction pre as [|a pre IH]; cbn.
  - intros _. now rewrite Ascii.eqb_refl.
  - intros H. apply andb_prop in H as [Ha Hs].
    destruct (Ascii.eqb a c); [discriminate|]. now rewrite IH.
Qed.

Lemma digits_avoid (sep : ascii) s :
  Py.is_digit sep = false ->
  Py.string_forallb Py.is_digit s = true ->
  Py.string_forallb (fun a => negb (Ascii.eqb a sep)) s = true.
Proof.
  intros Hsep. induction s as [|a s IH]; cbn; [reflexivity|].
  intros H. apply andb_prop in H as [Ha Hs]. rewrite (IH Hs), andb_true_r.
  destruct (Ascii.eqb_spec a sep) as [->|]; [congruence|reflexivity].
Qed.

Lemma substring_digits f s : forall i k,
  Py.string_forallb f s = true ->
  Py.string_forallb f (substring i k s) = true.
Proof.
  induction s as [|a s IH]; intros [|i] [|k] H; cbn; trivial;
    cbn in H; apply andb_prop in H as [Ha Hs].
  - now rewrite Ha, (IH 0%nat k Hs).
  - now apply IH.
  - now apply IH.
Qed.

Lemma substring_split s : forall k,
  (k <= String.length s)%nat ->
  (substring 0 k s ++ substring k (String.length s - k) s)%string = s.
Proof.
  induction s as [|a s IH]; intros [|k] Hk; cbn in *; trivial; try lia.
  - now rewrite substring_whole.
  - now rewrite IH by lia.
Qed.

Lemma substring_tail_length s : forall k,
  (k <= String.length s)%nat ->
  String.length (substring k (String.length s - k) s) = (String.length s - k)%nat.
Proof.
  induction s as [|a s IH]; intros [|k] Hk; cbn in *; trivial; try lia.
  - now rewrite substring_whole.
  - now apply IH; lia.
Qed.

Lemma read_format_signed z :
  Dec.read_signed (Dec.format_signed z) = Some z.
Proof.
  unfold Dec.format_signed, Py.str_int.
  destruct (Z.ltb_spec z 0).
  - change (("-" ++ Py.str_nat (- z))%string)
      with (String "-" (Py.str_nat (- z))).
    unfold Dec.read_signed.
    change (Ascii.eqb "-" "+") with false.
    change (Ascii.eqb "-" "-") with true. cbv iota.
    rewrite str_nat_read by lia. cbn [option_map]. f_equal. lia.
  - change (("+" ++ Py.str_nat z)%string) with (String "+" (Py.str_nat z)).
    unfold Dec.read_signed. change (Ascii.eqb "+" "+") with true. cbv iota.
    now apply str_nat_read.
Qed.

(** A numeral put together from its parts reads as those parts say. *)
Lemma of_string_parts (ip : string) (fo : option string) (xo : option Z)
      (c ex : Z) (s : string) :
  let frac := match fo with Some f => f | None => EmptyString end in
  Py.string_forallb Py.is_digit ip = true ->
  Py.string_forallb Py.is_digit frac = true ->
  Dec.digits_value (ip ++ frac) 0 = Some c ->
  ex = match xo with Some x => x | None => 0 end - Z.of_nat (String.length frac) ->
  s = (ip ++ match fo with Some f => String "." f | None => EmptyString end
          ++ match xo with
             | Some x => String "E" (Dec.format_signed x)
             | None => EmptyString
             end)%string ->
  Dec.of_string s = Some (Dec.mk c ex).
Proof.
  intros frac Hip Hfrac Hval -> ->.
  set (mant := (ip ++ match fo with Some f => String "." f | None => EmptyString end)%string).
  assert (HnoE : Py.string_forallb (fun a => negb (Ascii.eqb a "E")) mant = true).
  { subst mant. rewrite forallb_append.
    rewrite (digits_avoid "E" ip eq_refl Hip). cbn [andb].
    destruct fo as [f|]; [|reflexivity]. cbn [Py.string_forallb].
    change (negb (Ascii.eqb "." "E")) with true. cbn [andb].
    now apply digits_avoid. }
  assert (Hpoint : Dec.split_at "." mant = (ip, fo)).
  { subst mant. destruct fo as [f|].
    - apply split_at_first. now apply digits_avoid.
    - rewrite append_nil_r. apply split_at_absent. now apply digits_avoid. }
  unfold Dec.of_string. rewrite <- append_assoc_s. fold mant.
  destruct xo as [x|].
  - rewrite (split_at_first "E" mant _ HnoE), Hpoint.
    fold frac. now rewrite Hval, read_format_signed.
  - rewrite append_nil_r, (split_at_absent "E" mant HnoE), Hpoint.
    fold frac. now rewrite Hval.
Qed.

(** The display string of a decimal reads back as that decimal. *)
Lemma of_string_str (d : Dec.t) :
  0 <= Dec.coeff d -> Dec.of_string (Dec.str d) = Some d.
Proof.
  destruct d as [c e]. cbn [Dec.coeff]. intros Hc.
  pose proof (str_nat_digits c Hc) as Hdig.
  pose proof (str_nat_read c Hc) as Hread.
  pose proof (ndigits_spec c Hc) as (Hlen & _). unfold Dec.ndigits in Hlen.
  unfold Dec.str. cbn [Dec.coeff Dec.exp].
  set (int_ := Py.str_nat c) in *.
  set (L := String.length int_) in *.
  destruct ((e <=? 0) && (-6 <? e + Z.of_nat L)) eqn:Eplain.
  - apply andb_prop in Eplain as [He _]. apply Z.leb_le in He.
    rewrite Z.eqb_refl.
    destruct (Z.leb_spec (e + Z.of_nat L) 0) as [Hdp|Hdp].
    + apply (of_string_parts "0"
               (Some (Py.repeat_char "0" (Z.to_nat (- (e + Z.of_nat L))) ++ int_)%string)
               None c); cbv zeta.
      * reflexivity.
      * now rewrite forallb_append, repeat_zero_digits, Hdig.
      * change ("0" ++ ?x)%string with (String "0" x).
        change (Dec.digits_value
                  (String "0" (Py.repeat_char "0" (Z.to_nat (- (e + Z.of_nat L))) ++ int_)) 0)
          with (Dec.digits_value
                  (Py.repeat_char "0" (Z.to_nat (- (e + Z.of_nat L))) ++ int_) 0).
        now rewrite digits_value_append, repeat_zero_read.
      * rewrite append_length, repeat_char_length. fold L. lia.
      * reflexivity.
    + destruct (Z.leb_spec (Z.of_nat L) (e + Z.of_nat L)) as [Hfull|Hpart].
      * assert (e = 0) by lia. subst e.
        replace (Z.to_nat (0 + Z.of_nat L - Z.of_nat L)) with 0%nat by lia.
        apply (of_string_parts int_ None None c); cbv zeta; trivial.
        -- now rewrite append_nil_r.
        -- cbn. now rewrite !append_nil_r.
      * assert (Hk : (Z.to_nat (e + Z.of_nat L) <= L)%nat) by lia.
        replace (Z.to_nat (Z.of_nat L - (e + Z.of_nat L)))
          with (L - Z.to_nat (e + Z.of_nat L))%nat by lia.
        apply (of_string_parts
                 (substring 0 (Z.to_nat (e + Z.of_nat L)) int_)
                 (Some (substring (Z.to_nat (e + Z.of_nat L))
                                  (L - Z.to_nat (e + Z.of_nat L)) int_))
                 None c); cbv zeta.
        -- now apply substring_digits.
        -- now apply substring_digits.
        -- unfold L. now rewrite substring_split.
        -- unfold L. rewrite substring_tail_length by exact Hk. fold L. lia.
        -- reflexivity.
  - assert (Hsci : 0 < e \/ e + Z.of_nat L <= -6).
    { apply andb_false_iff in Eplain as [H|H];
        [left; apply Z.leb_gt in H|right; apply Z.ltb_ge in H]; lia. }
    cbn [Z.leb Z.compare].
    destruct (Z.eqb_spec (e + Z.of_nat L) 1) as [Habs|_]; [lia|].
    destruct (Z.leb_spec (Z.of_nat L) 1) as [Hone|Hmany].
    + replace (Z.to_nat (1 - Z.of_nat L)) with 0%nat by lia.
      apply (of_string_parts int_ None (Some (e + Z.of_nat L - 1)) c);
        cbv zeta; trivial.
      * now rewrite append_nil_r.
      * cbn [String.length]. lia.
      * cbn [Py.repeat_char]. rewrite append_nil_r. reflexivity.
    + change (Z.to_nat 1) with 1%nat.
      replace (Z.to_nat (Z.of_nat L - 1)) with (L - 1)%nat by lia.
      apply (of_string_parts (substring 0 1 int_)
                             (Some (substring 1 (L - 1) int_))
                             (Some (e + Z.of_nat L - 1)) c); cbv zeta.
      * now apply substring_digits.
      * now apply substring_digits.
      * unfold L. rewrite substring_split by (fold L; lia). exact Hread.
      * unfold L. rewrite substring_tail_length by (fold L; lia). fold L. lia.
      * reflexivity.
Qed.

(** *** Decoding a sub-call result *)

Lemma int_from_bytes_acc (bs : Py.bytes) : forall acc,
  fold_left (fun a b => a * 256 + Z.of_N (Byte.to_N b)) bs acc =
  acc * 256 ^ Z.of_nat (length bs) + Py.int_from_bytes_big bs.
Proof.
  unfold Py.int_from_bytes_big.
  induction bs as [|b bs IH]; intros acc.
  - cbn. lia.
  - cbn [fold_left length]. rewrite IH, (IH (0 * 256 + _)).
    rewrite Nat2Z.inj_succ, Z.pow_succ_r by lia. lia.
Qed.

Lemma int_from_bytes_range (bs : Py.bytes) :
  0 <= Py.int_from_bytes_big bs < 256 ^ Z.of_nat (length bs).
Proof.
  induction bs as [|b bs IH].
  - cbn. lia.
  - unfold Py.int_from_bytes_big in *. cbn [fold_left length].
    rewrite int_from_bytes_acc. fold (Py.int_from_bytes_big bs).
    unfold Py.int_from_bytes_big.
    rewrite Nat2Z.inj_succ, Z.pow_succ_r by lia.
    pose proof (Byte.to_N_bounded b) as Hb.
    assert (0 <= Z.of_N (Byte.to_N b) <= 255) by lia.
    assert (0 < 256 ^ Z.of_nat (length bs)) by (apply Z.pow_pos_nonneg; lia).
    nia.
Qed.

(** [ret[-32:]] is what is left of [ret] once all but its last 32 bytes
    are dropped: the whole of a shorter payload. *)
Lemma slice_last_32 (ret : Py.bytes) :
  Py.slice ret (Some (-32)) None = skipn (length ret - 32) ret.
Proof.
  unfold Py.slice, Py.adjust_index. cbn [Z.ltb Z.compare].
  set (len := Z.of_nat (length ret)).
  replace (Z.to_nat (Z.max (-32 + len) 0)) with (length ret - 32)%nat by lia.
  apply firstn_all2. rewrite length_skipn. lia.
Qed.

Lemma raw_below_2_256 (ret : Py.bytes) :
  0 <= Py.int_from_bytes_big (Py.slice ret (Some (-32)) None) < 2 ^ 256.
Proof.
  rewrite slice_last_32.
  pose proof (int_from_bytes_range (skipn (length ret - 32) ret)) as H.
  rewrite length_skipn in H.
  assert (256 ^ Z.of_nat (length ret - (length ret - 32)) <= 256 ^ 32)
    by (apply Z.pow_le_mono_r; lia).
  change (2 ^ 256) with (256 ^ 32). lia.
Qed.

Lemma human_decimal_total raw decimals :
  0 < raw < 2 ^ 256 -> (decimals <= 255)%N ->
  exists h, human_decimal raw decimals = Ok h.
Proof.
  intros Hraw Hd. unfold human_decimal. rewrite ten_pow_uint8 by exact Hd.
  assert (HD : 0 <= Z.of_N decimals <= 255) by lia.
  apply div_total; [exact Hraw|clear Hraw; lia|clear Hraw; lia].
Qed.

Lemma value_of_exact c e R D :
  0 <= D -> - D <= e <= 0 -> R = c * 10 ^ (e + D) ->
  (Dec.value (Dec.mk c e) == inject_Z R / inject_Z (10 ^ D))%Q.
Proof.
  intros HD He ->. unfold Dec.value. cbn [Dec.coeff Dec.exp].
  replace e with (- (- e)) at 1 by lia.
  rewrite Qpower_opp.
  change (10%Q) with (inject_Z 10).
  rewrite <- Zpower_Qpower by lia.
  replace (10 ^ D) with (10 ^ (e + D) * 10 ^ (- e))
    by (rewrite <- Z.pow_add_r by lia; f_equal; lia).
  rewrite !inject_Z_mult.
  assert (H1 : ~ (inject_Z (10 ^ (- e)) == 0)%Q).
  { intros H. unfold Qeq, inject_Z, Qnum, Qden in H.
    assert (0 < 10 ^ (- e)) by (apply Z.pow_pos_nonneg; lia). lia. }
  assert (H2 : ~ (inject_Z (10 ^ (e + D)) == 0)%Q).
  { intros H. unfold Qeq, inject_Z, Qnum, Qden in H.
    assert (0 < 10 ^ (e + D)) by (apply Z.pow_pos_nonneg; lia). lia. }
  field. split; assumption.
Qed.

Lemma human_decimal_exact raw decimals :
  0 < raw < 10 ^ 28 -> (decimals <= 255)%N ->
  exists h,
    human_decimal raw decimals = Ok h
    /\ 0 < Dec.coeff h
    /\ (Dec.value h == inject_Z raw / inject_Z (10 ^ Z.of_N decimals))%Q.
Proof.
  intros Hraw Hd. unfold human_decimal. rewrite ten_pow_uint8 by exact Hd.
  set (D := Z.of_N decimals). set (m := Z.min D 27).
  assert (HD : 0 <= D <= 255) by (subst D; lia).
  assert (Hm : 0 <= m <= 27 /\ 0 <= D - m <= 255) by (clear Hraw; subst m; lia).
  destruct (div_exact raw m (D - m) Hraw (proj1 Hm) (proj2 Hm))
    as (c & e & Hdiv & Hc & He & HR).
  exists (Dec.mk c e). split; [exact Hdiv|]. split; [exact Hc|].
  apply value_of_exact; [lia|lia|].
  rewrite HR at 1. do 2 f_equal. lia.
Qed.

Lemma human_amount_total raw decimals :
  0 < raw < 2 ^ 256 -> (decimals <= 255)%N ->
  exists human, human_amount raw decimals = Ok human.
Proof.
  intros Hraw Hd. unfold human_amount.
  destruct (human_decimal_total raw decimals Hraw Hd) as [h ->].
  eexists; reflexivity.
Qed.

(** Below the precision the display string, read as a numeral, is the
    raw amount scaled by the power of ten. *)
Lemma human_amount_exact raw decimals :
  0 < raw < 10 ^ 28 -> (decimals <= 255)%N ->
  exists human h,
    human_amount raw decimals = Ok human
    /\ Dec.of_string human = Some h
    /\ (Dec.value h == inject_Z raw / inject_Z (10 ^ Z.of_N decimals))%Q.
Proof.
  intros Hraw Hd.
  destruct (human_decimal_exact raw decimals Hraw Hd) as (h & Hhd & Hc & Hv).
  exists (Dec.str h), h. unfold human_amount. rewrite Hhd.
  split; [reflexivity|]. split; [apply of_string_str; lia|exact Hv].
Qed.

(** What the loop body does with one pair, by cases. *)
Lemma decode_pair_cases decimals symbol addr success (ret : Py.bytes) :
  (decimals <= 255)%N ->
  let raw := Py.int_from_bytes_big (skipn (length ret - 32) ret) in
  (success = true /\ ret <> [] /\ 0 < raw /\
   exists human,
     human_amount raw decimals = Ok human
     /\ decode_pair decimals symbol addr (success, ret) =
        Ok (Some (mk_balance addr raw human symbol)))
  \/ (~ (success = true /\ ret <> [] /\ 0 < raw)
      /\ decode_pair decimals symbol addr (success, ret) = Ok None).
Proof.
  intros Hd raw. unfold decode_pair.
  pose proof (raw_below_2_256 ret) as Hrange.
  rewrite slice_last_32 in *. fold raw in Hrange |- *.
  destruct success; cbn [negb orb].
  - destruct ret as [|b ret'] eqn:Eret.
    + right. split; [|reflexivity]. intros (_ & H & _). now apply H.
    + rewrite <- Eret in *.
      assert (Hne : ret <> []) by (rewrite Eret; discriminate).
      replace (match ret with [] => true | _ :: _ => false end) with false
        by (rewrite Eret; reflexivity).
      destruct (Z.ltb_spec 0 raw) as [Hpos|Hnpos].
      * left. repeat split; trivial.
        destruct (human_amount_total raw decimals ltac:(lia) Hd) as [human Hh].
        exists human. rewrite Hh. split; reflexivity.
      * right. split; [|reflexivity]. intros (_ & _ & H). lia.
  - right. split; [|reflexivity]. intros (H & _). discriminate.
Qed.

Lemma decode_loop_returns decimals symbol :
  (decimals <= 255)%N ->
  forall pairs nonzero,
  exists out, decode_loop decimals symbol pairs nonzero = Ok out.
Proof.
  intros Hd. induction pairs as [|[addr [success ret]] pairs IH]; intros nonzero.
  - eexists; reflexivity.
  - cbn [decode_loop].
    destruct (decode_pair_cases decimals symbol addr success ret Hd)
      as [(_ & _ & _ & human & _ & ->)|(_ & ->)]; apply IH.
Qed.

Lemma zip_length (X Y : Type) (xs : list X) : forall ys : list Y,
  length (Py.zip xs ys) = Nat.min (length xs) (length ys).
Proof.
  induction xs as [|x xs IH]; intros [|y ys]; cbn; trivial.
  now rewrite IH.
Qed.

Lemma zip_nth_error (X Y : Type) (xs : list X) : forall (ys : list Y) k x y,
  nth_error (Py.zip xs ys) k = Some (x, y) <->
  nth_error xs k = Some x /\ nth_error ys k = Some y.
Proof.
  induction xs as [|x0 xs IH]; intros [|y0 ys] [|k] x y; cbn;
    try (split; [discriminate|intros [? ?]; discriminate]).
  - split; [intros [= -> ->]; now split|intros [[= ->] [= ->]]; reflexivity].
  - apply IH.
Qed.

Lemma zip_truncates (X Y : Type) (xs : list X) : forall ys : list Y,
  let n := Nat.min (length xs) (length ys) in
  Py.zip xs ys = Py.zip (firstn n xs) (firstn n ys).
Proof.
  induction xs as [|x xs IH]; intros [|y ys]; cbn; trivial.
  f_equal. apply IH.
Qed.

(** *** Addresses *)

Lemma hex_digit_lower c :
  is_hex_digit c = true -> is_lower_hex_digit (Py.lower_char c) = true.
Proof.
  destruct c as [[|] [|] [|] [|] [|] [|] [|] [|]]; vm_compute;
    intros H; (reflexivity || discriminate H).
Qed.

Lemma lower_hex_digit_fixed c :
  is_lower_hex_digit c = true ->
  Py.lower_char c = c /\ Py.lower_char (Py.upper_char c) = c
  /\ is_hex_digit c = true /\ is_hex_digit (Py.upper_char c) = true.
Proof.
  destruct c as [[|] [|] [|] [|] [|] [|] [|] [|]]; vm_compute;
    intros H; (discriminate H || (repeat split; reflexivity)).
Qed.

Lemma lower_char_idempotent c :
  Py.lower_char (Py.lower_char c) = Py.lower_char c.
Proof.
  destruct c as [[|] [|] [|] [|] [|] [|] [|] [|]]; reflexivity.
Qed.

Lemma startswith_2 (s : string) (a b : ascii) :
  Py.startswith s (String a (String b EmptyString)) = true <->
  exists t, s = String a (String b t).
Proof.
  unfold Py.startswith. destruct s as [|a' [|b' t]]; cbn.
  - split; [discriminate|intros [t H]; discriminate H].
  - destruct (ascii_dec a a');
      (split; [discriminate|intros [t H]; discriminate H]).
  - destruct (ascii_dec a a') as [<-|Ha]; [destruct (ascii_dec b b') as [<-|Hb]|].
    + split; [intros _; now exists t|intros _; now destruct t].
    + split; [discriminate|intros [t' H]; congruence].
    + split; [discriminate|intros [t' H]; congruence].
Qed.

Lemma prefixed_cases s :
  is_0x_prefixed s = true <->
  exists p t, (p = "x"%char \/ p = "X"%char) /\ s = String "0" (String p t).
Proof.
  unfold is_0x_prefixed. rewrite orb_true_iff.
  change "0x" with (String "0" (String "x" EmptyString)).
  change "0X" with (String "0" (String "X" EmptyString)).
  rewrite !startswith_2. split.
  - intros [[t ->]|[t ->]]; eexists _, t; (split; [|reflexivity]); tauto.
  - intros (p & t & [->| ->] & ->); [left|right]; now exists t.
Qed.

Lemma substring_after_prefix (a b : ascii) (t : string) :
  substring 2 (String.length (String a (String b t)) - 2)
            (String a (String b t)) = t.
Proof. cbn. rewrite Nat.sub_0_r. apply substring_whole. Qed.

Lemma remove_0x_prefix_prefixed (p : ascii) (t : string) :
  p = "x"%char \/ p = "X"%char ->
  remove_0x_prefix (String "0" (String p t)) = t.
Proof.
  intros Hp. unfold remove_0x_prefix.
  replace (is_0x_prefixed (String "0" (String p t))) with true
    by (symmetry; apply prefixed_cases; now exists p, t).
  apply substring_after_prefix.
Qed.

Lemma hex_not_prefixed s :
  Py.string_forallb is_hex_digit s = true -> is_0x_prefixed s = false.
Proof.
  intros Hhex. destruct (is_0x_prefixed s) eqn:E; [|reflexivity].
  apply prefixed_cases in E as (p & t & Hp & ->).
  cbn in Hhex. destruct Hp as [-> | ->]; discriminate Hhex.
Qed.

Lemma lower_length s : String.length (Py.lower s) = String.length s.
Proof.
  unfold Py.lower. induction s as [|c s IH]; cbn; [reflexivity|now rewrite IH].
Qed.

Lemma lower_of_hex s :
  Py.string_forallb is_hex_digit s = true ->
  Py.string_forallb is_lower_hex_digit (Py.lower s) = true.
Proof.
  unfold Py.lower. induction s as [|c s IH]; cbn; [reflexivity|].
  intros H. apply andb_prop in H as [Hc Hs].
  now rewrite (hex_digit_lower c Hc), (IH Hs).
Qed.

Lemma lower_of_lower_hex s :
  Py.string_forallb is_lower_hex_digit s = true -> Py.lower s = s.
Proof.
  unfold Py.lower. induction s as [|c s IH]; cbn; [reflexivity|].
  intros H. apply andb_prop in H as [Hc Hs].
  destruct (lower_hex_digit_fixed c Hc) as (-> & _).
  now rewrite (IH Hs).
Qed.

Lemma lower_hex_is_hex s :
  Py.string_forallb is_lower_hex_digit s = true ->
  Py.string_forallb is_hex_digit s = true.
Proof.
  induction s as [|c s IH]; cbn; [reflexivity|].
  intros H. apply andb_prop in H as [Hc Hs].
  destruct (lower_hex_digit_fixed c Hc) as (_ & _ & -> & _). now rewrite IH.
Qed.

Lemma lower_idempotent s : Py.lower (Py.lower s) = Py.lower s.
Proof.
  unfold Py.lower. induction s as [|c s IH]; cbn; [reflexivity|].
  now rewrite lower_char_idempotent, IH.
Qed.

Lemma hex_address_cases s :
  is_hex_address s = true ->
  (hex40 s = true /\ remove_0x_prefix s = s)
  \/ (exists p t, (p = "x"%char \/ p = "X"%char)
                  /\ s = String "0" (String p t) /\ hex40 t = true).
Proof.
  unfold is_hex_address. intros H. apply orb_prop in H as [H|H].
  - left. split; [exact H|]. unfold remove_0x_prefix.
    unfold hex40 in H. apply andb_prop in H as [_ H].
    now rewrite (hex_not_prefixed s H).
  - right. apply andb_prop in H as [Hp Hh].
    apply prefixed_cases in Hp as (p & t & Hp & ->).
    rewrite substring_after_prefix in Hh. now exists p, t.
Qed.

(** The body of a hexadecimal address, its 40 digits in lower case. *)
Lemma hex_address_body s :
  is_hex_address s = true ->
  String.length (Py.lower (remove_0x_prefix s)) = 40%nat
  /\ Py.string_forallb is_lower_hex_digit (Py.lower (remove_0x_prefix s)) = true.
Proof.
  intros H.
  assert (Hb : hex40 (remove_0x_prefix s) = true).
  { destruct (hex_address_cases s H) as [[Hh ->]|(p & t & Hp & -> & Hh)];
      [exact Hh|]. now rewrite remove_0x_prefix_prefixed. }
  unfold hex40 in Hb. apply andb_prop in Hb as [Hlen Hhex].
  apply Nat.eqb_eq in Hlen. rewrite lower_length.
  split; [exact Hlen|now apply lower_of_hex].
Qed.

Lemma is_hex_address_0x body :
  String.length body = 40%nat ->
  Py.string_forallb is_hex_digit body = true ->
  is_hex_address (String "0" (String "x" body)) = true.
Proof.
  intros Hlen Hhex. unfold is_hex_address. apply orb_true_iff. right.
  apply andb_true_iff. split.
  - apply prefixed_cases. exists "x"%char, body. tauto.
  - rewrite substring_after_prefix. unfold hex40.
    now rewrite Hlen, Hhex.
Qed.

Lemma add_0x_prefix_hex body :
  Py.string_forallb is_hex_digit body = true ->
  add_0x_prefix body = String "0" (String "x" body).
Proof.
  intros H. unfold add_0x_prefix. now rewrite (hex_not_prefixed body H).
Qed.

Lemma to_normalized_address_hex s :
  is_hex_address s = true ->
  to_normalized_address s =
  Ok (String "0" (String "x" (Py.lower (remove_0x_prefix s)))).
Proof.
  intros H. destruct (hex_address_body s H) as [Hlen Hlow].
  assert (E : Py.lower (add_0x_prefix (Py.lower s)) =
              String "0" (String "x" (Py.lower (remove_0x_prefix s)))).
  { destruct (hex_address_cases s H) as [[Hh Hr]|(p & t & Hp & -> & Hh)].
    - rewrite Hr in *. rewrite add_0x_prefix_hex by now apply lower_hex_is_hex.
      change (Py.lower (String "0" (String "x" (Py.lower s))))
        with (String "0" (String "x" (Py.lower (Py.lower s)))).
      now rewrite lower_idempotent.
    - rewrite remove_0x_prefix_prefixed by exact Hp.
      assert (El : Py.lower (String "0" (String p t)) =
                   String "0" (String "x" (Py.lower t)))
        by (destruct Hp as [-> | ->]; reflexivity).
      rewrite El. unfold add_0x_prefix.
      replace (is_0x_prefixed (String "0" (String "x" (Py.lower t)))) with true
        by (symmetry; apply prefixed_cases; exists "x"%char, (Py.lower t); tauto).
      change (Py.lower (String "0" (String "x" (Py.lower t))))
        with (String "0" (String "x" (Py.lower (Py.lower t)))).
      now rewrite lower_idempotent. }
  unfold to_normalized_address. rewrite E.
  rewrite is_hex_address_0x; [reflexivity|exact Hlen|].
  now apply lower_hex_is_hex.
Qed.

Section AddressFacts.
Variable kd : string -> nat -> Z.

Lemma checksum_case_spec text s : forall i,
  Py.string_forallb is_lower_hex_digit s = true ->
  String.length (checksum_case kd text i s) = String.length s
  /\ Py.string_forallb is_hex_digit (checksum_case kd text i s) = true
  /\ Py.lower (checksum_case kd text i s) = s.
Proof.
  unfold Py.lower.
  induction s as [|c s IH]; intros i H; cbn; [repeat split|].
  cbn in H. apply andb_prop in H as [Hc Hs].
  destruct (IH (S i) Hs) as (-> & -> & ->).
  destruct (lower_hex_digit_fixed c Hc) as (Hl & Hlu & Hh & Hhu).
  destruct (7 <? kd text i); rewrite ?Hl, ?Hlu, ?Hh, ?Hhu; repeat split.
Qed.

(** The checksum form of a hexadecimal address. *)
Lemma to_checksum_address_hex s :
  is_hex_address s = true ->
  let body := Py.lower (remove_0x_prefix s) in
  to_checksum_address kd s =
  Ok (String "0" (String "x" (checksum_case kd body 0 body))).
Proof.
  intros H body. unfold to_checksum_address.
  rewrite to_normalized_address_hex by exact H.
  rewrite remove_0x_prefix_prefixed by tauto. fold body.
  destruct (hex_address_body s H) as [Hlen Hlow]. fold body in Hlen, Hlow.
  destruct (checksum_case_spec body body 0 Hlow) as (_ & Hhex & _).
  now rewrite add_0x_prefix_hex.
Qed.

(** Normalizing a checksum form gives it back, and [is_address] accepts
    it. *)
Lemma checksum_form_fixed s c :
  is_hex_address s = true -> to_checksum_address kd s = Ok c ->
  is_hex_address c = true
  /\ to_checksum_address kd c = Ok c
  /\ is_address c = true.
Proof.
  intros H Hc. rewrite (to_checksum_address_hex s H) in Hc.
  injection Hc as <-.
  destruct (hex_address_body s H) as [Hlen Hlow].
  set (body := Py.lower (remove_0x_prefix s)) in *.
  destruct (checksum_case_spec body body 0 Hlow) as (Hclen & Hchex & Hclow).
  assert (Hhex : is_hex_address
                   (String "0" (String "x" (checksum_case kd body 0 body))) = true)
    by (apply is_hex_address_0x; [congruence|exact Hchex]).
  assert (Hfix : to_checksum_address kd
                   (String "0" (String "x" (checksum_case kd body 0 body))) =
                 Ok (String "0" (String "x" (checksum_case kd body 0 body)))).
  { rewrite (to_checksum_address_hex _ Hhex).
    rewrite remove_0x_prefix_prefixed by tauto. now rewrite Hclow. }
  split; [exact Hhex|]. split; [exact Hfix|]. exact Hhex.
Qed.

(** A string that is its own checksum form is what the encoder takes. *)
Lemma fixed_is_checksum_address c :
  is_hex_address c = true -> to_checksum_address kd c = Ok c ->
  is_checksum_address kd c = true.
Proof.
  intros Hhex Hfix. unfold is_checksum_address.
  now rewrite Hhex, Hfix, String.eqb_refl.
Qed.

(** C7. The checksum form of a valid address is its own checksum form:
    normalizing twice gives what normalizing once gives, and the result
    is a valid address.  Valid is every string of 40 hexadecimal digits,
    with or without [0x] in front, whatever the case of its letters: in
    lower case, in upper case, in the case of the checksum or in any
    other mix. *)
Theorem checksum_normalization_idempotent (value : string)
  (Hvalid : is_address value = true) :
  exists c,
    to_checksum_address kd value = Ok c
    /\ to_checksum_address kd c = Ok c
    /\ is_address c = true
    /\ (forall v, to_checksum_address kd value = Ok v ->
        forall v', to_checksum_address kd v = Ok v' -> v' = v).
Proof.
  pose proof Hvalid as Hhex. unfold is_address in Hhex.
  pose proof (to_checksum_address_hex value Hhex) as Hc. cbv zeta in Hc.
  eexists. split; [exact Hc|].
  destruct (checksum_form_fixed value _ Hhex Hc) as (_ & Hfix & Haddr).
  split; [exact Hfix|]. split; [exact Haddr|].
  intros v Hv v' Hv'. congruence.
Qed.

End AddressFacts.

(** The theorem at an address whose mixed case is not the checksum's,
    under the sample digest. *)
Lemma checksum_normalization_idempotent_witness :
  is_address Sample.address_m = true /\
  exists c,
    to_checksum_address Sample.digest Sample.address_m = Ok c
    /\ to_checksum_address Sample.digest c = Ok c.
Proof.
  split; [reflexivity|].
  destruct (checksum_normalization_idempotent Sample.digest
              Sample.address_m eq_refl) as (c & H1 & H2 & _).
  exists c. split; assumption.
Defined.

Section ValidationFacts.
Variable kd : string -> nat -> Z.
Variable cd : string -> string.

Lemma checksum_loop_spec addrs : forall ok bad,
  exists cs,
    checksum_loop kd addrs ok bad =
      Ok (ok ++ cs, bad ++ filter (fun a => negb (is_address a)) addrs)
    /\ Forall2 (fun a c => to_checksum_address kd a = Ok c)
               (filter is_address addrs) cs.
Proof.
  induction addrs as [|a addrs IH]; intros ok bad.
  - exists []. cbn. rewrite !app_nil_r. split; [reflexivity|constructor].
  - cbn [checksum_loop filter]. destruct (is_address a) eqn:Ea; cbn [negb].
    + pose proof (to_checksum_address_hex kd a Ea) as Hc.
      cbv zeta in Hc. rewrite Hc.
      set (c := String "0" (String "x" _)) in *.
      destruct (IH (ok ++ [c]) bad) as (cs & -> & Hall).
      exists (c :: cs). rewrite <- app_assoc. split; [reflexivity|].
      constructor; [exact Hc|exact Hall].
    + destruct (IH ok (bad ++ [a])) as (cs & -> & Hall).
      exists cs. rewrite <- app_assoc. split; [reflexivity|exact Hall].
Qed.

Lemma Forall2_in_right (X Y : Type) (R : X -> Y -> Prop) xs ys y :
  Forall2 R xs ys -> In y ys -> exists x, In x xs /\ R x y.
Proof.
  induction 1 as [|x0 y0 xs ys Hxy Hall IH]; intros Hin; [contradiction|].
  destruct Hin as [<-|Hin].
  - exists x0. split; [now left|exact Hxy].
  - destruct (IH Hin) as (x & Hx & HR). exists x. split; [now right|exact HR].
Qed.

Lemma in_firstn_in (X : Type) (x : X) : forall k l,
  In x (firstn k l) -> In x l.
Proof.
  induction k as [|k IH]; intros [|y l]; cbn; try tauto.
  intros [H|H]; [now left|right; now apply IH].
Qed.

Lemma in_skipn_in (X : Type) (x : X) : forall k l,
  In x (skipn k l) -> In x l.
Proof.
  induction k as [|k IH]; intros [|y l]; cbn; try tauto.
  intros H. right. now apply IH.
Qed.

Lemma in_slice (X : Type) (l : list X) lo hi x :
  In x (Py.slice l lo hi) -> In x l.
Proof.
  unfold Py.slice. intros H.
  eapply in_skipn_in, in_firstn_in, H.
Qed.

Lemma chunked_incl (X : Type) (l : list X) n batches batch x :
  chunked l n = Some batches -> In batch batches -> In x batch -> In x l.
Proof.
  unfold chunked. destruct (Py.range _ _ _) as [starts|]; [|discriminate].
  intros [= <-] Hb Hx. apply in_map_iff in Hb as (i & <- & _).
  eapply in_slice, Hx.
Qed.

Lemma not_hex40_not_address s :
  String.length (remove_0x_prefix s) <> 40%nat
  \/ Py.string_forallb is_hex_digit (remove_0x_prefix s) = false ->
  is_address s = false.
Proof.
  intros Hbad. destruct (is_address s) eqn:E; [|reflexivity]. exfalso.
  unfold is_address in E.
  assert (Hb : hex40 (remove_0x_prefix s) = true).
  { destruct (hex_address_cases s E) as [[Hh ->]|(p & t & Hp & -> & Hh)];
      [exact Hh|]. now rewrite remove_0x_prefix_prefixed. }
  unfold hex40 in Hb. apply andb_prop in Hb as [Hlen Hhex].
  apply Nat.eqb_eq in Hlen. destruct Hbad; congruence.
Qed.

Lemma not_address_not_hex40 s :
  is_address s = false ->
  String.length (remove_0x_prefix s) <> 40%nat
  \/ Py.string_forallb is_hex_digit (remove_0x_prefix s) = false.
Proof.
  intros Hbad.
  destruct (Nat.eq_dec (String.length (remove_0x_prefix s)) 40) as [Hlen|Hlen];
    [|now left].
  right.
  destruct (Py.string_forallb is_hex_digit (remove_0x_prefix s)) eqn:Hhex;
    [|reflexivity].
  exfalso.
  assert (Hb : hex40 (remove_0x_prefix s) = true).
  { unfold hex40. rewrite Hhex, Hlen. reflexivity. }
  unfold is_address, is_hex_address in Hbad. unfold remove_0x_prefix in Hb.
  destruct (is_0x_prefixed s).
  - rewrite Hb in Hbad. cbn in Hbad. now rewrite orb_true_r in Hbad.
  - now rewrite Hb in Hbad.
Qed.

(** C6. [to_checksum_addresses] splits its input in two: the invalid
    strings, kept as they are and in order, and the checksum forms of
    the others, in order.  A string is invalid exactly when what is left
    of it once an [0x] is taken off is not 40 characters long or holds a
    character that is no hexadecimal digit; the case of the letters plays
    no part.  An invalid string is in the first list and in no batch cut
    from the second, every member of which is a valid address in checksum
    form; the second list is what [main] hands to the fetch.  Of the
    invalid strings [main] reports their number, in one warning, and
    nothing when there is none. *)
Theorem invalid_addresses_set_aside (addrs : list string) :
  exists ok bad,
    to_checksum_addresses kd addrs = Ok (ok, bad)
    /\ bad = filter (fun a => negb (is_address a)) addrs
    /\ Forall2 (fun a c => to_checksum_address kd a = Ok c)
               (filter is_address addrs) ok
    /\ (forall c, In c ok ->
          is_address c = true /\ to_checksum_address kd c = Ok c)
    /\ (forall s, is_address s = false ->
          (In s addrs -> In s bad)
          /\ ~ In s ok
          /\ (forall n batches batch,
                chunked ok n = Some batches -> In batch batches ->
                ~ In s batch))
    /\ (forall s,
          String.length (remove_0x_prefix s) <> 40%nat
          \/ Py.string_forallb is_hex_digit (remove_0x_prefix s) = false <->
          is_address s = false)
    /\ (forall a w,
          is_connected w = true ->
          load_addresses w (addresses_file a) = Ok addrs ->
          stderr (main kd cd a w) =
          match bad with
          | [] => []
          | _ => [("Warning: skipped "
                     ++ Py.str_int (Z.of_nat (length bad))
                     ++ " invalid address(es).")%string]
          end
          /\ slept (main kd cd a w) =
             snd (get_usdc_nonzero_multicall kd cd (endpoint w) ok (chunk a) [])
          /\ stdout (main kd cd a w) =
             match fst (get_usdc_nonzero_multicall kd cd (endpoint w) ok
                                                   (chunk a) []) with
             | Ok nonzero => map report_line nonzero
             | Raise _ => []
             end).
Proof.
  destruct (checksum_loop_spec addrs [] []) as (ok & Hloop & Hall).
  cbn [app] in Hloop.
  exists ok, (filter (fun a => negb (is_address a)) addrs).
  split; [exact Hloop|]. split; [reflexivity|]. split; [exact Hall|].
  assert (Hok : forall c, In c ok ->
            is_address c = true /\ to_checksum_address kd c = Ok c).
  { intros c Hc.
    destruct (Forall2_in_right _ _ _ _ _ c Hall Hc) as (a & Ha & Hac).
    apply filter_In in Ha as [_ Ha].
    destruct (checksum_form_fixed kd a c Ha Hac) as (_ & Hfix & Hc').
    now split. }
  split; [exact Hok|]. split; [|split].
  - intros s Hs.
    assert (Hnot : ~ In s ok).
    { intros Hin. destruct (Hok s Hin) as [Hv _]. congruence. }
    split; [|split].
    + intros Hin. apply filter_In. split; [exact Hin|]. now rewrite Hs.
    + exact Hnot.
    + intros n batches batch Hch Hb Hin. apply Hnot.
      eapply chunked_incl; eassumption.
  - intros s. split; [apply not_hex40_not_address|apply not_address_not_hex40].
  - intros a w Hc Hl. unfold main, to_checksum_addresses.
    rewrite Hc, Hl, Hloop. cbn [negb].
    fold (warning (filter (fun a0 => negb (is_address a0)) addrs)).
    destruct (get_usdc_nonzero_multicall _ _ _ _ _ _) as [[nonzero|e] log];
      [|repeat split].
    destruct (String.eqb _ _); [repeat split|].
    destruct (open_write _ _); repeat split.
Qed.

End ValidationFacts.

(** The theorem at the sample token, whose symbol never answers. *)
Lemma symbol_falls_back_decimals_do_not_witness :
  Forall (fun b => bal_symbol b = "USDC")
         [mk_balance Sample.address_c 1500000 "1.5" "USDC"].
Proof.
  refine (proj2 (proj2 (symbol_falls_back_decimals_do_not
                   Sample.digest Sample.calldata (Sample.env 1500000)
                   [Sample.address_c] 250
                   (fun _ => RpcError "execution reverted") [])
                 0%nat 6%N _ eq_refl _ _)
            _ (backoff_delays default_base_delay 0 6) _).
  - intros j Hj. lia.
  - unfold default_retries. lia.
  - intros j Hj. reflexivity.
  - vm_compute. reflexivity.
Defined.

(** The theorem at an endpoint that does not answer. *)
Lemma main_exit_codes_witness :
  exit_code (status (main Sample.digest Sample.calldata (Sample.the_args EmptyString)
                          (mk_world false (fun _ => Ok []) (fun _ => Ok tt)
                                    (Sample.env 0)))) = 2.
Proof.
  apply (proj1 (main_exit_codes Sample.digest Sample.calldata _ _)).
  reflexivity.
Defined.

(** The theorem at a file with one address and one line that is none. *)
Lemma invalid_addresses_set_aside_witness :
  exists ok bad,
    to_checksum_addresses Sample.digest [Sample.address_m; "not_an_address"] =
      Ok (ok, bad)
    /\ bad = ["not_an_address"] /\ ~ In "not_an_address" ok.
Proof.
  destruct (invalid_addresses_set_aside Sample.digest Sample.calldata
              [Sample.address_m; "not_an_address"])
    as (ok & bad & H1 & H2 & _ & _ & H5 & _).
  exists ok, bad. split; [exact H1|]. split; [exact H2|].
  exact (proj1 (proj2 (H5 "not_an_address" eq_refl))).
Defined.

(** An address in a mixed case that is not the checksum's, and the same
    digits without [0x], are valid and come out in checksum form. *)
Lemma mixed_case_addresses_are_valid :
  is_checksum_address Sample.digest Sample.address_m = false
  /\ to_checksum_addresses Sample.digest
       [Sample.address_m; "52908400098527886E0F7030069857d2e4169ee7"] =
     Ok ([Sample.address_c; Sample.address_c], []).
Proof. split; vm_compute; reflexivity. Qed.

(** *** The fetch as a whole *)

Lemma zip_combine (X Y : Type) (xs : list X) : forall ys : list Y,
  Py.zip xs ys = combine xs ys.
Proof. induction xs as [|x xs IH]; intros [|y ys]; cbn; congruence. Qed.

(** The records [emitted] gives for a pair are what the loop body
    appends for it. *)
Lemma emitted_cases decimals symbol addr success (ret : Py.bytes) :
  (decimals <= 255)%N ->
  let raw := Py.int_from_bytes_big (skipn (length ret - 32) ret) in
  (success = true /\ ret <> [] /\ 0 < raw /\
   exists human,
     human_amount raw decimals = Ok human
     /\ emitted decimals symbol (addr, (success, ret)) =
        [mk_balance addr raw human symbol]
     /\ decode_pair decimals symbol addr (success, ret) =
        Ok (Some (mk_balance addr raw human symbol)))
  \/ (~ (success = true /\ ret <> [] /\ 0 < raw)
      /\ emitted decimals symbol (addr, (success, ret)) = []
      /\ decode_pair decimals symbol addr (success, ret) = Ok None).
Proof.
  intros Hd raw.
  destruct (decode_pair_cases decimals symbol addr success ret Hd)
    as [(Hs & Hne & Hpos & human & Hh & Hdec)|(Hnot & Hdec)];
    fold raw in Hpos, Hh, Hdec || fold raw in Hnot, Hdec.
  - left. repeat split; trivial. exists human.
    split; [exact Hh|]. split; [|exact Hdec].
    unfold emitted. fold raw. rewrite Hs, Hh.
    destruct ret as [|b ret']; [contradiction|].
    apply Z.ltb_lt in Hpos. now rewrite Hpos.
  - right. split; [exact Hnot|]. split; [|exact Hdec].
    unfold emitted. fold raw.
    destruct ret as [|b ret'] eqn:Eret; [reflexivity|].
    destruct success; [|reflexivity]. cbn [andb].
    destruct (Z.ltb_spec 0 raw) as [Hpos|]; [|reflexivity].
    exfalso. apply Hnot. repeat split; [discriminate|exact Hpos].
Qed.

(** The decode loop appends, pair after pair, the records [emitted]
    gives. *)
Lemma decode_loop_emitted decimals symbol (Hd : (decimals <= 255)%N) pairs :
  forall nonzero,
  decode_loop decimals symbol pairs nonzero =
  Ok (nonzero ++ flat_map (emitted decimals symbol) pairs).
Proof.
  induction pairs as [|[addr [success ret]] pairs IH]; intros nonzero.
  - cbn. now rewrite app_nil_r.
  - cbn [decode_loop flat_map].
    destruct (emitted_cases decimals symbol addr success ret Hd)
      as [(_ & _ & _ & human & _ & Hem & Hdec)|(_ & Hem & Hdec)];
      match goal with
      | |- context [emitted ?d ?s ?p] =>
          change (emitted d s p)
            with (emitted decimals symbol (addr, (success, ret)))
      end;
      rewrite Hem, Hdec, IH.
    + now rewrite <- app_assoc.
    + reflexivity.
Qed.

Section FetchWhole.
Variable kd : string -> nat -> Z.
Variable cd : string -> string.

Lemma build_calls_from_cases batch : forall calls,
  build_calls_from kd cd batch calls =
  if forallb (is_checksum_address kd) batch
  then Ok (calls ++ sub_calls kd cd batch)
  else Raise InvalidAddress.
Proof.
  induction batch as [|addr batch IH]; intros calls.
  - cbn. now rewrite app_nil_r.
  - cbn [build_calls_from forallb sub_calls map]. unfold balanceOf_encode.
    destruct (is_checksum_address kd addr); [|reflexivity].
    cbn [andb]. rewrite IH.
    destruct (forallb _ batch); [|reflexivity].
    unfold sub_calls. now rewrite <- app_assoc.
Qed.

(** The sub-calls of a batch are built when the encoder takes every
    address of it, and none is when it refuses one. *)
Lemma build_calls_cases batch :
  build_calls kd cd batch =
  if forallb (is_checksum_address kd) batch
  then Ok (sub_calls kd cd batch)
  else Raise InvalidAddress.
Proof. unfold build_calls. now rewrite build_calls_from_cases. Qed.

Lemma build_calls_ok batch :
  Forall (fun a => is_checksum_address kd a = true) batch ->
  build_calls kd cd batch = Ok (sub_calls kd cd batch).
Proof.
  intros H. rewrite build_calls_cases.
  assert (E : forallb (is_checksum_address kd) batch = true).
  { apply forallb_forall. now apply (proj1 (Forall_forall _ _)). }
  now rewrite E.
Qed.

(** The addresses [to_checksum_addresses] lets through are checksum
    addresses: the encoder takes each of them. *)
Lemma validated_are_checksum raw ok bad :
  to_checksum_addresses kd raw = Ok (ok, bad) ->
  Forall (fun a => is_checksum_address kd a = true) ok.
Proof.
  intros Hrun. destruct (checksum_loop_spec kd raw [] []) as (cs & Hloop & Hall).
  unfold to_checksum_addresses in Hrun. rewrite Hloop in Hrun.
  injection Hrun as <- _. cbn [app].
  apply Forall_forall. intros c Hc.
  destruct (Forall2_in_right _ _ _ _ _ c Hall Hc) as (a & Ha & Hac).
  apply filter_In in Ha as [_ Ha].
  destruct (checksum_form_fixed kd a c Ha Hac) as (Hhex & Hfix & _).
  now apply fixed_is_checksum_address.
Qed.

Variable env : rpc_env.
Variable answer : nat -> list call -> list call_result.
Hypothesis Hanswer : answers_at_once env answer.
Variable decimals : N.
Hypothesis Hd : (decimals <= 255)%N.
Variable symbol : string.

Lemma batch_loop_answered batches :
  Forall (Forall (fun a => is_checksum_address kd a = true)) batches ->
  forall idx nonzero log,
  batch_loop kd cd env decimals symbol idx batches nonzero log =
  (Ok (nonzero ++ flat_map (emitted decimals symbol)
                           (answered_pairs kd cd answer idx batches)),
   log).
Proof.
  induction 1 as [|batch batches Hb _ IH]; intros idx nonzero log.
  - cbn. now rewrite app_nil_r.
  - cbn [batch_loop answered_pairs]. unfold bind at 1, lift at 1.
    rewrite (build_calls_ok batch Hb).
    unfold bind at 1, rpc_retry, default_retries. cbn [retry_loop].
    rewrite Hanswer. unfold ret at 1. unfold bind at 1, lift.
    rewrite zip_combine, (decode_loop_emitted decimals symbol Hd).
    rewrite IH, flat_map_app, app_assoc. reflexivity.
Qed.

Lemma chunked_checksum addresses n batches :
  Forall (fun a => is_checksum_address kd a = true) addresses ->
  chunked addresses n = Some batches ->
  Forall (Forall (fun a => is_checksum_address kd a = true)) batches.
Proof.
  intros Hall Hch. rewrite Forall_forall in Hall.
  apply Forall_forall. intros batch Hb. apply Forall_forall. intros a Ha.
  apply Hall. eapply chunked_incl; eassumption.
Qed.

Lemma scan_batches_answered addresses n batches log :
  Forall (fun a => is_checksum_address kd a = true) addresses ->
  chunked addresses n = Some batches ->
  scan_batches kd cd env decimals symbol addresses n log =
  (Ok (flat_map (emitted decimals symbol)
                (answered_pairs kd cd answer 0 batches)), log).
Proof.
  intros Hall Hch. unfold scan_batches, bind at 1, lift. rewrite Hch.
  rewrite batch_loop_answered by (eapply chunked_checksum; eassumption).
  reflexivity.
Qed.

Lemma fetch_answered addresses n batches log :
  decimals_call env 0%nat = Ok decimals ->
  symbol_call env 0%nat = Ok symbol ->
  Forall (fun a => is_checksum_address kd a = true) addresses ->
  chunked addresses n = Some batches ->
  get_usdc_nonzero_multicall kd cd env addresses n log =
  (Ok (flat_map (emitted decimals symbol)
                (answered_pairs kd cd answer 0 batches)), log).
Proof.
  intros Hdec Hsym Hall Hch.
  unfold get_usdc_nonzero_multicall. unfold bind at 1.
  unfold rpc_retry at 1, default_retries. cbn [retry_loop]. rewrite Hdec.
  unfold ret at 1. unfold bind at 1, try_except.
  unfold rpc_retry at 1. cbn [retry_loop]. rewrite Hsym. unfold ret at 1.
  now apply scan_batches_answered.
Qed.

End FetchWhole.

Lemma combine_firstn_min (X Y : Type) (xs : list X) : forall ys : list Y,
  combine xs ys =
  combine (firstn (Nat.min (length xs) (length ys)) xs)
          (firstn (Nat.min (length xs) (length ys)) ys).
Proof.
  induction xs as [|x xs IH]; intros [|y ys]; cbn; trivial.
  f_equal. apply IH.
Qed.

(** C10. Over the [uint8] range of the decimals the decode loop returns
    for every batch and every list of results, of whatever lengths, and
    what it returns is the records it was given followed by the record of
    every pair that has one, in order.  The pairs are the items at equal
    positions, as many as the shorter list has, whatever exceeds that
    being dropped.  A successful payload of fewer than 32 bytes is read
    whole, as a big-endian integer, and its record, when that integer is
    positive, is among those returned.  The loop over the batches, and
    with it the fetch, so returns for every list of results the
    aggregator may answer with. *)
Theorem decode_loop_total (decimals : N) (Hd : (decimals <= 255)%N)
  (symbol : string) (batch : list string) (results : list call_result)
  (nonzero : list balance) :
  decode_loop decimals symbol (Py.zip batch results) nonzero =
    Ok (nonzero
          ++ flat_map (emitted decimals symbol)
               (combine
                  (firstn (Nat.min (length batch) (length results)) batch)
                  (firstn (Nat.min (length batch) (length results)) results)))
  /\ (forall out,
        decode_loop decimals symbol (Py.zip batch results) nonzero = Ok out ->
        forall b,
          In b out <->
          In b nonzero
          \/ exists k addr r,
               nth_error batch k = Some addr /\ nth_error results k = Some r
               /\ In b (emitted decimals symbol (addr, r)))
  /\ (exists out,
        decode_loop decimals symbol (Py.zip batch results) nonzero = Ok out)
  /\ length (Py.zip batch results) = Nat.min (length batch) (length results)
  /\ (forall k addr r,
        nth_error (Py.zip batch results) k = Some (addr, r) <->
        nth_error batch k = Some addr /\ nth_error results k = Some r)
  /\ (let n := Nat.min (length batch) (length results) in
      decode_loop decimals symbol (Py.zip batch results) nonzero =
      decode_loop decimals symbol
                  (Py.zip (firstn n batch) (firstn n results)) nonzero)
  /\ (forall addr (ret : Py.bytes),
        ret <> [] -> (length ret < 32)%nat ->
        Py.slice ret (Some (-32)) None = ret
        /\ (0 < Py.int_from_bytes_big ret ->
            exists human,
              decode_pair decimals symbol addr (true, ret) =
              Ok (Some (mk_balance addr (Py.int_from_bytes_big ret)
                                   human symbol)))
        /\ (Py.int_from_bytes_big ret = 0 ->
            decode_pair decimals symbol addr (true, ret) = Ok None))
  /\ (forall k addr (ret : Py.bytes),
        nth_error batch k = Some addr ->
        nth_error results k = Some (true, ret) ->
        ret <> [] -> (length ret < 32)%nat ->
        0 < Py.int_from_bytes_big ret ->
        exists human out,
          decode_loop decimals symbol (Py.zip batch results) nonzero = Ok out
          /\ In (mk_balance addr (Py.int_from_bytes_big ret) human symbol) out)
  /\ (forall kd cd env answer addresses chunk_size batches log,
        answers_at_once env answer ->
        Forall (fun a => is_checksum_address kd a = true) addresses ->
        chunked addresses chunk_size = Some batches ->
        scan_batches kd cd env decimals symbol addresses chunk_size log =
        (Ok (flat_map (emitted decimals symbol)
                      (answered_pairs kd cd answer 0 batches)), log)).
Proof.
  assert (Hrun : decode_loop decimals symbol (Py.zip batch results) nonzero =
                 Ok (nonzero ++ flat_map (emitted decimals symbol)
                                         (combine batch results))).
  { rewrite zip_combine. now apply decode_loop_emitted. }
  assert (Hmem : forall b,
            In b (nonzero ++ flat_map (emitted decimals symbol)
                                      (combine batch results)) <->
            In b nonzero
            \/ exists k addr r,
                 nth_error batch k = Some addr /\ nth_error results k = Some r
                 /\ In b (emitted decimals symbol (addr, r))).
  { intros b. rewrite in_app_iff, in_flat_map. split.
    - intros [H|([addr r] & Hin & Hb)]; [now left|right].
      apply In_nth_error in Hin as [k Hk].
      rewrite <- zip_combine in Hk. apply zip_nth_error in Hk.
      now exists k, addr, r.
    - intros [H|(k & addr & r & Ha & Hr & Hb)]; [now left|right].
      exists (addr, r). split; [|exact Hb].
      apply (nth_error_In _ k). rewrite <- zip_combine.
      now apply zip_nth_error. }
  assert (Hshort : forall (ret : Py.bytes),
            (length ret < 32)%nat -> skipn (length ret - 32) ret = ret).
  { intros ret Hlen. replace (length ret - 32)%nat with 0%nat by lia.
    reflexivity. }
  split; [now rewrite Hrun, <- combine_firstn_min|].
  split; [intros out Hout b; rewrite Hrun in Hout; injection Hout as <-;
          apply Hmem|].
  split; [now apply decode_loop_returns|].
  split; [apply zip_length|]. split; [intros; apply zip_nth_error|].
  split; [cbv zeta; now rewrite <- zip_truncates|].
  split; [|split].
  - intros addr ret Hne Hlen.
    split; [rewrite slice_last_32; now apply Hshort|].
    destruct (decode_pair_cases decimals symbol addr true ret Hd)
      as [(_ & _ & Hpos & human & _ & Hdec)|(Hnot & Hdec)];
      rewrite (Hshort ret Hlen) in *.
    + split; [intros _; now exists human|lia].
    + split; [|intros _; exact Hdec].
      intros Hpos. exfalso. apply Hnot. now repeat split.
  - intros k addr ret Ha Hr Hne Hlen Hpos.
    destruct (emitted_cases decimals symbol addr true ret Hd)
      as [(_ & _ & _ & human & _ & Hem & _)|(Hnot & _)];
      rewrite (Hshort ret Hlen) in *.
    + exists human. eexists. split; [exact Hrun|].
      apply Hmem. right. exists k, addr, (true, ret).
      split; [exact Ha|]. split; [exact Hr|].
      assert (Hin : In (mk_balance addr (Py.int_from_bytes_big ret) human symbol)
                       (emitted decimals symbol (addr, (true, ret))))
        by (rewrite Hem; now left).
      exact Hin.
    + exfalso. apply Hnot. now repeat split.
  - intros kd cd env answer addresses chunk_size batches log Hans Hall Hch.
    now apply scan_batches_answered.
Qed.

(** The theorem at a token with six decimals and a batch of one address
    answered with a two-byte payload. *)
Lemma decode_loop_total_witness :
  (6 <= 255)%N /\
  exists human out,
    decode_loop 6 "USDC"
                (Py.zip [Sample.address_c] [(true, [Byte.x01; Byte.x00])]) [] =
    Ok out
    /\ In (mk_balance Sample.address_c 256 human "USDC") out.
Proof.
  split; [discriminate|].
  exact (proj1 (proj2 (proj2 (proj2 (proj2 (proj2 (proj2 (proj2
           (decode_loop_total 6 ltac:(discriminate) "USDC"
              [Sample.address_c] [(true, [Byte.x01; Byte.x00])] []))))))))
           0%nat Sample.address_c [Byte.x01; Byte.x00] eq_refl eq_refl
           ltac:(discriminate) ltac:(cbn; lia) eq_refl).
Defined.

(** C1 (amended). Over the [uint8] range of the decimals, a sub-call
    result makes the decode loop emit a record exactly when its success
    flag is set, its payload is not empty and the big-endian integer
    [raw] read from the last 32 bytes of the payload is positive: the
    loop body yields a record in that case and in no other, the loop
    appends the records of the pairs it is given, in order, to those it
    has, and [get_usdc_nonzero_multicall] returns the records of the
    pairs of all batches, each batch paired with the aggregator's answer
    to its sub-calls.  The record carries the address, [raw], the symbol
    and the text of [Decimal(raw) / Decimal(10) ** decimals]; read as a
    numeral, that text denotes exactly [raw / 10 ** decimals] whenever
    [raw] is below [10 ** 28], the precision of the arithmetic.  A raw
    amount of 1500000 with six decimals reads ["1.5"]. *)
Theorem decode_pair_emits (decimals : N) (Hd : (decimals <= 255)%N)
  (symbol addr : string) (success : bool) (ret : Py.bytes) :
  let raw := Py.int_from_bytes_big (skipn (length ret - 32) ret) in
  ((exists b, decode_pair decimals symbol addr (success, ret) = Ok (Some b))
   <-> success = true /\ ret <> [] /\ 0 < raw)
  /\ (~ (success = true /\ ret <> [] /\ 0 < raw) ->
      decode_pair decimals symbol addr (success, ret) = Ok None)
  /\ (forall b,
        decode_pair decimals symbol addr (success, ret) = Ok (Some b) ->
        bal_addr b = addr /\ bal_raw b = raw /\ bal_symbol b = symbol
        /\ human_amount raw decimals = Ok (bal_human b))
  /\ (0 < raw < 10 ^ 28 ->
      exists human h,
        human_amount raw decimals = Ok human
        /\ Dec.of_string human = Some h
        /\ (Dec.value h == inject_Z raw / inject_Z (10 ^ Z.of_N decimals))%Q)
  /\ human_amount 1500000 6 = Ok "1.5"
  /\ (success = true /\ ret <> [] /\ 0 < raw ->
      exists human,
        human_amount raw decimals = Ok human
        /\ emitted decimals symbol (addr, (success, ret)) =
           [mk_balance addr raw human symbol])
  /\ (~ (success = true /\ ret <> [] /\ 0 < raw) ->
      emitted decimals symbol (addr, (success, ret)) = [])
  /\ (forall pairs nonzero,
        decode_loop decimals symbol pairs nonzero =
        Ok (nonzero ++ flat_map (emitted decimals symbol) pairs))
  /\ (forall before after nonzero,
        decode_loop decimals symbol
                    (before ++ (addr, (success, ret)) :: after) nonzero =
        Ok ((nonzero ++ flat_map (emitted decimals symbol) before)
              ++ emitted decimals symbol (addr, (success, ret))
              ++ flat_map (emitted decimals symbol) after))
  /\ (forall kd cd env answer addresses chunk_size batches log,
        decimals_call env 0%nat = Ok decimals ->
        symbol_call env 0%nat = Ok symbol ->
        answers_at_once env answer ->
        Forall (fun a => is_checksum_address kd a = true) addresses ->
        chunked addresses chunk_size = Some batches ->
        get_usdc_nonzero_multicall kd cd env addresses chunk_size log =
        (Ok (flat_map (emitted decimals symbol)
                      (answered_pairs kd cd answer 0 batches)), log)).
Proof.
  intros raw.
  assert (Hexact : 0 < raw < 10 ^ 28 ->
            exists human h,
              human_amount raw decimals = Ok human
              /\ Dec.of_string human = Some h
              /\ (Dec.value h ==
                  inject_Z raw / inject_Z (10 ^ Z.of_N decimals))%Q)
    by (intros Hsmall; now apply human_amount_exact).
  assert (Hloop : forall pairs nonzero,
            decode_loop decimals symbol pairs nonzero =
            Ok (nonzero ++ flat_map (emitted decimals symbol) pairs))
    by (intros; now apply decode_loop_emitted).
  assert (Hat : forall before after nonzero,
            decode_loop decimals symbol
                        (before ++ (addr, (success, ret)) :: after) nonzero =
            Ok ((nonzero ++ flat_map (emitted decimals symbol) before)
                  ++ emitted decimals symbol (addr, (success, ret))
                  ++ flat_map (emitted decimals symbol) after)).
  { intros before after nonzero. rewrite Hloop, flat_map_app.
    cbn [flat_map]. now rewrite app_assoc. }
  assert (Hfetch : forall kd cd env answer addresses chunk_size batches log,
            decimals_call env 0%nat = Ok decimals ->
            symbol_call env 0%nat = Ok symbol ->
            answers_at_once env answer ->
            Forall (fun a => is_checksum_address kd a = true) addresses ->
            chunked addresses chunk_size = Some batches ->
            get_usdc_nonzero_multicall kd cd env addresses chunk_size log =
            (Ok (flat_map (emitted decimals symbol)
                          (answered_pairs kd cd answer 0 batches)), log))
    by (intros; now apply fetch_answered).
  destruct (emitted_cases decimals symbol addr success ret Hd)
    as [(Hs & Hne & Hpos & human & Hh & Hem & Hdec)|(Hnot & Hem & Hdec)];
    fold raw in Hpos, Hh, Hem, Hdec || fold raw in Hnot, Hem, Hdec.
  - split; [split; [intros _; now repeat split|intros _; eexists; exact Hdec]|].
    split; [intros Hnot; exfalso; apply Hnot; now repeat split|].
    split; [intros b Hb; rewrite Hdec in Hb; injection Hb as <-;
            cbn; now repeat split|].
    split; [exact Hexact|]. split; [reflexivity|].
    split; [intros _; now exists human|].
    split; [intros Hnot; exfalso; apply Hnot; now repeat split|].
    split; [exact Hloop|]. split; [exact Hat|exact Hfetch].
  - split; [split; [intros [b Hb]; congruence|intros H; contradiction]|].
    split; [intros _; exact Hdec|].
    split; [intros b Hb; congruence|].
    split; [exact Hexact|]. split; [reflexivity|].
    split; [intros H; contradiction|].
    split; [intros _; exact Hem|].
    split; [exact Hloop|]. split; [exact Hat|exact Hfetch].
Qed.

(** The theorem at a 32-byte payload holding 1500000, six decimals. *)
Lemma decode_pair_emits_witness :
  (6 <= 255)%N /\
  (exists b,
     decode_pair 6 "USDC" Sample.address_c (true, Sample.uint256 1500000) =
     Ok (Some b))
  /\ decode_loop 6 "USDC"
       [(Sample.address_c, (true, Sample.uint256 1500000))] [] =
     Ok [mk_balance Sample.address_c 1500000 "1.5" "USDC"].
Proof.
  split; [discriminate|].
  pose proof (decode_pair_emits 6 ltac:(discriminate) "USDC"
                Sample.address_c true (Sample.uint256 1500000)) as H.
  split.
  - apply (proj1 H).
    split; [reflexivity|]. split; [discriminate|]. reflexivity.
  - exact (proj1 (proj2 (proj2 (proj2 (proj2 (proj2 (proj2 (proj2 H)))))))
             [(Sample.address_c, (true, Sample.uint256 1500000))] []).
Defined.

(** C1 as stated fails: a raw amount of 29 digits is rounded to 28, so
    the text of the record, read as a numeral, no longer denotes
    [raw / 10 ** decimals]. *)
Lemma human_amount_rounds_beyond_28_digits :
  let raw := 10 ^ 28 + 1 in
  exists b h,
    decode_pair 6 "USDC" Sample.address_a (true, Sample.uint256 raw) =
      Ok (Some b)
    /\ bal_raw b = raw
    /\ bal_human b = "10000000000000000000000.00000"
    /\ Dec.of_string (bal_human b) = Some h
    /\ ~ (Dec.value h == inject_Z raw / inject_Z (10 ^ 6))%Q.
Proof.
  eexists. eexists.
  split; [vm_compute; reflexivity|].
  split; [reflexivity|].
  split; [reflexivity|].
  split; [vm_compute; reflexivity|].
  vm_compute. discriminate.
Qed.

Section BuildCalls.
Variable kd : string -> nat -> Z.
Variable cd : string -> string.

(** C3. For a batch of addresses, each in its checksum form as the
    validation leaves them, the sub-calls built are as many as the
    addresses, and the [k]-th sub-call is the [balanceOf] payload of the
    [k]-th address, aimed at the token contract, with the allow-failure
    flag set.  This list is what the loop over the batches hands to the
    aggregator for that batch, and what [get_usdc_nonzero_multicall]
    returns is decoded from the aggregator's answers to these lists, one
    per batch, and to nothing else.  A batch holding a string that is no
    checksum address gets no sub-call at all: the encoder refuses it and
    the fetch raises. *)
Theorem build_calls_one_per_address (batch : list string)
  (Hok : Forall (fun a => is_checksum_address kd a = true) batch) :
  build_calls kd cd batch =
    Ok (map (fun addr => (USDC_BASE kd, true, cd addr)) batch)
  /\ (exists calls,
        build_calls kd cd batch = Ok calls
        /\ length calls = length batch
        /\ (forall k addr, nth_error batch k = Some addr ->
              nth_error calls k = Some (USDC_BASE kd, true, cd addr))
        /\ (forall k c, nth_error calls k = Some c ->
              exists addr, nth_error batch k = Some addr
                           /\ c = (USDC_BASE kd, true, cd addr)))
  /\ (forall env decimals symbol idx rest nonzero,
        batch_loop kd cd env decimals symbol idx (batch :: rest) nonzero =
        (results <- rpc_retry
                      (aggregate3_call env idx
                         (map (fun addr => (USDC_BASE kd, true, cd addr)) batch))
                      default_retries default_base_delay ;;
         nonzero' <- lift (decode_loop decimals symbol
                                       (Py.zip batch results) nonzero) ;;
         batch_loop kd cd env decimals symbol (S idx) rest nonzero')%M)
  /\ (forall env answer decimals symbol chunk_size log,
        (decimals <= 255)%N ->
        decimals_call env 0%nat = Ok decimals ->
        symbol_call env 0%nat = Ok symbol ->
        answers_at_once env answer ->
        length batch <> 0%nat ->
        Z.of_nat (length batch) <= chunk_size ->
        get_usdc_nonzero_multicall kd cd env batch chunk_size log =
        (Ok (flat_map (emitted decimals symbol)
               (combine batch
                  (answer 0%nat
                     (map (fun addr => (USDC_BASE kd, true, cd addr)) batch)))),
         log))
  /\ (forall env answer decimals symbol addresses chunk_size batches log,
        (decimals <= 255)%N ->
        decimals_call env 0%nat = Ok decimals ->
        symbol_call env 0%nat = Ok symbol ->
        answers_at_once env answer ->
        Forall (fun a => is_checksum_address kd a = true) addresses ->
        chunked addresses chunk_size = Some batches ->
        get_usdc_nonzero_multicall kd cd env addresses chunk_size log =
        (Ok (flat_map (emitted decimals symbol)
                      (answered_pairs kd cd answer 0 batches)), log))
  /\ (forall other,
        build_calls kd cd other =
        if forallb (is_checksum_address kd) other
        then Ok (map (fun addr => (USDC_BASE kd, true, cd addr)) other)
        else Raise InvalidAddress)
  /\ (forall env decimals symbol idx other rest nonzero log,
        forallb (is_checksum_address kd) other = false ->
        batch_loop kd cd env decimals symbol idx (other :: rest) nonzero log =
        (Raise InvalidAddress, log))
  /\ (forall raw ok bad,
        to_checksum_addresses kd raw = Ok (ok, bad) ->
        Forall (fun a => is_checksum_address kd a = true) ok).
Proof.
  pose proof (build_calls_ok kd cd batch Hok) as E. unfold sub_calls in E.
  split; [exact E|]. split; [|split; [|split; [|split; [|split; [|split]]]]].
  - eexists. split; [exact E|]. split; [apply length_map|]. split.
    + intros k addr Hk. now rewrite nth_error_map, Hk.
    + intros k c Hk. rewrite nth_error_map in Hk.
      destruct (nth_error batch k) as [addr|]; [|discriminate].
      exists addr. cbn in Hk. split; congruence.
  - intros. cbn [batch_loop]. now rewrite E.
  - intros env answer decimals symbol chunk_size log Hd Hdec Hsym Hans Hne Hfit.
    assert (Hch : chunked batch chunk_size = Some [batch]).
    { rewrite chunked_pieces by lia.
      replace (Z.to_nat (Py.range_length 0 (Z.of_nat (length batch)) chunk_size))
        with 1%nat.
      - unfold pieces. cbn [seq map Nat.mul skipn].
        rewrite firstn_all2 by lia. reflexivity.
      - unfold Py.range_length.
        destruct (Z.ltb_spec 0 chunk_size); [|lia].
        destruct (Z.ltb_spec 0 (Z.of_nat (length batch))); [|lia].
        rewrite Z.div_small by lia. reflexivity. }
    rewrite (fetch_answered kd cd env answer Hans decimals Hd symbol
               batch chunk_size [batch] log Hdec Hsym Hok Hch).
    cbn [answered_pairs]. now rewrite app_nil_r.
  - intros env answer decimals symbol addresses chunk_size batches log
           Hd Hdec Hsym Hans Hall Hch.
    now apply (fetch_answered kd cd env answer Hans decimals Hd symbol
                 addresses chunk_size batches log).
  - intros other. apply build_calls_cases.
  - intros env decimals symbol idx other rest nonzero log Hbad.
    cbn [batch_loop]. unfold bind at 1, lift at 1.
    now rewrite build_calls_cases, Hbad.
  - intros raw ok bad. apply validated_are_checksum.
Qed.

End BuildCalls.

(** The theorem at a batch of one address, under the sample digest. *)
Lemma build_calls_one_per_address_witness :
  Forall (fun a => is_checksum_address Sample.digest a = true)
         [Sample.address_c] /\
  build_calls Sample.digest Sample.calldata [Sample.address_c] =
  Ok [(USDC_BASE Sample.digest, true, Sample.calldata Sample.address_c)].
Proof.
  assert (H : Forall (fun a => is_checksum_address Sample.digest a = true)
                     [Sample.address_c])
    by (repeat constructor).
  split; [exact H|].
  exact (proj1 (build_calls_one_per_address Sample.digest Sample.calldata
                  [Sample.address_c] H)).
Defined.

(** The encoder refuses an address in lower case: the fetch raises
    before anything is sent. *)
Lemma lower_case_address_is_refused :
  get_usdc_nonzero_multicall Sample.digest Sample.calldata
    (mk_rpc_env (fun _ => Ok 6%N) (fun _ => Ok "USDC")
                (fun _ calls _ =>
                   Ok (map (fun _ => (true, Sample.uint256 1)) calls)))
    [Sample.address_a] 250 [] = (Raise InvalidAddress, []).
Proof. vm_compute. reflexivity. Qed.

(** ** Further properties of the script *)

(** *** load_addresses *)

Lemma load_lines_acc lines : forall addrs,
  load_lines lines addrs = addrs ++ load_lines lines [].
Proof.
  induction lines as [|line lines IH]; intros addrs; cbn [load_lines].
  - now rewrite app_nil_r.
  - destruct (String.eqb _ _ || _); [apply IH|].
    rewrite IH, (IH ([] ++ _)). now rewrite <- app_assoc.
Qed.

Lemma load_lines_entries lines :
  load_lines lines [] = map line_entry (filter kept_line lines).
Proof.
  induction lines as [|line lines IH]; [reflexivity|].
  cbn [load_lines filter]. unfold kept_line at 1.
  destruct (String.eqb _ _ || _); cbn [negb]; [exact IH|].
  rewrite load_lines_acc, IH. reflexivity.
Qed.

(** X1. [load_addresses] passes on the exception of [open]; otherwise
    it goes through the lines in order, drops those that are blank or
    start with [#] once stripped, and turns every other line into one
    entry, the stripped text before its first comma.  So it returns at
    most one entry per line, and the entries of a file in two parts are
    those of the first part followed by those of the second. *)
Theorem load_addresses_line_by_line (w : world) (path : string) :
  load_addresses w path =
    match open_read w path with
    | Raise e => Raise e
    | Ok lines => Ok (map line_entry (filter kept_line lines))
    end
  /\ (forall lines, (length (load_lines lines []) <= length lines)%nat)
  /\ (forall lines1 lines2,
        load_lines (lines1 ++ lines2) [] =
        load_lines lines1 [] ++ load_lines lines2 []).
Proof.
  split; [|split].
  - unfold load_addresses. destruct (open_read w path); [|reflexivity].
    now rewrite load_lines_entries.
  - intros lines. rewrite load_lines_entries, length_map. apply filter_length_le.
  - intros l1 l2. rewrite !load_lines_entries, filter_app, map_app. reflexivity.
Qed.

Lemma existsb_lstrip f s :
  Py.string_existsb f (Py.lstrip s) = true -> Py.string_existsb f s = true.
Proof.
  induction s as [|c s IH]; cbn; [trivial|].
  destruct (Py.is_space c); [|trivial].
  intros H. rewrite (IH H). apply orb_true_r.
Qed.

Lemma existsb_rstrip f s :
  Py.string_existsb f (Py.rstrip s) = true -> Py.string_existsb f s = true.
Proof.
  induction s as [|c s IH]; cbn [Py.rstrip Py.string_existsb]; [trivial|].
  destruct (Py.rstrip s) as [|c' r] eqn:E.
  - destruct (Py.is_space c); cbn; [discriminate|].
    rewrite orb_false_r. intros ->. reflexivity.
  - cbn [Py.string_existsb]. intros H. apply orb_prop in H as [H|H].
    + now rewrite H.
    + rewrite IH by exact H. apply orb_true_r.
Qed.

Lemma occurs_strip c s : occurs c (Py.strip s) = true -> occurs c s = true.
Proof.
  unfold occurs, Py.strip. intros H. now apply existsb_lstrip, existsb_rstrip.
Qed.

Lemma split_first_no_sep sep s : occurs sep (Py.split_first sep s) = false.
Proof.
  unfold occurs. induction s as [|c s IH]; cbn; [reflexivity|].
  destruct (Ascii.eqb_spec c sep) as [->|Hne]; [reflexivity|].
  cbn. rewrite IH, orb_false_r. now apply Ascii.eqb_neq.
Qed.

Lemma rstrip_idempotent s : Py.rstrip (Py.rstrip s) = Py.rstrip s.
Proof.
  induction s as [|c s IH]; [reflexivity|]. cbn [Py.rstrip].
  destruct (Py.rstrip s) as [|c' r] eqn:E.
  - destruct (Py.is_space c) eqn:Ec; [reflexivity|].
    cbn [Py.rstrip]. now rewrite Ec.
  - cbn [Py.rstrip] in *. now rewrite IH.
Qed.

(** Stripping the right end leaves the left end as it is. *)
Lemma lstrip_rstrip_lstrip s :
  Py.lstrip (Py.rstrip (Py.lstrip s)) = Py.rstrip (Py.lstrip s).
Proof.
  induction s as [|c s IH]; [reflexivity|]. cbn [Py.lstrip].
  destruct (Py.is_space c) eqn:Ec; [exact IH|].
  cbn [Py.rstrip]. destruct (Py.rstrip s) as [|c' r].
  - rewrite Ec. cbn [Py.lstrip]. now rewrite Ec.
  - cbn [Py.lstrip]. now rewrite Ec.
Qed.

Lemma strip_idempotent s : Py.strip (Py.strip s) = Py.strip s.
Proof.
  unfold Py.strip. now rewrite lstrip_rstrip_lstrip, rstrip_idempotent.
Qed.

(** X2. No entry [load_addresses] returns holds a comma, and none has
    white space at either end: stripping it changes nothing. *)
Theorem load_addresses_entries_clean (w : world) (path : string)
  (addrs : list string) (a : string)
  (Hload : load_addresses w path = Ok addrs) (Hin : In a addrs) :
  occurs "," a = false /\ Py.strip a = a.
Proof.
  unfold load_addresses in Hload.
  destruct (open_read w path) as [lines|]; [|discriminate].
  injection Hload as <-. rewrite load_lines_entries in Hin.
  apply in_map_iff in Hin as (line & <- & _). unfold line_entry. split.
  - destruct (occurs "," (Py.strip (Py.split_first "," (Py.strip line))))
      eqn:E; [|reflexivity].
    apply occurs_strip in E. now rewrite split_first_no_sep in E.
  - apply strip_idempotent.
Qed.

(** The theorem at a file of one line with two columns. *)
Lemma load_addresses_entries_clean_witness :
  occurs "," "0xabc" = false /\ Py.strip "0xabc" = "0xabc".
Proof.
  apply (load_addresses_entries_clean
           (Sample.the_world 0 ["  0xabc , first wallet "])
           "addresses.txt" ["0xabc"] "0xabc");
    [reflexivity|now left].
Defined.

(** *** rpc_retry, further *)

Section RpcRetryMore.
Context {A : Type}.
Variable base_delay : Q.

Lemma retry_loop_outcomes (fn : nat -> result A)
  (Hnn : (0 <= base_delay)%Q) todo :
  forall i last_err log r log',
  retry_loop fn base_delay i todo last_err log = (r, log') ->
  (exists k a,
      r = Ok a /\ (k < todo)%nat /\ fn (i + k)%nat = Ok a
      /\ (forall j, (i <= j < i + k)%nat -> exists e, fn j = Raise e)
      /\ log' = log ++ backoff_delays base_delay i k)
  \/ (exists e,
        r = Raise e
        /\ (forall j, (i <= j < i + todo)%nat -> exists e', fn j = Raise e')
        /\ log' = log ++ backoff_delays base_delay i todo
        /\ match todo with
           | O => e = match last_err with Some e0 => e0 | None => TypeError end
           | S t => fn (i + t)%nat = Raise e
           end).
Proof.
  induction todo as [|todo IH]; intros i last_err log r log' H.
  - right. cbn in H. destruct last_err as [e0|]; unfold raise in H;
      injection H as <- <-; eexists; (split; [reflexivity|]);
      (split; [intros; lia|]); now rewrite app_nil_r.
  - cbn [retry_loop] in H. destruct (fn i) as [a|e] eqn:Ei.
    + left. unfold ret in H. injection H as <- <-.
      exists 0%nat, a. rewrite Nat.add_0_r, app_nil_r.
      repeat split; trivial; [lia|intros; lia].
    + unfold bind in H. rewrite (sleep_backoff base_delay Hnn) in H.
      destruct (IH (S i) (Some e) _ r log' H)
        as [(k & a & -> & Hk & Hok & Hfail & ->)
           |(e1 & -> & Hfail & -> & Hlast)].
      * left. exists (S k), a. rewrite <- app_assoc.
        split; [reflexivity|]. split; [lia|].
        split; [now rewrite Nat.add_succ_r|]. split; [|reflexivity].
        intros j Hj. destruct (Nat.eq_dec j i) as [->|]; [now exists e|].
        apply Hfail. lia.
      * right. exists e1. rewrite <- app_assoc.
        split; [reflexivity|]. split; [|split; [reflexivity|]].
        -- intros j Hj. destruct (Nat.eq_dec j i) as [->|]; [now exists e|].
           apply Hfail. lia.
        -- destruct todo as [|t].
           ++ rewrite Nat.add_0_r. now subst e1.
           ++ now rewrite Nat.add_succ_r.
Qed.

(** With a negative base delay the first sleep raises: the loop gets no
    further than its first attempt. *)
Lemma retry_loop_negative (fn : nat -> result A)
  (Hneg : (base_delay < 0)%Q) todo i last_err log :
  retry_loop fn base_delay i (S todo) last_err log =
  match fn i with
  | Ok a => (Ok a, log)
  | Raise _ => (Raise ValueError, log)
  end.
Proof.
  cbn [retry_loop]. destruct (fn i) as [a|e]; [reflexivity|].
  unfold bind. now rewrite (sleep_negative base_delay Hneg).
Qed.

Lemma backoff_delays_length k : forall i,
  length (backoff_delays base_delay i k) = k.
Proof. induction k; intros; cbn; congruence. Qed.

(** X3. Within the range of the delays that [float] and [time.sleep]
    take, whatever [rpc_retry] does is one of three things.  Either it
    returns what the thunk returned on some attempt [k] below the
    maximum, every earlier attempt having failed, after [k] sleeps; or it
    raises, every attempt having failed and as many sleeps as attempts
    having been made: the error of the last attempt, or [TypeError] when
    the maximum is zero and nothing was attempted; or, the base delay
    being negative and the first attempt having failed, it raises the
    [ValueError] of the first sleep, no second attempt being made. *)
Theorem rpc_retry_outcomes (fn : nat -> result A) (retries : nat)
  (log : list Q) (r : result A) (log' : list Q)
  (Hrange : within_sleep_range base_delay retries)
  (Hrun : rpc_retry fn retries base_delay log = (r, log')) :
  (exists k a,
      r = Ok a /\ (k < retries)%nat /\ fn k = Ok a
      /\ (forall j, (j < k)%nat -> exists e, fn j = Raise e)
      /\ log' = log ++ backoff_delays base_delay 0 k
      /\ (k = 0%nat \/ (0 <= base_delay)%Q))
  \/ (exists e,
        r = Raise e
        /\ (forall j, (j < retries)%nat -> exists e', fn j = Raise e')
        /\ log' = log ++ backoff_delays base_delay 0 retries
        /\ length (backoff_delays base_delay 0 retries) = retries
        /\ (retries = 0%nat /\ e = TypeError
            \/ (0 < retries)%nat /\ (0 <= base_delay)%Q
               /\ fn (retries - 1)%nat = Raise e))
  \/ ((base_delay < 0)%Q /\ (0 < retries)%nat
      /\ (exists e, fn 0%nat = Raise e)
      /\ r = Raise ValueError /\ log' = log).
Proof.
  unfold rpc_retry in Hrun.
  destruct (Qlt_le_dec base_delay 0) as [Hneg|Hnn].
  - destruct retries as [|t].
    + right. left. cbn in Hrun. unfold raise in Hrun. injection Hrun as <- <-.
      exists TypeError. rewrite app_nil_r.
      repeat split; trivial; [intros; lia|now left].
    + rewrite (retry_loop_negative fn Hneg) in Hrun.
      destruct (fn 0%nat) as [a|e] eqn:E0; injection Hrun as <- <-.
      * left. exists 0%nat, a. rewrite app_nil_r.
        repeat split; trivial; [lia|intros; lia|now left].
      * right. right. repeat split; trivial; [lia|now exists e].
  - destruct (retry_loop_outcomes fn Hnn retries 0 None log r log' Hrun)
      as [(k & a & -> & Hk & Hok & Hfail & ->)|(e & -> & Hfail & -> & Hlast)].
    + left. exists k, a. repeat split; trivial; [|now right].
      intros j Hj. apply Hfail. lia.
    + right. left. exists e. split; [reflexivity|].
      split; [intros j Hj; apply Hfail; lia|]. split; [reflexivity|]. split.
      * apply backoff_delays_length.
      * destruct retries as [|t]; [left; now split|right].
        split; [lia|]. split; [exact Hnn|]. cbn [Nat.add] in Hlast.
        now replace (S t - 1)%nat with t by lia.
Qed.

Lemma retry_loop_agree (fn fn' : nat -> result A) todo :
  forall i last_err log,
  (forall j, (i <= j < i + todo)%nat -> fn j = fn' j) ->
  retry_loop fn base_delay i todo last_err log =
  retry_loop fn' base_delay i todo last_err log.
Proof.
  induction todo as [|todo IH]; intros i last_err log H; [reflexivity|].
  cbn [retry_loop]. rewrite <- (H i) by lia.
  destruct (fn i); [reflexivity|]. unfold bind, sleep.
  destruct (Qle_bool _ _); [|reflexivity].
  apply IH. intros j Hj. apply H. lia.
Qed.

(** X4. [rpc_retry] looks at the first [retries] outcomes of the thunk
    and at nothing else: two thunks that agree on them are retried alike. *)
Theorem rpc_retry_bounded_attempts (fn fn' : nat -> result A)
  (retries : nat) (log : list Q)
  (Hagree : forall j, (j < retries)%nat -> fn j = fn' j) :
  rpc_retry fn retries base_delay log = rpc_retry fn' retries base_delay log.
Proof.
  unfold rpc_retry. apply retry_loop_agree. intros j Hj. apply Hagree. lia.
Qed.

Lemma total_backoff k : forall i,
  (total_delay (backoff_delays base_delay i k) ==
   base_delay * inject_Z (2 ^ Z.of_nat (i + k) - 2 ^ Z.of_nat i))%Q.
Proof.
  induction k as [|k IH]; intros i; cbn [backoff_delays total_delay fold_right].
  - rewrite Nat.add_0_r, Z.sub_diag. ring.
  - fold (total_delay (backoff_delays base_delay (S i) k)). rewrite IH.
    rewrite <- Qmult_plus_distr_r, <- inject_Z_plus.
    replace (S i + k)%nat with (i + S k)%nat by lia.
    replace (2 ^ Z.of_nat i + (2 ^ Z.of_nat (i + S k) - 2 ^ Z.of_nat (S i)))
      with (2 ^ Z.of_nat (i + S k) - 2 ^ Z.of_nat i); [reflexivity|].
    rewrite (Nat2Z.inj_succ i), Z.pow_succ_r by lia. lia.
Qed.

(** X5. When every attempt fails, with a base delay that is not
    negative and within the range of the delays that [float] and
    [time.sleep] take, [rpc_retry] has slept once per attempt, the last
    failure included, for [base_delay * (2 ** retries - 1)] in all, before
    it gives up: 63 base delays under the default of six attempts. *)
Theorem rpc_retry_gives_up_after (fn : nat -> result A) (retries : nat)
  (Hnn : (0 <= base_delay)%Q)
  (Hrange : within_sleep_range base_delay retries)
  (Hfail : forall j, (j < retries)%nat -> exists e, fn j = Raise e) :
  exists e ds,
    rpc_retry fn retries base_delay [] = (Raise e, ds)
    /\ length ds = retries
    /\ (total_delay ds == base_delay * inject_Z (2 ^ Z.of_nat retries - 1))%Q
    /\ (retries = default_retries ->
        (total_delay ds == base_delay * 63)%Q).
Proof.
  destruct (rpc_retry fn retries base_delay []) as [r ds] eqn:Hrun.
  unfold rpc_retry in Hrun.
  destruct (retry_loop_outcomes fn Hnn retries 0 None [] r ds Hrun)
    as [(k & a & -> & Hk & Hok & _)|(e & -> & _ & -> & _)].
  - destruct (Hfail k Hk) as [e He]. cbn [Nat.add] in Hok. congruence.
  - exists e, (backoff_delays base_delay 0 retries). cbn [app].
    split; [reflexivity|]. split.
    + apply backoff_delays_length.
    + split.
      * rewrite total_backoff. cbn [Nat.add]. reflexivity.
      * intros ->. rewrite total_backoff. reflexivity.
Qed.

End RpcRetryMore.

(** The theorems at a thunk that is rate limited five times and then
    answers, and at one that never answers. *)
Lemma default_within_sleep_range :
  within_sleep_range default_base_delay default_retries.
Proof. split; [unfold default_retries; lia|split; discriminate]. Defined.

Lemma rpc_retry_outcomes_witness :
  within_sleep_range default_base_delay 6 /\
  exists k,
    (k < 6)%nat
    /\ backoff_delays default_base_delay 0 5 =
       [] ++ backoff_delays default_base_delay 0 k.
Proof.
  split; [exact default_within_sleep_range|].
  destruct (rpc_retry_outcomes default_base_delay
              (fun i => if (i <? 5)%nat then Raise (RpcError "429") else Ok 6%N)
              6 [] (Ok 6%N) (backoff_delays default_base_delay 0 5)
              default_within_sleep_range eq_refl)
    as [(k & a & _ & Hk & _ & _ & Hlog & _)|[(e & He & _)|(_ & _ & _ & He & _)]].
  - exists k. split; [exact Hk|exact Hlog].
  - discriminate He.
  - discriminate He.
Defined.

(** A negative base delay: the first failure ends the call with the
    [ValueError] of [time.sleep], nothing having been slept. *)
Lemma rpc_retry_negative_delay :
  rpc_retry (fun _ => Raise (RpcError "429") : result N)
            default_retries (-1 # 1) [] = (Raise ValueError, []).
Proof. reflexivity. Qed.

Lemma rpc_retry_bounded_attempts_witness :
  rpc_retry (fun i => if (i <? 6)%nat then Raise (RpcError "429") else Ok 6%N)
            default_retries default_base_delay [] =
  rpc_retry (fun _ => Raise (RpcError "429") : result N)
            default_retries default_base_delay [].
Proof.
  apply rpc_retry_bounded_attempts. intros j Hj.
  unfold default_retries in Hj.
  destruct (Nat.ltb_spec j 6); [reflexivity|lia].
Defined.

Lemma rpc_retry_gives_up_after_witness :
  exists e ds,
    rpc_retry (fun _ => Raise (RpcError "429") : result N)
              default_retries default_base_delay [] = (Raise e, ds)
    /\ length ds = default_retries.
Proof.
  destruct (rpc_retry_gives_up_after default_base_delay
              (fun _ => Raise (RpcError "429") : result N) default_retries
              default_base_delay_nonneg default_within_sleep_range
              (fun j _ => ex_intro _ (RpcError "429") eq_refl))
    as (e & ds & H1 & H2 & _).
  exists e, ds. split; assumption.
Defined.

(** *** chunked, further *)

Section ChunkedMore.
Context {A : Type}.

(** X6. A chunk size of zero makes [chunked] raise ([range] refuses a
    zero step); a negative one makes it yield nothing at all, whatever
    the list; and the empty list yields no group for any other size,
    while a list that is not empty yields at least one group for a
    positive size. *)
Theorem chunked_degenerate_sizes (l : list A) (n : Z) :
  chunked l 0 = None
  /\ (n < 0 -> chunked l n = Some [])
  /\ (n <> 0 -> chunked (@nil A) n = Some [])
  /\ (0 < n -> l <> [] -> exists c cs, chunked l n = Some (c :: cs)).
Proof.
  split; [reflexivity|]. split; [|split].
  - intros Hn. unfold chunked, Py.range, Py.range_length.
    destruct (Z.eqb_spec n 0); [lia|].
    destruct (Z.ltb_spec 0 n); [lia|].
    destruct (Z.ltb_spec (Z.of_nat (length l)) 0); [lia|]. reflexivity.
  - intros Hn. unfold chunked, Py.range, Py.range_length. cbn [length Z.of_nat].
    destruct (Z.eqb_spec n 0); [contradiction|].
    destruct (0 <? n); reflexivity.
  - intros Hn Hl. rewrite chunked_pieces by exact Hn.
    destruct (range_length_bounds (Z.of_nat (length l)) n ltac:(lia) Hn)
      as (Hc0 & Hup & _ & _).
    assert (Hlen : (0 < length l)%nat) by (destruct l; [contradiction|cbn; lia]).
    destruct (Z.to_nat (Py.range_length 0 (Z.of_nat (length l)) n)) as [|count]
      eqn:E; [nia|].
    rewrite pieces_succ. eexists _, _. reflexivity.
Qed.

(** X7. For a positive chunk size [n], [chunked] yields
    [ceil(len(l) / n)] groups; a list of at most [n] items, if not
    empty, comes back as one group, itself. *)
Theorem chunked_group_count (l : list A) (n : Z) (Hn : 0 < n) :
  exists chunks,
    chunked l n = Some chunks
    /\ Z.of_nat (length chunks) = (Z.of_nat (length l) + n - 1) / n
    /\ (l <> [] -> Z.of_nat (length l) <= n -> chunks = [l]).
Proof.
  rewrite chunked_pieces by exact Hn. eexists. split; [reflexivity|].
  destruct (range_length_bounds (Z.of_nat (length l)) n ltac:(lia) Hn)
    as (Hc0 & Hup & Hlow & Hnil).
  set (count := Py.range_length 0 (Z.of_nat (length l)) n) in *.
  split.
  - unfold pieces. rewrite length_map, length_seq, Z2Nat.id by exact Hc0.
    destruct (Z.eq_dec (Z.of_nat (length l)) 0) as [E|E].
    + rewrite (Hnil E), E. symmetry. apply Z.div_small. lia.
    + specialize (Hlow ltac:(lia)).
      apply (Z.div_unique _ _ _ (Z.of_nat (length l) + n - 1 - count * n)); nia.
  - intros Hne Hle.
    assert (Hlen : 0 < Z.of_nat (length l))
      by (destruct l; [contradiction|cbn; lia]).
    specialize (Hlow Hlen).
    assert (Hone : count = 1) by nia.
    rewrite Hone. change (Z.to_nat 1) with 1%nat.
    unfold pieces. cbn [seq map Nat.mul skipn].
    now rewrite firstn_all2 by lia.
Qed.

End ChunkedMore.

(** The theorem at five items cut every two. *)
Lemma chunked_group_count_witness :
  exists chunks : list (list nat),
    chunked [1; 2; 3; 4; 5]%nat 2 = Some chunks
    /\ Z.of_nat (length chunks) = 3.
Proof.
  destruct (chunked_group_count [1; 2; 3; 4; 5]%nat 2 eq_refl)
    as (chunks & H1 & H2 & _).
  exists chunks. split; [exact H1|exact H2].
Defined.

(** *** get_usdc_nonzero_multicall, further *)

Lemma subseq_nil_l (X : Type) (l : list X) : subseq [] l.
Proof. induction l; constructor; assumption. Qed.

Lemma subseq_refl (X : Type) (l : list X) : subseq l l.
Proof. induction l; [constructor|now apply subseq_take]. Qed.

Lemma subseq_app (X : Type) (a b c d : list X) :
  subseq a b -> subseq c d -> subseq (a ++ c) (b ++ d).
Proof.
  intros Hab Hcd. induction Hab; cbn;
    [assumption|now apply subseq_skip|now apply subseq_take].
Qed.

Lemma subseq_trans (X : Type) (xs ys zs : list X) :
  subseq xs ys -> subseq ys zs -> subseq xs zs.
Proof.
  intros Hxy Hyz. revert xs Hxy.
  induction Hyz as [|z ys zs _ IH|z ys zs _ IH]; intros xs Hxy.
  - exact Hxy.
  - apply subseq_skip. now apply IH.
  - inversion Hxy; subst.
    + apply subseq_skip. now apply IH.
    + apply subseq_take. now apply IH.
Qed.

Lemma subseq_length (X : Type) (a b : list X) :
  subseq a b -> (length a <= length b)%nat.
Proof. induction 1; cbn; lia. Qed.

Lemma subseq_in (X : Type) (a b : list X) (x : X) :
  subseq a b -> In x a -> In x b.
Proof.
  induction 1 as [|y xs ys _ IH|y xs ys _ IH]; cbn; [tauto| |]; intuition.
Qed.

Lemma decode_pair_some decimals symbol addr r b :
  decode_pair decimals symbol addr r = Ok (Some b) ->
  bal_addr b = addr /\ 0 < bal_raw b < 2 ^ 256 /\ bal_symbol b = symbol
  /\ human_amount (bal_raw b) decimals = Ok (bal_human b).
Proof.
  unfold decode_pair. destruct r as [success ret].
  destruct (negb success || _); [discriminate|].
  pose proof (raw_below_2_256 ret) as Hrange.
  destruct (Z.ltb_spec 0 (Py.int_from_bytes_big (Py.slice ret (Some (-32)) None)))
    as [Hpos|]; [|discriminate].
  destruct (human_amount _ _) as [human|] eqn:E; [|discriminate].
  intros [= <-]. cbn. repeat split; trivial; lia.
Qed.

(** What one pass of the decode loop adds to the records. *)
Lemma decode_loop_adds decimals symbol batch :
  forall (results : list call_result) nonzero out,
  decode_loop decimals symbol (Py.zip batch results) nonzero = Ok out ->
  exists new,
    out = nonzero ++ new
    /\ subseq (map bal_addr new) batch
    /\ Forall (fun b => 0 < bal_raw b < 2 ^ 256) new.
Proof.
  induction batch as [|addr batch IH]; intros results nonzero out H.
  - cbn in H. injection H as <-. exists []. rewrite app_nil_r.
    repeat split; constructor.
  - destruct results as [|r results].
    + cbn in H. injection H as <-. exists []. rewrite app_nil_r.
      repeat split; [apply subseq_nil_l|constructor].
    + cbn [Py.zip decode_loop] in H.
      destruct (decode_pair decimals symbol addr r) as [[b|]|] eqn:E;
        [| |discriminate].
      * destruct (IH _ _ _ H) as (new & -> & Hsub & Hall).
        destruct (decode_pair_some _ _ _ _ _ E) as (Ha & Hr & _).
        exists (b :: new). rewrite <- app_assoc. split; [reflexivity|].
        split; [cbn; rewrite Ha; now apply subseq_take|now constructor].
      * destruct (IH _ _ _ H) as (new & -> & Hsub & Hall).
        exists new. repeat split; trivial. now apply subseq_skip.
Qed.

Section FetchMore.
Variable kd : string -> nat -> Z.
Variable cd : string -> string.

Lemma batch_loop_adds env decimals symbol batches :
  forall idx nonzero log out log',
  batch_loop kd cd env decimals symbol idx batches nonzero log = (Ok out, log') ->
  exists new,
    out = nonzero ++ new
    /\ subseq (map bal_addr new) (concat batches)
    /\ Forall (fun b => 0 < bal_raw b < 2 ^ 256) new.
Proof.
  induction batches as [|batch batches IH]; intros idx nonzero log out log' H.
  - cbn in H. injection H as <- _. exists []. rewrite app_nil_r.
    repeat split; constructor.
  - apply batch_loop_step in H as (calls & results & log1 & nonzero' & _ & _ & E & H).
    destruct (decode_loop_adds _ _ _ _ _ _ E) as (new1 & -> & Hs1 & Ha1).
    destruct (IH _ _ _ _ _ H) as (new2 & -> & Hs2 & Ha2).
    exists (new1 ++ new2). rewrite <- app_assoc. split; [reflexivity|].
    split; [|now apply Forall_app].
    rewrite map_app. cbn [concat]. now apply subseq_app.
Qed.

Lemma chunked_concat_subseq (X : Type) (l : list X) n batches :
  chunked l n = Some batches -> subseq (concat batches) l.
Proof.
  intros H. destruct (Z.lt_trichotomy n 0) as [Hn|[->|Hn]].
  - unfold chunked, Py.range, Py.range_length in H.
    destruct (Z.eqb_spec n 0); [lia|].
    destruct (Z.ltb_spec 0 n); [lia|].
    destruct (Z.ltb_spec (Z.of_nat (length l)) 0); [lia|].
    injection H as <-. apply subseq_nil_l.
  - discriminate H.
  - rewrite chunked_pieces in H by exact Hn. injection H as <-.
    destruct (range_length_bounds (Z.of_nat (length l)) n ltac:(lia) Hn)
      as (Hc0 & Hup & _).
    rewrite concat_pieces by nia. apply subseq_refl.
Qed.

Lemma decode_loop_humans decimals symbol pairs : forall nonzero out,
  decode_loop decimals symbol pairs nonzero = Ok out ->
  Forall (fun b => exists h, bal_human b = Dec.str h) nonzero ->
  Forall (fun b => exists h, bal_human b = Dec.str h) out.
Proof.
  induction pairs as [|[addr r] pairs IH]; intros nonzero out H Hall.
  - cbn in H. now injection H as <-.
  - cbn [decode_loop] in H.
    destruct (decode_pair decimals symbol addr r) as [[b|]|] eqn:E;
      [| |discriminate].
    + apply (IH _ _ H). apply Forall_app. split; [exact Hall|].
      constructor; [|constructor].
      destruct (decode_pair_some _ _ _ _ _ E) as (_ & _ & _ & Hh).
      unfold human_amount in Hh.
      destruct (human_decimal _ _) as [h|]; [|discriminate].
      exists h. congruence.
    + now apply (IH _ _ H).
Qed.

Lemma batch_loop_humans env decimals symbol batches :
  forall idx nonzero log out log',
  batch_loop kd cd env decimals symbol idx batches nonzero log = (Ok out, log') ->
  Forall (fun b => exists h, bal_human b = Dec.str h) nonzero ->
  Forall (fun b => exists h, bal_human b = Dec.str h) out.
Proof.
  induction batches as [|batch batches IH]; intros idx nonzero log out log' H Hall.
  - cbn in H. now injection H as <- _.
  - apply batch_loop_step in H as (calls & results & log1 & nonzero' & _ & _ & E & H).
    apply (IH _ _ _ _ _ H). eapply decode_loop_humans; eassumption.
Qed.

(** What every returned record is: its address is one of the input, in
    order, and its amount is the display string of a decimal. *)
Lemma fetch_records env addresses chunk_size log out log' :
  get_usdc_nonzero_multicall kd cd env addresses chunk_size log
    = (Ok out, log') ->
  subseq (map bal_addr out) addresses
  /\ Forall (fun b => exists h, bal_human b = Dec.str h) out.
Proof.
  intros Hrun.
  unfold get_usdc_nonzero_multicall in Hrun. unfold bind at 1 in Hrun.
  destruct (rpc_retry (decimals_call env) _ _ log) as [[decimals|e] log1];
    [|discriminate].
  unfold bind at 1 in Hrun.
  destruct (try_except _ _ log1) as [[symbol|e] log2]; [|discriminate].
  unfold scan_batches, bind at 1, lift in Hrun.
  destruct (chunked addresses chunk_size) as [batches|] eqn:Ech; [|discriminate].
  split.
  - destruct (batch_loop_adds _ _ _ _ _ _ _ _ _ Hrun) as (new & -> & Hsub & _).
    cbn [app].
    eapply subseq_trans; [exact Hsub|eapply chunked_concat_subseq, Ech].
  - eapply batch_loop_humans; [exact Hrun|constructor].
Qed.

(** X8. The records [get_usdc_nonzero_multicall] returns follow the
    order of the addresses it was given: their addresses are the input
    with some items left out, so there are no more records than
    addresses.  Every record has a raw amount that is positive and fits
    256 bits, and all records carry one and the same symbol. *)
Theorem fetch_keeps_order (env : rpc_env) (addresses : list string)
  (chunk_size : Z) (log : list Q) (out : list balance) (log' : list Q)
  (Hrun : get_usdc_nonzero_multicall kd cd env addresses chunk_size log
          = (Ok out, log')) :
  subseq (map bal_addr out) addresses
  /\ (length out <= length addresses)%nat
  /\ Forall (fun b => 0 < bal_raw b < 2 ^ 256) out
  /\ exists symbol, Forall (fun b => bal_symbol b = symbol) out.
Proof.
  unfold get_usdc_nonzero_multicall in Hrun. unfold bind at 1 in Hrun.
  destruct (rpc_retry (decimals_call env) _ _ log) as [[decimals|e] log1];
    [|discriminate].
  unfold bind at 1 in Hrun.
  destruct (try_except _ _ log1) as [[symbol|e] log2]; [|discriminate].
  unfold scan_batches, bind at 1, lift in Hrun.
  destruct (chunked addresses chunk_size) as [batches|] eqn:Ech; [|discriminate].
  destruct (batch_loop_adds _ _ _ _ _ _ _ _ _ Hrun) as (new & -> & Hsub & Hall).
  cbn [app].
  assert (Hs : subseq (map bal_addr new) addresses)
    by (eapply subseq_trans; [exact Hsub|eapply chunked_concat_subseq, Ech]).
  split; [exact Hs|]. split.
  - rewrite <- (length_map bal_addr). now apply subseq_length.
  - split; [exact Hall|]. exists symbol.
    eapply batch_loop_symbol; [exact Hrun|constructor].
Qed.

(** X9. With a negative chunk size [get_usdc_nonzero_multicall] returns
    no record at all, whatever the addresses and whatever the aggregator
    would answer; with a chunk size of zero it never returns: once the
    token metadata is there it raises [ValueError]. *)
Theorem fetch_degenerate_chunk (env : rpc_env) (addresses : list string)
  (log : list Q) :
  (forall n out log',
     n < 0 ->
     get_usdc_nonzero_multicall kd cd env addresses n log = (Ok out, log') ->
     out = [])
  /\ (forall out log',
        get_usdc_nonzero_multicall kd cd env addresses 0 log <> (Ok out, log'))
  /\ (forall decimals,
        decimals_call env 0%nat = Ok decimals ->
        (forall n, n < 0 ->
           fst (get_usdc_nonzero_multicall kd cd env addresses n log) = Ok [])
        /\ fst (get_usdc_nonzero_multicall kd cd env addresses 0 log)
           = Raise ValueError).
Proof.
  assert (Hneg : forall n, n < 0 -> chunked addresses n = Some []).
  { intros n Hn. unfold chunked, Py.range, Py.range_length.
    destruct (Z.eqb_spec n 0); [lia|].
    destruct (Z.ltb_spec 0 n); [lia|].
    destruct (Z.ltb_spec (Z.of_nat (length addresses)) 0); [lia|]. reflexivity. }
  split; [|split].
  - intros n out log' Hn Hrun.
    unfold get_usdc_nonzero_multicall in Hrun. unfold bind at 1 in Hrun.
    destruct (rpc_retry (decimals_call env) _ _ log) as [[decimals|e] log1];
      [|discriminate].
    unfold bind at 1 in Hrun.
    destruct (try_except _ _ log1) as [[symbol|e] log2]; [|discriminate].
    unfold scan_batches, bind, lift in Hrun. rewrite (Hneg n Hn) in Hrun.
    cbn in Hrun. now injection Hrun as <- _.
  - intros out log' Hrun.
    unfold get_usdc_nonzero_multicall in Hrun. unfold bind at 1 in Hrun.
    destruct (rpc_retry (decimals_call env) _ _ log) as [[decimals|e] log1];
      [|discriminate].
    unfold bind at 1 in Hrun.
    destruct (try_except _ _ log1) as [[symbol|e] log2]; [|discriminate].
    discriminate Hrun.
  - intros decimals Hd.
    assert (Hdec : rpc_retry (decimals_call env) default_retries
                             default_base_delay log = (Ok decimals, log)).
    { unfold rpc_retry, default_retries. cbn [retry_loop]. now rewrite Hd. }
    assert (Hsym : exists symbol log2,
               try_except (rpc_retry (symbol_call env) default_retries
                                     default_base_delay)
                          (fun _ => ret "USDC") log = (Ok symbol, log2)).
    { unfold try_except.
      destruct (rpc_retry (symbol_call env) _ _ log) as [[symbol|e] log2];
        eexists _, _; reflexivity. }
    destruct Hsym as (symbol & log2 & Hsym).
    split.
    + intros n Hn. unfold get_usdc_nonzero_multicall. unfold bind at 1.
      rewrite Hdec. unfold bind at 1. rewrite Hsym.
      unfold scan_batches, bind, lift. now rewrite (Hneg n Hn).
    + unfold get_usdc_nonzero_multicall. unfold bind at 1.
      rewrite Hdec. unfold bind at 1. rewrite Hsym. reflexivity.
Qed.

(** X10. When every attempt of the aggregate call for a batch fails, the
    loop over the batches raises the error of the last attempt, after the
    six sleeps of the retries: the records gathered from the batches
    before it are dropped and the batches after it are not sent. *)
Theorem failed_batch_aborts (env : rpc_env) (decimals : N) (symbol : string)
  (idx : nat) (batch : list string) (rest : list (list string))
  (nonzero : list balance) (log : list Q) (errs : nat -> exn)
  (calls : list call)
  (Hcalls : build_calls kd cd batch = Ok calls)
  (Hfail : forall j, (j < default_retries)%nat ->
             aggregate3_call env idx calls j = Raise (errs j)) :
  batch_loop kd cd env decimals symbol idx (batch :: rest) nonzero log =
  (Raise (errs 5%nat), log ++ backoff_delays default_base_delay 0 6).
Proof.
  cbn [batch_loop]. unfold bind at 1, lift at 1. rewrite Hcalls.
  unfold bind at 1, rpc_retry.
  rewrite (retry_loop_exhausted _ _ default_base_delay_nonneg default_retries 0 None log errs)
    by (intros; apply Hfail; unfold default_retries in *; lia).
  reflexivity.
Qed.

Lemma batch_loop_quiet env decimals symbol batches :
  (forall idx calls, exists rs, aggregate3_call env idx calls 0%nat = Ok rs) ->
  forall idx nonzero log,
  snd (batch_loop kd cd env decimals symbol idx batches nonzero log) = log.
Proof.
  intros Hagg. induction batches as [|batch batches IH]; intros idx nonzero log.
  - reflexivity.
  - cbn [batch_loop]. unfold bind at 1, lift at 1.
    destruct (build_calls kd cd batch) as [calls|e]; [|reflexivity].
    unfold bind at 1, rpc_retry, default_retries.
    cbn [retry_loop].
    destruct (Hagg idx calls) as [rs ->].
    unfold ret, bind at 1, lift.
    destruct (decode_loop _ _ _ _); [apply IH|reflexivity].
Qed.

(** X11. A run in which every RPC call answers at its first attempt
    never sleeps. *)
Theorem quiet_fetch_never_sleeps (env : rpc_env) (addresses : list string)
  (chunk_size : Z) (log : list Q) (decimals : N) (symbol : string)
  (Hdec : decimals_call env 0%nat = Ok decimals)
  (Hsym : symbol_call env 0%nat = Ok symbol)
  (Hagg : forall idx calls, exists rs,
            aggregate3_call env idx calls 0%nat = Ok rs) :
  snd (get_usdc_nonzero_multicall kd cd env addresses chunk_size log) = log.
Proof.
  unfold get_usdc_nonzero_multicall. unfold bind at 1.
  unfold rpc_retry at 1, default_retries. cbn [retry_loop]. rewrite Hdec.
  unfold ret at 1. unfold bind at 1, try_except.
  unfold rpc_retry at 1. cbn [retry_loop]. rewrite Hsym. unfold ret at 1.
  unfold scan_batches, bind at 1, lift.
  destruct (chunked addresses chunk_size); [|reflexivity].
  now apply batch_loop_quiet.
Qed.

(** X17. The token metadata is fetched once and used throughout: when
    the decimals and the symbol come back, after however many failed
    attempts below the maximum, every record returned carries that very
    symbol, and the run has slept for those failed attempts before the
    first batch is sent. *)
Theorem fetched_symbol_is_used (env : rpc_env) (addresses : list string)
  (chunk_size : Z) (log : list Q) (kdec ksym : nat) (decimals : N)
  (symbol : string)
  (Hdfail : forall j, (j < kdec)%nat -> exists e, decimals_call env j = Raise e)
  (Hdec : decimals_call env kdec = Ok decimals)
  (Hkdec : (kdec < default_retries)%nat)
  (Hsfail : forall j, (j < ksym)%nat -> exists e, symbol_call env j = Raise e)
  (Hsym : symbol_call env ksym = Ok symbol)
  (Hksym : (ksym < default_retries)%nat) :
  get_usdc_nonzero_multicall kd cd env addresses chunk_size log =
  scan_batches kd cd env decimals symbol addresses chunk_size
    ((log ++ backoff_delays default_base_delay 0 kdec)
       ++ backoff_delays default_base_delay 0 ksym)
  /\ (forall out log',
        get_usdc_nonzero_multicall kd cd env addresses chunk_size log
          = (Ok out, log') ->
        Forall (fun b => bal_symbol b = symbol) out).
Proof.
  assert (E : get_usdc_nonzero_multicall kd cd env addresses chunk_size log =
              scan_batches kd cd env decimals symbol addresses chunk_size
                ((log ++ backoff_delays default_base_delay 0 kdec)
                   ++ backoff_delays default_base_delay 0 ksym)).
  { unfold get_usdc_nonzero_multicall, bind at 1, rpc_retry.
    rewrite (retry_loop_succeeds _ _ default_base_delay_nonneg kdec 0 default_retries None log decimals);
      trivial; [|intros; apply Hdfail; lia].
    unfold bind at 1, try_except, rpc_retry.
    rewrite (retry_loop_succeeds _ _ default_base_delay_nonneg ksym 0 default_retries None _ symbol);
      trivial. intros; apply Hsfail; lia. }
  split; [exact E|].
  intros out log' Hrun. rewrite E in Hrun.
  unfold scan_batches, bind, lift in Hrun.
  destruct (chunked addresses chunk_size) as [bs|]; [|discriminate].
  eapply batch_loop_symbol; [exact Hrun|constructor].
Qed.

End FetchMore.

(** X12. Of a payload longer than 32 bytes the decode step reads the
    last 32 only: whatever stands before them changes nothing. *)
Theorem decode_reads_last_32_bytes (decimals : N) (symbol addr : string)
  (success : bool) (pre ret : Py.bytes) (Hlen : length ret = 32%nat) :
  decode_pair decimals symbol addr (success, pre ++ ret) =
  decode_pair decimals symbol addr (success, ret).
Proof.
  unfold decode_pair. rewrite !slice_last_32.
  assert (E1 : skipn (length (pre ++ ret) - 32) (pre ++ ret) = ret).
  { rewrite length_app, Hlen.
    replace (length pre + 32 - 32)%nat with (length pre) by lia.
    rewrite skipn_app, skipn_all, Nat.sub_diag. reflexivity. }
  assert (E2 : skipn (length ret - 32) ret = ret)
    by (rewrite Hlen; reflexivity).
  rewrite E1, E2.
  destruct ret as [|b ret']; [discriminate Hlen|].
  now destruct pre.
Qed.

(** The theorems at the sample token. *)
Lemma fetch_keeps_order_witness :
  subseq [Sample.address_c] [Sample.address_c].
Proof.
  exact (proj1 (fetch_keeps_order Sample.digest Sample.calldata
                  (Sample.env 1500000) [Sample.address_c] 250 []
                  [mk_balance Sample.address_c 1500000 "1.5" "USDC"]
                  (backoff_delays default_base_delay 0 6) eq_refl)).
Defined.

Lemma failed_batch_aborts_witness :
  fst (batch_loop Sample.digest Sample.calldata
         (mk_rpc_env (fun _ => Ok 6%N) (fun _ => Ok "USDC")
                     (fun _ _ _ => Raise (RpcError "503")))
         6 "USDC" 0 [[Sample.address_c]]
         [mk_balance Sample.address_c 1 "0.000001" "USDC"] [])
  = Raise (RpcError "503").
Proof.
  rewrite (failed_batch_aborts Sample.digest Sample.calldata _ _ _ _ _ _ _ _
             (fun _ => RpcError "503")
             [(USDC_BASE Sample.digest, true, Sample.calldata Sample.address_c)]);
    [reflexivity|reflexivity|].
  intros j Hj. reflexivity.
Defined.

Lemma quiet_fetch_never_sleeps_witness :
  snd (get_usdc_nonzero_multicall Sample.digest Sample.calldata
         (mk_rpc_env (fun _ => Ok 6%N) (fun _ => Ok "USDC")
                     (fun _ calls _ =>
                        Ok (map (fun _ => (true, Sample.uint256 1)) calls)))
         [Sample.address_c] 250 []) = [].
Proof.
  apply (quiet_fetch_never_sleeps Sample.digest Sample.calldata _ _ _ _
           6%N "USDC"); [reflexivity|reflexivity|].
  intros idx calls. eexists. reflexivity.
Defined.

Lemma decode_reads_last_32_bytes_witness :
  decode_pair 6 "USDC" Sample.address_c
              (true, [Byte.xff] ++ Sample.uint256 1500000) =
  decode_pair 6 "USDC" Sample.address_c (true, Sample.uint256 1500000).
Proof.
  apply decode_reads_last_32_bytes. reflexivity.
Defined.

Lemma fetched_symbol_is_used_witness :
  Forall (fun b => bal_symbol b = "USDbC")
         [mk_balance Sample.address_c 1 "0.000001" "USDbC"].
Proof.
  refine (proj2 (fetched_symbol_is_used Sample.digest Sample.calldata
                   (mk_rpc_env
                      (fun _ => Ok 6%N)
                      (fun i => if (i <? 2)%nat then Raise (RpcError "429")
                                else Ok "USDbC")
                      (fun _ calls _ =>
                         Ok (map (fun _ => (true, Sample.uint256 1)) calls)))
                   [Sample.address_c] 250 [] 0 2 6%N "USDbC" _ eq_refl _ _
                   eq_refl _)
            _ (backoff_delays default_base_delay 0 2) _).
  - intros j Hj. lia.
  - unfold default_retries. lia.
  - intros j Hj. destruct j as [|[|j]]; [eexists; reflexivity ..|lia].
  - unfold default_retries. lia.
  - vm_compute. reflexivity.
Defined.

(** *** to_checksum_addresses, further *)

Section ValidationMore.
Variable kd : string -> nat -> Z.

Lemma filter_split_length (X : Type) (f : X -> bool) (l : list X) :
  (length (filter f l) + length (filter (fun x => negb (f x)) l))%nat = length l.
Proof.
  induction l as [|x l IH]; [reflexivity|]. cbn.
  destruct (f x); cbn; lia.
Qed.

Lemma Forall2_same_length (X Y : Type) (R : X -> Y -> Prop) xs ys :
  Forall2 R xs ys -> length xs = length ys.
Proof. induction 1; cbn; congruence. Qed.

Lemma checksum_loop_fixed l :
  Forall (fun c => is_address c = true /\ to_checksum_address kd c = Ok c) l ->
  forall ok bad, checksum_loop kd l ok bad = Ok (ok ++ l, bad).
Proof.
  induction 1 as [|c l [Hv Hc] _ IH]; intros ok bad; cbn [checksum_loop].
  - now rewrite app_nil_r.
  - rewrite Hv, Hc, IH, <- app_assoc. reflexivity.
Qed.

(** The two lists of [to_checksum_addresses] and what holds of the
    first. *)
Lemma validation_lists addrs :
  exists ok,
    to_checksum_addresses kd addrs =
      Ok (ok, filter (fun a => negb (is_address a)) addrs)
    /\ length ok = length (filter is_address addrs)
    /\ Forall (fun c => is_address c = true
                        /\ to_checksum_address kd c = Ok c) ok.
Proof.
  destruct (checksum_loop_spec kd addrs [] []) as (ok & Hloop & Hall).
  exists ok. split; [exact Hloop|].
  split; [symmetry; eapply Forall2_same_length, Hall|].
  apply Forall_forall. intros c Hc.
  destruct (Forall2_in_right _ _ _ _ _ c Hall Hc) as (a & Ha & Hac).
  apply filter_In in Ha as [_ Ha].
  destruct (checksum_form_fixed kd a c Ha Hac) as (_ & Hfix & Hc').
  now split.
Qed.

(** X13. [to_checksum_addresses] always returns, and every input string
    lands in exactly one of its two lists: their lengths add up to the
    length of the input.  Validating the list of valid addresses again
    changes nothing: all of it is valid, in the same form. *)
Theorem validation_partitions_and_is_stable (addrs : list string) :
  exists ok bad,
    to_checksum_addresses kd addrs = Ok (ok, bad)
    /\ (length ok + length bad)%nat = length addrs
    /\ to_checksum_addresses kd ok = Ok (ok, []).
Proof.
  destruct (validation_lists addrs) as (ok & Hrun & Hlen & Hall).
  eexists ok, _. split; [exact Hrun|]. split.
  - rewrite Hlen. apply filter_split_length.
  - unfold to_checksum_addresses. now rewrite checksum_loop_fixed.
Qed.

End ValidationMore.

(** *** main, further *)

Lemma digits_aux_all_digits fuel : forall n acc,
  Py.string_forallb Py.is_digit (Py.digits_aux fuel n acc) =
  Py.string_forallb Py.is_digit acc.
Proof.
  induction fuel as [|fuel IH]; intros n acc; [reflexivity|].
  cbn [Py.digits_aux].
  pose proof (Z.mod_pos_bound n 10 ltac:(lia)) as Hm.
  destruct (digit_char_spec (n mod 10) ltac:(lia)) as [Hd _].
  destruct (n / 10 =? 0).
  - cbn [Py.string_forallb]. now rewrite Hd.
  - rewrite IH. cbn [Py.string_forallb]. now rewrite Hd.
Qed.

Lemma digits_are_numeral s :
  Py.string_forallb Py.is_digit s = true ->
  Py.string_forallb is_numeral_char s = true.
Proof.
  induction s as [|c s IH]; cbn [Py.string_forallb]; [reflexivity|].
  intros H. apply andb_prop in H as [Hc Hs].
  rewrite (IH Hs). unfold is_numeral_char. now rewrite Hc.
Qed.

Lemma str_nat_numeral n : Py.string_forallb is_numeral_char (Py.str_nat n) = true.
Proof.
  apply digits_are_numeral. unfold Py.str_nat. now rewrite digits_aux_all_digits.
Qed.

Lemma format_signed_numeral z :
  Py.string_forallb is_numeral_char (Dec.format_signed z) = true.
Proof.
  unfold Dec.format_signed, Py.str_int.
  destruct (z <? 0); cbn [append Py.string_forallb];
    rewrite str_nat_numeral; reflexivity.
Qed.

Lemma repeat_zero_numeral k :
  Py.string_forallb is_numeral_char (Py.repeat_char "0" k) = true.
Proof. apply digits_are_numeral, repeat_zero_digits. Qed.

(** The display string of a decimal is made of digits, a point, an [E]
    and signs. *)
Lemma str_numeral d : Py.string_forallb is_numeral_char (Dec.str d) = true.
Proof.
  unfold Dec.str.
  pose proof (str_nat_numeral (Dec.coeff d)) as Hn.
  repeat match goal with
         | |- context [if ?b then _ else _] => destruct b
         end;
    rewrite ?forallb_append, ?Hn, ?repeat_zero_numeral,
            ?format_signed_numeral, ?substring_digits by exact Hn;
    reflexivity.
Qed.

Lemma absent_forallb c s :
  occurs c s = false ->
  Py.string_forallb (fun a => negb (Ascii.eqb a c)) s = true.
Proof.
  unfold occurs.
  induction s as [|a s IH]; cbn [Py.string_existsb Py.string_forallb];
    [reflexivity|].
  intros H. apply orb_false_elim in H as [Ha Hs].
  rewrite (IH Hs), andb_true_r, Ascii.eqb_sym. now rewrite Ha.
Qed.

Lemma numeral_no_space s :
  Py.string_forallb is_numeral_char s = true -> occurs " " s = false.
Proof.
  unfold occurs.
  induction s as [|a s IH]; cbn [Py.string_existsb Py.string_forallb];
    [reflexivity|].
  intros H. apply andb_prop in H as [Ha Hs]. rewrite (IH Hs), orb_false_r.
  destruct (Ascii.eqb_spec " "%char a) as [<-|]; [discriminate Ha|reflexivity].
Qed.

Lemma hex_no_comma s :
  Py.string_forallb is_hex_digit s = true -> occurs "," s = false.
Proof.
  unfold occurs.
  induction s as [|a s IH]; cbn [Py.string_existsb Py.string_forallb];
    [reflexivity|].
  intros H. apply andb_prop in H as [Ha Hs]. rewrite (IH Hs), orb_false_r.
  destruct (Ascii.eqb_spec ","%char a) as [<-|]; [discriminate Ha|reflexivity].
Qed.

Lemma hex_address_no_comma s : is_hex_address s = true -> occurs "," s = false.
Proof.
  intros H.
  destruct (hex_address_cases s H) as [[Hh _]|(p & t & Hp & -> & Hh)];
    unfold hex40 in Hh; apply andb_prop in Hh as [_ Hh];
    apply hex_no_comma in Hh.
  - exact Hh.
  - unfold occurs in *. cbn [Py.string_existsb]. rewrite Hh.
    destruct Hp as [-> | ->]; reflexivity.
Qed.

(** A report line reads back as its three parts when the address has no
    comma and the amount no space. *)
Lemma parse_report_line_of b :
  occurs "," (bal_addr b) = false -> occurs " " (bal_human b) = false ->
  parse_report_line (report_line b) =
  Some (bal_addr b, bal_human b, bal_symbol b).
Proof.
  intros Ha Hh. unfold parse_report_line, report_line.
  change ("," ++ bal_human b ++ " " ++ bal_symbol b)%string
    with (String "," (bal_human b ++ String " " (bal_symbol b))).
  rewrite split_at_first by now apply absent_forallb.
  rewrite split_at_first by now apply absent_forallb.
  reflexivity.
Qed.

(** *** Lines of standard output *)

Lemma occurs_append c (a b : string) :
  occurs c (a ++ b)%string = occurs c a || occurs c b.
Proof.
  unfold occurs. induction a as [|x a IH]; cbn; [reflexivity|].
  now rewrite IH, orb_assoc.
Qed.

Lemma forallb_excludes (f : ascii -> bool) c s :
  Py.string_forallb f s = true -> f c = false -> occurs c s = false.
Proof.
  unfold occurs. intros H Hc.
  induction s as [|a s IH]; cbn [Py.string_existsb Py.string_forallb] in *;
    [reflexivity|].
  apply andb_prop in H as [Ha Hs]. rewrite (IH Hs), orb_false_r.
  destruct (Ascii.eqb_spec c a) as [<-|]; [congruence|reflexivity].
Qed.

Lemma numeral_no_newline s :
  Py.string_forallb is_numeral_char s = true -> occurs Py.newline s = false.
Proof. intros H. now apply (forallb_excludes is_numeral_char). Qed.

Lemma hex_address_no_newline s :
  is_hex_address s = true -> occurs Py.newline s = false.
Proof.
  intros H.
  destruct (hex_address_cases s H) as [[Hh _]|(p & t & Hp & -> & Hh)];
    unfold hex40 in Hh; apply andb_prop in Hh as [_ Hh];
    apply (forallb_excludes _ Py.newline) in Hh; try reflexivity.
  - exact Hh.
  - unfold occurs in *. cbn [Py.string_existsb]. rewrite Hh.
    destruct Hp as [-> | ->]; reflexivity.
Qed.

Lemma report_line_no_newline b :
  occurs Py.newline (bal_addr b) = false ->
  occurs Py.newline (bal_human b) = false ->
  occurs Py.newline (bal_symbol b) = false ->
  occurs Py.newline (report_line b) = false.
Proof.
  intros Ha Hh Hs. unfold report_line.
  now rewrite !occurs_append, Ha, Hh, Hs.
Qed.

Lemma concat_cons (x : string) (l : list string) :
  String.concat EmptyString (x :: l) = (x ++ String.concat EmptyString l)%string.
Proof. destruct l; cbn; [now rewrite append_nil_r|reflexivity]. Qed.

(** A text without a line feed, followed by one, is one more line. *)
Lemma lines_from_line t : forall rest line,
  occurs Py.newline t = false ->
  Py.lines_from (t ++ String Py.newline rest) line =
  (line ++ t)%string :: Py.lines_from rest EmptyString.
Proof.
  unfold occurs.
  induction t as [|c t IH]; intros rest line H.
  - cbn. now rewrite append_nil_r.
  - cbn [Py.string_existsb] in H. apply orb_false_elim in H as [Hc Ht].
    cbn [append Py.lines_from]. rewrite Ascii.eqb_sym, Hc.
    rewrite IH by exact Ht. now rewrite append_assoc_s.
Qed.

Lemma lines_of_print texts :
  Forall (fun t => occurs Py.newline t = false) texts ->
  Py.lines_of (Py.print_text texts) = texts.
Proof.
  unfold Py.lines_of, Py.print_text.
  induction 1 as [|t texts Ht _ IH]; [reflexivity|].
  cbn [map]. rewrite concat_cons, append_assoc_s.
  cbn [append]. rewrite lines_from_line by exact Ht.
  cbn [append]. now rewrite IH.
Qed.

Lemma lines_from_text t : forall rest line,
  length (Py.lines_from (t ++ String Py.newline rest) line) =
  (line_feeds t + S (length (Py.lines_from rest EmptyString)))%nat.
Proof.
  induction t as [|c t IH]; intros rest line.
  - cbn. reflexivity.
  - cbn [append Py.lines_from line_feeds].
    destruct (Ascii.eqb c Py.newline).
    + cbn [length]. rewrite IH. lia.
    + rewrite IH. lia.
Qed.

Lemma lines_of_print_length texts :
  length (Py.lines_of (Py.print_text texts)) =
  fold_right (fun t n => (S (line_feeds t) + n)%nat) 0%nat texts.
Proof.
  unfold Py.lines_of, Py.print_text.
  induction texts as [|t texts IH]; [reflexivity|].
  cbn [map fold_right]. rewrite concat_cons, append_assoc_s.
  cbn [append]. rewrite lines_from_text, IH. lia.
Qed.

Lemma occurs_line_feeds t :
  occurs Py.newline t = true -> (0 < line_feeds t)%nat.
Proof.
  unfold occurs.
  induction t as [|c t IH]; cbn [Py.string_existsb line_feeds]; [discriminate|].
  rewrite Ascii.eqb_sym. destruct (Ascii.eqb c Py.newline); [lia|exact IH].
Qed.

Lemma line_feeds_add_lines texts :
  (exists t, In t texts /\ occurs Py.newline t = true) ->
  (length texts <
   fold_right (fun t n => (S (line_feeds t) + n)%nat) 0%nat texts)%nat.
Proof.
  intros (t & Hin & Hnl).
  assert (Hle : forall l,
            (length l <= fold_right (fun t n => (S (line_feeds t) + n)%nat)
                                    0%nat l)%nat).
  { induction l as [|x l IH]; cbn [length fold_right]; lia. }
  induction texts as [|x texts IH]; [contradiction|].
  cbn [length fold_right]. destruct Hin as [->|Hin].
  - apply occurs_line_feeds in Hnl. specialize (Hle texts). lia.
  - specialize (IH Hin). lia.
Qed.

Section MainMore.
Variable kd : string -> nat -> Z.
Variable cd : string -> string.

(** What [main] leaves behind, by the step it stops at. *)
Lemma main_cases a w :
  (status (main kd cd a w) <> Completed
   /\ files (main kd cd a w) = []
   /\ (stdout (main kd cd a w) = []
       \/ exists nonzero, fetched kd cd a w nonzero
                          /\ stdout (main kd cd a w) = map report_line nonzero
                          /\ out a <> EmptyString))
  \/ (exists nonzero,
        fetched kd cd a w nonzero
        /\ status (main kd cd a w) = Completed
        /\ stdout (main kd cd a w) = map report_line nonzero
        /\ files (main kd cd a w) =
           (if String.eqb (out a) EmptyString then []
            else [(out a, csv_text nonzero)])).
Proof.
  unfold fetched. remember (main kd cd a w) as r eqn:Er. unfold main in Er.
  destruct (is_connected w) eqn:Hc; cbn [negb] in Er;
    [|subst r; left; cbn; repeat split; [discriminate|now left]].
  destruct (load_addresses w (addresses_file a)) as [raw|e] eqn:Hl;
    [|subst r; left; cbn; repeat split; [discriminate|now left]].
  destruct (to_checksum_addresses kd raw) as [[addrs bad]|e] eqn:Hk;
    [|subst r; left; cbn; repeat split; [discriminate|now left]].
  destruct (get_usdc_nonzero_multicall kd cd (endpoint w) addrs (chunk a) [])
    as [[nonzero|e] log] eqn:Hg;
    [|subst r; left; cbn; repeat split; [discriminate|now left]].
  assert (Hf : true = true /\
               exists raw_addrs addrs0 bad0 log0,
                 Ok raw = Ok raw_addrs
                 /\ to_checksum_addresses kd raw_addrs = Ok (addrs0, bad0)
                 /\ get_usdc_nonzero_multicall kd cd (endpoint w) addrs0
                      (chunk a) [] = (Ok nonzero, log0))
    by (split; [reflexivity|]; now exists raw, addrs, bad, log).
  destruct (String.eqb (out a) EmptyString) eqn:E.
  - subst r. right. exists nonzero. cbn. repeat split; trivial. apply Hf.
  - apply String.eqb_neq in E. destruct (open_write w (out a)) as [u|e].
    + subst r. right. exists nonzero. cbn. repeat split; trivial. apply Hf.
    + subst r. left. cbn. split; [discriminate|]. split; [reflexivity|].
      right. exists nonzero. repeat split; trivial. apply Hf.
Qed.

(** X14. [main] reports all or nothing.  It prints result lines only
    when the whole fetch returned, and then one per record; it writes a
    file only in a run that completes, and a run that completes has
    printed every record and written the CSV if one was asked for.  A
    fetch that raises leaves no line and no file behind. *)
Theorem main_reports_all_or_nothing (a : args) (w : world) :
  (stdout (main kd cd a w) <> [] ->
   exists nonzero,
     fetched kd cd a w nonzero
     /\ stdout (main kd cd a w) = map report_line nonzero)
  /\ (files (main kd cd a w) <> [] ->
      status (main kd cd a w) = Completed /\ out a <> EmptyString)
  /\ (status (main kd cd a w) = Completed ->
      exists nonzero,
        fetched kd cd a w nonzero
        /\ stdout (main kd cd a w) = map report_line nonzero
        /\ files (main kd cd a w) =
           (if String.eqb (out a) EmptyString then []
            else [(out a, csv_text nonzero)])).
Proof.
  destruct (main_cases a w)
    as [(Hst & Hfiles & Hout)|(nonzero & Hf & Hst & Hout & Hfiles)].
  - split; [|split].
    + intros Hne. destruct Hout as [Hout|(nonzero & Hf & Hout & _)];
        [contradiction|]. now exists nonzero.
    + intros Hne. contradiction.
    + intros Hc. contradiction.
  - split; [|split].
    + intros _. now exists nonzero.
    + intros Hne. split; [exact Hst|]. intros E. apply Hne.
      rewrite Hfiles, E. reflexivity.
    + intros _. now exists nonzero.
Qed.

(** The records of a run that got through the fetch phase: hex
    addresses and display strings of decimals. *)
Lemma fetched_records a w nonzero :
  fetched kd cd a w nonzero ->
  Forall (fun b => is_hex_address (bal_addr b) = true
                   /\ exists h, bal_human b = Dec.str h) nonzero.
Proof.
  intros (_ & raw & addrs & bad & log & _ & Hk & Hg).
  destruct (validation_lists kd raw) as (ok & Hrun & _ & Hall).
  rewrite Hrun in Hk. injection Hk as <- _.
  destruct (fetch_records kd cd _ _ _ _ _ _ Hg) as (Hsub & Hhum).
  rewrite Forall_forall in Hall, Hhum. apply Forall_forall. intros b Hin.
  split; [|now apply Hhum].
  assert (Ha : In (bal_addr b) ok)
    by (eapply subseq_in; [exact Hsub|now apply in_map]).
  now destruct (Hall _ Ha).
Qed.

Lemma fetched_lines_clean a w nonzero :
  fetched kd cd a w nonzero ->
  Forall (fun b => occurs Py.newline (bal_symbol b) = false) nonzero ->
  Forall (fun t => occurs Py.newline t = false) (map report_line nonzero).
Proof.
  intros Hf Hsym. pose proof (fetched_records a w nonzero Hf) as Hrec.
  rewrite Forall_forall in *. intros t Ht.
  apply in_map_iff in Ht as (b & <- & Hb).
  destruct (Hrec b Hb) as (Ha & h & Hh).
  apply report_line_no_newline.
  - now apply hex_address_no_newline.
  - rewrite Hh. apply numeral_no_newline, str_numeral.
  - now apply Hsym.
Qed.

(** X15. When the token symbol holds no line feed, the lines of
    standard output are the lines of the records, one each and in order,
    and every one of them can be read back: the text before its first
    comma is the address of its record, the text from there to the next
    space is its amount, and the rest is its symbol. *)
Theorem report_lines_read_back (a : args) (w : world)
  (nonzero : list balance)
  (Hfetched : fetched kd cd a w nonzero)
  (Hsym : Forall (fun b => occurs Py.newline (bal_symbol b) = false) nonzero) :
  Py.lines_of (stdout_text (main kd cd a w)) = map report_line nonzero
  /\ map parse_report_line (Py.lines_of (stdout_text (main kd cd a w))) =
     map (fun b => Some (bal_addr b, bal_human b, bal_symbol b)) nonzero.
Proof.
  assert (Hlines : Py.lines_of (stdout_text (main kd cd a w)) =
                   map report_line nonzero).
  { unfold stdout_text.
    destruct (main_after_fetch kd cd a w nonzero Hfetched) as (-> & _).
    apply lines_of_print. now apply fetched_lines_clean with (a := a) (w := w). }
  split; [exact Hlines|]. rewrite Hlines, map_map.
  pose proof (fetched_records a w nonzero Hfetched) as Hrec.
  apply map_ext_in. intros b Hb. rewrite Forall_forall in Hrec.
  destruct (Hrec b Hb) as (Ha & h & Hh).
  apply parse_report_line_of.
  - now apply hex_address_no_comma.
  - rewrite Hh. apply numeral_no_space, str_numeral.
Qed.

(** C8 (amended). A run that gets through the fetch phase calls [print]
    once per balance record, in order, with the text
    [address,human symbol], so that standard output is these texts, each
    followed by a line feed.  When no symbol holds a line feed these are
    the lines of standard output, exactly one per record; a record whose
    symbol holds one takes more than one line.  Asked for a CSV, the run
    writes one file, made of the header row
    [address,usdc_raw,usdc,symbol] followed by one row per record, in
    order; not asked, it writes none. *)
Theorem report_lines_and_csv (a : args) (w : world) (nonzero : list balance)
  (Hfetched : fetched kd cd a w nonzero) :
  stdout (main kd cd a w) =
    map (fun b => (bal_addr b ++ "," ++ bal_human b ++ " " ++ bal_symbol b)%string)
        nonzero
  /\ length (stdout (main kd cd a w)) = length nonzero
  /\ stdout_text (main kd cd a w) =
     String.concat EmptyString
       (map (fun b => ((bal_addr b ++ "," ++ bal_human b ++ " " ++ bal_symbol b)
                         ++ String Py.newline EmptyString)%string)
            nonzero)
  /\ (Forall (fun b => occurs Py.newline (bal_symbol b) = false) nonzero ->
      Py.lines_of (stdout_text (main kd cd a w)) =
        map (fun b => (bal_addr b ++ "," ++ bal_human b ++ " "
                         ++ bal_symbol b)%string) nonzero
      /\ length (Py.lines_of (stdout_text (main kd cd a w))) = length nonzero)
  /\ (forall b, In b nonzero -> occurs Py.newline (bal_symbol b) = true ->
      (length nonzero < length (Py.lines_of (stdout_text (main kd cd a w))))%nat)
  /\ (out a <> EmptyString -> forall u, open_write w (out a) = Ok u ->
      files (main kd cd a w) =
        [(out a,
          (("address,usdc_raw,usdc,symbol" ++ Csv.lineterminator)
           ++ String.concat EmptyString
                (map (fun b => Csv.writerow
                        [bal_addr b; Py.str_int (bal_raw b);
                         bal_human b; bal_symbol b]) nonzero))%string)])
  /\ (out a = EmptyString -> files (main kd cd a w) = []).
Proof.
  destruct (main_after_fetch kd cd a w nonzero Hfetched) as (Hout & Hnone & Hsome).
  split; [exact Hout|]. split; [now rewrite Hout, length_map|].
  split; [|split; [|split; [|split]]].
  - unfold stdout_text, Py.print_text. now rewrite Hout, map_map.
  - intros Hsym.
    assert (Hlines : Py.lines_of (stdout_text (main kd cd a w)) =
                     map report_line nonzero).
    { unfold stdout_text. rewrite Hout. apply lines_of_print.
      now apply fetched_lines_clean with (a := a) (w := w). }
    split; [exact Hlines|]. now rewrite Hlines, length_map.
  - intros b Hb Hnl. unfold stdout_text. rewrite Hout.
    rewrite lines_of_print_length, <- (length_map report_line nonzero).
    apply line_feeds_add_lines. exists (report_line b).
    split; [now apply in_map|].
    unfold report_line. rewrite !occurs_append, Hnl. now rewrite !orb_true_r.
  - intros Hne u Hu. destruct (Hsome Hne u Hu) as [-> _].
    unfold csv_text. now rewrite csv_header_row.
  - intros He. now destruct (Hnone He).
Qed.

End MainMore.

(** The theorem at the sample run. *)
Lemma report_lines_read_back_witness :
  Forall (fun b => occurs Py.newline (bal_symbol b) = false)
         [mk_balance Sample.address_c 1500000 "1.5" "USDC"] /\
  map parse_report_line
      (Py.lines_of
         (stdout_text (main Sample.digest Sample.calldata
                            (Sample.the_args "out.csv")
                            (Sample.the_world 1500000 [Sample.address_a])))) =
  [Some ("0x52908400098527886e0f7030069857D2E4169eE7", "1.5", "USDC")].
Proof.
  split; [repeat constructor|].
  refine (proj2 (report_lines_read_back Sample.digest Sample.calldata _ _ _
                   sample_run_fetched _)).
  repeat constructor.
Defined.

(** The theorem at a run over one address that holds 1.5 tokens. *)
Lemma report_lines_and_csv_witness :
  stdout (main Sample.digest Sample.calldata (Sample.the_args "out.csv")
               (Sample.the_world 1500000 [Sample.address_a])) =
  ["0x52908400098527886e0f7030069857D2E4169eE7,1.5 USDC"].
Proof.
  exact (proj1 (report_lines_and_csv Sample.digest Sample.calldata
                  _ _ _ sample_run_fetched)).
Defined.

(** C8 as stated fails: the header row the script writes names the
    columns [usdc_raw] and [usdc], not [token_raw] and [token]. *)
Lemma csv_header_is_not_token_raw :
  exists text,
    files (main Sample.digest Sample.calldata (Sample.the_args "out.csv")
                (Sample.the_world 1500000 [Sample.address_a])) =
      [("out.csv", text)]
    /\ Py.startswith text "address,token_raw,token,symbol" = false
    /\ Py.startswith text "address,usdc_raw,usdc,symbol" = true.
Proof.
  eexists. split; [vm_compute; reflexivity|]. split; reflexivity.
Qed.

(** C8 as stated fails in a second way: a token whose symbol holds a
    line feed makes the one record of this run take two lines of
    standard output. *)
Lemma line_feed_in_symbol_splits_the_line :
  let w := mk_world true (fun _ => Ok [Sample.address_a]) (fun _ => Ok tt)
             (mk_rpc_env
                (fun _ => Ok 6%N)
                (fun _ => Ok (String "U" (String "S" (String Py.newline "DC"))))
                (fun _ calls _ =>
                   Ok (map (fun _ => (true, Sample.uint256 1500000)) calls))) in
  let r := main Sample.digest Sample.calldata (Sample.the_args EmptyString) w in
  length (stdout r) = 1%nat
  /\ Py.lines_of (stdout_text r) =
     ["0x52908400098527886e0f7030069857D2E4169eE7,1.5 US"; "DC"].
Proof. vm_compute. split; reflexivity. Qed.

(** *** The CSV file read back *)

Lemma snoc_append g c f :
  (CsvReader.snoc g c ++ f)%string = (g ++ String c f)%string.
Proof. unfold CsvReader.snoc. now rewrite append_assoc_s. Qed.

Lemma special_cases c :
  Csv.is_special c = false ->
  Ascii.eqb c "," = false /\ Ascii.eqb c Csv.cr = false
  /\ Ascii.eqb c Csv.quote_char = false /\ Ascii.eqb c Csv.lf = false.
Proof.
  unfold Csv.is_special. intros H.
  apply orb_false_elim in H as [H Hlf].
  apply orb_false_elim in H as [H Hcr].
  apply orb_false_elim in H as [Hcomma Hq]. now repeat split.
Qed.

(** Characters that need no quoting are taken into the field one by one. *)
Lemma scan_plain f : forall tail st g row rows,
  Py.string_existsb Csv.is_special f = false ->
  st = CsvReader.RowStart \/ st = CsvReader.FieldStart
  \/ st = CsvReader.Unquoted ->
  CsvReader.scan (f ++ tail) st g row rows =
  CsvReader.scan tail
    (match f with EmptyString => st | _ => CsvReader.Unquoted end)
    (g ++ f) row rows.
Proof.
  induction f as [|c f IH]; intros tail st g row rows Hf Hst.
  - cbn [append]. now rewrite append_nil_r.
  - cbn [Py.string_existsb] in Hf. apply orb_false_elim in Hf as [Hc Hf].
    destruct (special_cases c Hc) as (H1 & H2 & H3 & H4).
    cbn [append CsvReader.scan].
    assert (Hstep : CsvReader.scan (String c (f ++ tail)) st g row rows =
                    CsvReader.scan (f ++ tail) CsvReader.Unquoted
                                   (CsvReader.snoc g c) row rows).
    { cbn [CsvReader.scan].
      destruct Hst as [-> |[-> | ->]]; now rewrite H1, H2, H3, H4. }
    cbn [CsvReader.scan] in Hstep. rewrite Hstep.
    rewrite IH by (trivial; tauto). rewrite snoc_append.
    now destruct f.
Qed.

(** Inside quotes everything is taken, a doubled quote as one, up to the
    closing quote. *)
Lemma scan_quoted f : forall tail g row rows,
  CsvReader.scan (Csv.double_quotes f ++ String Csv.quote_char tail)
                 CsvReader.Quoted g row rows =
  CsvReader.scan tail CsvReader.QuoteSeen (g ++ f) row rows.
Proof.
  induction f as [|c f IH]; intros tail g row rows.
  - cbn [Csv.double_quotes append CsvReader.scan].
    now rewrite Ascii.eqb_refl, append_nil_r.
  - cbn [Csv.double_quotes].
    destruct (Ascii.eqb c Csv.quote_char) eqn:E.
    + apply Ascii.eqb_eq in E. subst c.
      cbn [append CsvReader.scan]. rewrite !Ascii.eqb_refl.
      now rewrite IH, snoc_append.
    + cbn [append CsvReader.scan]. rewrite E.
      now rewrite IH, snoc_append.
Qed.

Lemma scan_field_comma f tail st row rows :
  st = CsvReader.RowStart \/ st = CsvReader.FieldStart ->
  CsvReader.scan (Csv.field f ++ String "," tail) st EmptyString row rows =
  CsvReader.scan tail CsvReader.FieldStart EmptyString (row ++ [f]) rows.
Proof.
  intros Hst. unfold Csv.field.
  destruct (Py.string_existsb Csv.is_special f) eqn:E.
  - change (String Csv.quote_char (Csv.double_quotes f)
              ++ String Csv.quote_char EmptyString)%string
      with (String Csv.quote_char
              (Csv.double_quotes f ++ String Csv.quote_char EmptyString)).
    cbn [append]. rewrite append_assoc_s. cbn [append].
    assert (Hopen : forall rest,
              CsvReader.scan (String Csv.quote_char rest) st EmptyString row rows
              = CsvReader.scan rest CsvReader.Quoted EmptyString row rows)
      by (intros; destruct Hst as [-> | ->]; reflexivity).
    rewrite Hopen, scan_quoted. reflexivity.
  - rewrite scan_plain by (trivial; tauto). cbn [append].
    destruct f; destruct Hst as [-> | ->]; reflexivity.
Qed.

Lemma scan_field_end f tail row rows :
  CsvReader.scan (Csv.field f ++ Csv.lineterminator ++ tail)
                 CsvReader.FieldStart EmptyString row rows =
  CsvReader.scan tail CsvReader.RowStart EmptyString [] (rows ++ [row ++ [f]]).
Proof.
  unfold Csv.field, Csv.lineterminator.
  destruct (Py.string_existsb Csv.is_special f) eqn:E.
  - change (String Csv.quote_char (Csv.double_quotes f)
              ++ String Csv.quote_char EmptyString)%string
      with (String Csv.quote_char
              (Csv.double_quotes f ++ String Csv.quote_char EmptyString)).
    cbn [append]. rewrite append_assoc_s. cbn [append].
    change (CsvReader.scan
              (String Csv.quote_char
                 (Csv.double_quotes f
                    ++ String Csv.quote_char
                         (String Csv.cr (String Csv.lf tail))))
              CsvReader.FieldStart EmptyString row rows)
      with (CsvReader.scan
              (Csv.double_quotes f
                 ++ String Csv.quote_char (String Csv.cr (String Csv.lf tail)))
              CsvReader.Quoted EmptyString row rows).
    rewrite scan_quoted. reflexivity.
  - rewrite scan_plain by (trivial; tauto). cbn [append].
    destruct f; reflexivity.
Qed.

Lemma scan_fields fs : forall f tail row rows,
  CsvReader.scan
    (Py.join "," (map Csv.field (f :: fs)) ++ Csv.lineterminator ++ tail)
    CsvReader.FieldStart EmptyString row rows =
  CsvReader.scan tail CsvReader.RowStart EmptyString []
                 (rows ++ [row ++ f :: fs]).
Proof.
  induction fs as [|f2 fs IH]; intros f tail row rows.
  - cbn [map Py.join]. apply scan_field_end.
  - change (Py.join "," (map Csv.field (f :: f2 :: fs)))
      with (Csv.field f ++ "," ++ Py.join "," (map Csv.field (f2 :: fs)))%string.
    rewrite !append_assoc_s.
    change ("," ++ ?x)%string with (String "," x).
    rewrite scan_field_comma by tauto. rewrite IH.
    now rewrite <- app_assoc.
Qed.

Lemma scan_row f f2 fs tail rows :
  CsvReader.scan (Csv.writerow (f :: f2 :: fs) ++ tail)
                 CsvReader.RowStart EmptyString [] rows =
  CsvReader.scan tail CsvReader.RowStart EmptyString [] (rows ++ [f :: f2 :: fs]).
Proof.
  unfold Csv.writerow.
  change (Py.join "," (map Csv.field (f :: f2 :: fs)))
    with (Csv.field f ++ "," ++ Py.join "," (map Csv.field (f2 :: fs)))%string.
  rewrite !append_assoc_s.
  change ("," ++ ?x)%string with (String "," x).
  rewrite scan_field_comma by tauto. now rewrite scan_fields.
Qed.

(** Rows of two fields or more, written one after the other, read back
    as they were. *)
Lemma scan_rows rs : forall tail rows,
  Forall (fun r => (2 <= length r)%nat) rs ->
  CsvReader.scan (String.concat EmptyString (map Csv.writerow rs) ++ tail)
                 CsvReader.RowStart EmptyString [] rows =
  CsvReader.scan tail CsvReader.RowStart EmptyString [] (rows ++ rs).
Proof.
  induction rs as [|r rs IH]; intros tail rows Hall.
  - cbn. now rewrite app_nil_r.
  - inversion Hall as [|r' rs' Hr Hrs]; subst.
    destruct r as [|f [|f2 fs]]; cbn in Hr; try lia.
    cbn [map]. rewrite concat_cons, append_assoc_s, scan_row, IH by exact Hrs.
    now rewrite <- app_assoc.
Qed.

(** X16. The CSV text [main] writes reads back, under the rules of the
    format, as the header row followed by one row of four fields per
    record: address, raw amount in decimal, display amount, symbol.  No
    character a symbol may hold (comma, quote, line break) breaks a row
    or a field. *)
Theorem csv_text_reads_back (nonzero : list balance) :
  CsvReader.read (csv_text nonzero) =
  Some (["address"; "usdc_raw"; "usdc"; "symbol"]
          :: map (fun b => [bal_addr b; Py.str_int (bal_raw b);
                            bal_human b; bal_symbol b]) nonzero).
Proof.
  unfold CsvReader.read, csv_text.
  rewrite <- (map_map csv_row Csv.writerow).
  rewrite <- concat_cons.
  change (Csv.writerow csv_header :: map Csv.writerow (map csv_row nonzero))
    with (map Csv.writerow (csv_header :: map csv_row nonzero)).
  rewrite <- (append_nil_r (String.concat _ _)).
  rewrite scan_rows.
  - reflexivity.
  - constructor; [cbn; lia|]. apply Forall_forall. intros r Hr.
    apply in_map_iff in Hr as (b & <- & _). cbn. lia.
Qed.
